(** * LuminaWeb Protocol: a shallow embedding of the secure-envelope core

    The development follows the TypeScript sources:
    - [SecurityUtils]       (src/lib/security.ts)
    - [SecureCrypto]        (src/lib/crypto.ts)
    - [LuminaWebProtocol]   (src/lib/protocol.ts)
    - [SecureStorage]       (src/lib/storage.ts)
    - [AuthService]         (src/lib/auth.ts)
    - [WebSocketManager]    (the WebSocket API route)

    Conventions.  A JavaScript [string] is a Rocq [string]; a [Buffer] is a
    [list byte]; [Date.now()] and [Date.getTime()] are integral millisecond
    counts well inside the exact range of a double, so they are [Z];
    [NaN] (an unparseable date) is [None].  A JavaScript [Map] or [Set]
    whose iteration order is observed is an insertion-ordered list; the
    session map, which is only read, written and filtered by key, is a
    [gmap].  Library calls (Node's [crypto], [jsonwebtoken], [bcryptjs],
    [Date] parsing) are operations of an interface class; what the sources
    do around them is written out. *)

From Stdlib Require Import ZArith String Ascii List Bool Lia.
From Stdlib Require Import Init.Byte.
From Stdlib Require Import DecimalString DecimalZ.
From stdpp Require Import base option list strings pretty gmap sorting.

Local Open Scope Z_scope.

(** ** Thrown errors

    A function that may throw returns [Res A]; [Throw] carries the error. *)

Inductive Err : Type :=
  | InvalidAuthenticationTag        (* new Error('Invalid authentication tag') *)
  | ERR_CRYPTO_TIMING_SAFE_EQUAL_LENGTH
  | ERR_CRYPTO_INVALID_KEYLEN
  | ERR_CRYPTO_INVALID_IV
  | ERR_OSSL_BAD_DECRYPT
  | ERR_OSSL_UNSUPPORTED            (* the PEM text is not a key *)
  | ERR_CRYPTO_INVALID_KEY_OBJECT_TYPE
  | ERR_CRYPTO_INCOMPATIBLE_KEY.

Inductive Res (A : Type) : Type :=
  | Ok (a : A)
  | Throw (e : Err).
Arguments Ok {A} a.
Arguments Throw {A} e.

Definition bindRes {A B : Type} (r : Res A) (k : A -> Res B) : Res B :=
  match r with
  | Ok a => k a
  | Throw e => Throw e
  end.

#[global] Instance Res_ret : MRet Res := fun A a => Ok a.
#[global] Instance Res_bind : MBind Res := fun A B k r => bindRes r k.

(** ** SecurityUtils *)

Module SecurityUtils.

Definition in_range (lo hi c : ascii) : bool :=
  (N.leb (N_of_ascii lo) (N_of_ascii c)) && (N.leb (N_of_ascii c) (N_of_ascii hi)).

(** [[a-zA-Z0-9]] *)
Definition is_alnum (c : ascii) : bool :=
  in_range "a" "z" c || in_range "A" "Z" c || in_range "0" "9" c.

Fixpoint mem_ascii (c : ascii) (s : string) : bool :=
  match s with
  | EmptyString => false
  | String d s' => Ascii.eqb c d || mem_ascii c s'
  end.

(** [[a-zA-Z0-9.!#$%&'*+/=?^_`{|}~-]] *)
Definition is_local_char (c : ascii) : bool :=
  is_alnum c || mem_ascii c ".!#$%&'*+/=?^_`{|}~-".

(** [[a-zA-Z0-9-]] *)
Definition is_label_char (c : ascii) : bool :=
  is_alnum c || Ascii.eqb c "-".

(** Splits at every occurrence of [sep]; [split_on "." "a.b"] is
    [["a"; "b"]], and an empty piece is kept. *)
Fixpoint split_on (sep : ascii) (s : string) : list string :=
  match s with
  | EmptyString => [EmptyString]
  | String c s' =>
      if Ascii.eqb c sep then EmptyString :: split_on sep s'
      else match split_on sep s' with
           | [] => [String c EmptyString]
           | p :: ps => String c p :: ps
           end
  end.

Fixpoint forall_chars (p : ascii -> bool) (s : string) : bool :=
  match s with
  | EmptyString => true
  | String c s' => p c && forall_chars p s'
  end.

Definition first_char (s : string) : option ascii :=
  match s with
  | EmptyString => None
  | String c _ => Some c
  end.

Fixpoint last_char (s : string) : option ascii :=
  match s with
  | EmptyString => None
  | String c EmptyString => Some c
  | String _ s' => last_char s'
  end.

Definition opt_test (p : ascii -> bool) (o : option ascii) : bool :=
  match o with
  | Some c => p c
  | None => false
  end.

(** [[a-zA-Z0-9](?:[a-zA-Z0-9-]{0,61}[a-zA-Z0-9])?]: one to 63
    characters, letters, digits and hyphens, the first and the last one
    not a hyphen. *)
Definition is_label (l : string) : bool :=
  (1 <=? String.length l)%nat && (String.length l <=? 63)%nat
  && opt_test is_alnum (first_char l) && opt_test is_alnum (last_char l)
  && forall_chars is_label_char l.

(** [email.includes('..')] *)
Fixpoint includes_dotdot (s : string) : bool :=
  match s with
  | String "." (String "." _) => true
  | String _ s' => includes_dotdot s'
  | EmptyString => false
  end.

(** The regular expression of [validateEmail]: a non-empty local part, one
    [@] (neither character class contains it), then at least two labels
    separated by dots. *)
Definition emailRegex_test (email : string) : bool :=
  match split_on "@" email with
  | [localPart; domain] =>
      (1 <=? String.length localPart)%nat
      && forall_chars is_local_char localPart
      && (2 <=? List.length (split_on "." domain))%nat
      && forallb is_label (split_on "." domain)
  | _ => false
  end.

Definition validateEmail (email : string) : bool :=
  emailRegex_test email
  && (String.length email <=? 320)%nat
  && (5 <=? String.length email)%nat
  && negb (includes_dotdot email).

Definition DEFAULT_MAX_AGE_MS : Z := 300000.

(** [new Date(timestamp).getTime()]: the time value in milliseconds, or
    [None] for [NaN] (an invalid date). *)
Class DateLib := { Date_parse : string -> option Z }.

(** [isValidTimestamp(timestamp, maxAgeMs)] at the instant [now]
    ([Date.now()]).  With [NaN] both comparisons are false. *)
Definition isValidTimestamp `{DateLib} (now : Z) (timestamp : string) (maxAgeMs : Z) : bool :=
  match Date_parse timestamp with
  | None => false
  | Some messageTime =>
      let currentTime := now in
      let age := currentTime - messageTime in
      (0 <=? age)%Z && (age <=? maxAgeMs)%Z
  end.

(** *** Passwords *)

Fixpoint exists_chars (p : ascii -> bool) (s : string) : bool :=
  match s with
  | EmptyString => false
  | String c s' => p c || exists_chars p s'
  end.

Definition is_upper (c : ascii) : bool := in_range "A" "Z" c.
Definition is_lower (c : ascii) : bool := in_range "a" "z" c.
Definition is_digit (c : ascii) : bool := in_range "0" "9" c.

(** The class of the last test of [validatePassword]; the double quote is
    character 34. *)
Definition is_special (c : ascii) : bool :=
  mem_ascii c "!@#$%^&*()_+-=[]{};':\|,.<>/?" || Ascii.eqb c (ascii_of_nat 34).

Definition validatePassword (password : string) : bool * list string :=
  let errors : list string := [] in
  let errors :=
    if (String.length password <? 12)%nat
    then errors ++ ["Password must be at least 12 characters long"] else errors in
  let errors :=
    if negb (exists_chars is_upper password)
    then errors ++ ["Password must contain at least one uppercase letter"] else errors in
  let errors :=
    if negb (exists_chars is_lower password)
    then errors ++ ["Password must contain at least one lowercase letter"] else errors in
  let errors :=
    if negb (exists_chars is_digit password)
    then errors ++ ["Password must contain at least one number"] else errors in
  let errors :=
    if negb (exists_chars is_special password)
    then errors ++ ["Password must contain at least one special character"] else errors in
  ((List.length errors =? 0)%nat, errors).

Definition checkPasswordStrength (password : string) : Z :=
  let score := 0 in
  let score := if (8 <=? String.length password)%nat then score + 1 else score in
  let score := if (12 <=? String.length password)%nat then score + 1 else score in
  let score := if exists_chars is_lower password then score + 1 else score in
  let score := if exists_chars is_upper password then score + 1 else score in
  let score := if exists_chars is_digit password then score + 1 else score in
  let score := if exists_chars (fun c => negb (is_alnum c)) password
               then score + 1 else score in
  let score := if (16 <=? String.length password)%nat then score + 1 else score in
  Z.min score 5.

(** *** sanitizeInput

    A character of a string is a UTF-16 code unit below 256. *)

Fixpoint filter_chars (p : ascii -> bool) (s : string) : string :=
  match s with
  | EmptyString => EmptyString
  | String c s' => if p c then String c (filter_chars p s') else filter_chars p s'
  end.

(** The ASCII lower-case form; under the [i] flag no other character
    matches an ASCII letter. *)
Definition lower_ascii (c : ascii) : ascii :=
  if is_upper c then ascii_of_N (N_of_ascii c + 32) else c.

(** Does [s] start with the lower-case text [p], case ignored? *)
Fixpoint starts_with_ci (p s : string) : bool :=
  match p, s with
  | EmptyString, _ => true
  | String a p', String b s' => Ascii.eqb a (lower_ascii b) && starts_with_ci p' s'
  | String _ _, EmptyString => false
  end.

(** [s.replace(/p/gi, '')] for a literal, non-empty, lower-case [p]: the
    matches are found from left to right and do not overlap; [skip] counts
    the characters of the current match still to drop. *)
Fixpoint remove_literal_ci (p : string) (skip : nat) (s : string) : string :=
  match s with
  | EmptyString => EmptyString
  | String c s' =>
      match skip with
      | S k => remove_literal_ci p k s'
      | O =>
          if starts_with_ci p s then remove_literal_ci p (String.length p - 1) s'
          else String c (remove_literal_ci p 0 s')
      end
  end.

(** [\w] *)
Definition is_word_char (c : ascii) : bool := is_alnum c || Ascii.eqb c "_".

(** The length of the leading run of word characters. *)
Fixpoint word_run (s : string) : nat :=
  match s with
  | String c s' => if is_word_char c then S (word_run s') else 0
  | EmptyString => 0
  end.

(** The length of the match of [/on\w+=/i] at the start of [s], if there
    is one: [on], the whole run of word characters that follows (at least
    one), and the [=] after it. *)
Definition match_on_handler (s : string) : option nat :=
  match s with
  | String c1 (String c2 rest) =>
      if Ascii.eqb "o" (lower_ascii c1) && Ascii.eqb "n" (lower_ascii c2) then
        let run := word_run rest in
        if (1 <=? run)%nat
           && match String.get run rest with
              | Some c => Ascii.eqb c "="
              | None => false
              end
        then Some (run + 3)%nat else None
      else None
  | _ => None
  end.

(** [s.replace(/on\w+=/gi, '')] *)
Fixpoint remove_on_handlers (skip : nat) (s : string) : string :=
  match s with
  | EmptyString => EmptyString
  | String c s' =>
      match skip with
      | S k => remove_on_handlers k s'
      | O =>
          match match_on_handler s with
          | Some len => remove_on_handlers (len - 1) s'
          | None => String c (remove_on_handlers 0 s')
          end
      end
  end.

(** White space and line terminators below 256: tab, line feed, vertical
    tab, form feed, carriage return, space, no-break space. *)
Definition is_space (c : ascii) : bool :=
  let n := N_of_ascii c in
  (N.leb 9 n && N.leb n 13) || N.eqb n 32 || N.eqb n 160.

Fixpoint trim_start (s : string) : string :=
  match s with
  | String c s' => if is_space c then trim_start s' else s
  | EmptyString => EmptyString
  end.

(** Drops the white space at the end: a character is kept when it is not
    white space or something kept follows it. *)
Fixpoint trim_end (s : string) : string :=
  match s with
  | EmptyString => EmptyString
  | String c s' =>
      match trim_end s' with
      | EmptyString => if is_space c then EmptyString else String c EmptyString
      | rest => String c rest
      end
  end.

Definition trim (s : string) : string := trim_end (trim_start s).

Definition sanitizeInput (input : string) : string :=
  trim
    (remove_on_handlers 0
       (remove_literal_ci "javascript:" 0
          (filter_chars (fun c => negb (Ascii.eqb c "<" || Ascii.eqb c ">")) input))).

(** *** Base64url *)

Definition base64_char (n : N) : ascii :=
  if (n <? 26)%N then ascii_of_N (n + 65)
  else if (n <? 52)%N then ascii_of_N (n + 71)
  else if (n <? 62)%N then ascii_of_N (n - 4)
  else if (n =? 62)%N then "+"%char
  else "/"%char.

(** [buf.toString('base64')]: the standard alphabet, padded with [=]. *)
Fixpoint toString_base64 (buf : list byte) : string :=
  match buf with
  | [] => EmptyString
  | [a] =>
      let a := Byte.to_N a in
      String (base64_char (a / 4)) (String (base64_char ((a mod 4) * 16)) "==")
  | [a; b] =>
      let a := Byte.to_N a in
      let b := Byte.to_N b in
      String (base64_char (a / 4))
        (String (base64_char ((a mod 4) * 16 + b / 16))
           (String (base64_char ((b mod 16) * 4)) "="))
  | a :: b :: c :: rest =>
      let a := Byte.to_N a in
      let b := Byte.to_N b in
      let c := Byte.to_N c in
      String (base64_char (a / 4))
        (String (base64_char ((a mod 4) * 16 + b / 16))
           (String (base64_char ((b mod 16) * 4 + c / 64))
              (String (base64_char (c mod 64)) (toString_base64 rest))))
  end%N.

(** The value of a character of either alphabet, the standard one or the
    URL-safe one. *)
Definition unbase64 (c : ascii) : option N :=
  let n := N_of_ascii c in
  if is_upper c then Some (n - 65)%N
  else if is_lower c then Some (n - 71)%N
  else if is_digit c then Some (n + 4)%N
  else if Ascii.eqb c "+" || Ascii.eqb c "-" then Some 62%N
  else if Ascii.eqb c "/" || Ascii.eqb c "_" then Some 63%N
  else None.

(** The digits that Node's decoder reads: characters outside the alphabets
    are skipped and the first [=] ends the data. *)
Fixpoint base64_digits (s : string) : list N :=
  match s with
  | EmptyString => []
  | String c s' =>
      if Ascii.eqb c "=" then []
      else match unbase64 c with
           | Some v => v :: base64_digits s'
           | None => base64_digits s'
           end
  end.

Definition byte_of_N (n : N) : byte :=
  match Byte.of_N (n mod 256) with
  | Some b => b
  | None => x00
  end.

(** Four digits give three bytes; three left-over digits give two bytes,
    two give one, and a single one gives none. *)
Fixpoint base64_pack (digits : list N) : list byte :=
  match digits with
  | d1 :: d2 :: d3 :: d4 :: rest =>
      byte_of_N (d1 * 4 + d2 / 16)
      :: byte_of_N ((d2 mod 16) * 16 + d3 / 4)
      :: byte_of_N ((d3 mod 4) * 64 + d4)
      :: base64_pack rest
  | [d1; d2; d3] =>
      [byte_of_N (d1 * 4 + d2 / 16); byte_of_N ((d2 mod 16) * 16 + d3 / 4)]
  | [d1; d2] => [byte_of_N (d1 * 4 + d2 / 16)]
  | _ => []
  end%N.

(** [Buffer.from(s, 'base64')] *)
Definition Buffer_from_base64 (s : string) : list byte := base64_pack (base64_digits s).

(** [s.replace(/a/g, b)] for single characters *)
Fixpoint replace_char (a b : ascii) (s : string) : string :=
  match s with
  | EmptyString => EmptyString
  | String c s' => String (if Ascii.eqb c a then b else c) (replace_char a b s')
  end.

Definition encodeBase64Url (data : list byte) : string :=
  filter_chars (fun c => negb (Ascii.eqb c "="))
    (replace_char "/" "_" (replace_char "+" "-" (toString_base64 data))).

(** [while (base64.length % 4) base64 += '='] *)
Definition pad_base64 (base64 : string) : string :=
  base64 +:+ string_of_list_ascii
               (repeat "="%char ((4 - String.length base64 mod 4) mod 4)).

Definition decodeBase64Url (data : string) : list byte :=
  let base64 := replace_char "_" "/" (replace_char "-" "+" data) in
  Buffer_from_base64 (pad_base64 base64).

(** The 6-bit digits that [toString_base64] writes for a buffer. *)
Fixpoint digits_of_bytes (buf : list byte) : list N :=
  match buf with
  | [] => []
  | [a] =>
      let a := Byte.to_N a in
      [a / 4; (a mod 4) * 16]
  | [a; b] =>
      let a := Byte.to_N a in
      let b := Byte.to_N b in
      [a / 4; (a mod 4) * 16 + b / 16; (b mod 16) * 4]
  | a :: b :: c :: rest =>
      let a := Byte.to_N a in
      let b := Byte.to_N b in
      let c := Byte.to_N c in
      a / 4 :: (a mod 4) * 16 + b / 16 :: (b mod 16) * 4 + c / 64 :: c mod 64
      :: digits_of_bytes rest
  end%N.

(** The character that [encodeBase64Url] writes for a digit. *)
Definition base64url_char (n : N) : ascii :=
  let c := base64_char n in
  let c := if Ascii.eqb c "+" then "-"%char else c in
  if Ascii.eqb c "/" then "_"%char else c.

(** [[A-Za-z0-9_-]] *)
Definition is_url_safe (c : ascii) : bool :=
  is_alnum c || Ascii.eqb c "-" || Ascii.eqb c "_".

End SecurityUtils.

(** ** SecureCrypto *)

Module KeyPair.
Record t : Type := mk { publicKey : string; privateKey : string }.
End KeyPair.

Module EncryptedData.
Record t : Type := mk { iv : string; data : string; tag : string }.
End EncryptedData.

Module SecureCrypto.

(** *** Buffers and their hex form *)

Definition hex_digit (n : N) : ascii :=
  match n with
  | 0 => "0" | 1 => "1" | 2 => "2" | 3 => "3" | 4 => "4" | 5 => "5"
  | 6 => "6" | 7 => "7" | 8 => "8" | 9 => "9" | 10 => "a" | 11 => "b"
  | 12 => "c" | 13 => "d" | 14 => "e" | _ => "f"
  end%N%char.

Definition hex_value (c : ascii) : option N :=
  let n := N_of_ascii c in
  if SecurityUtils.in_range "0" "9" c then Some (n - 48)%N
  else if SecurityUtils.in_range "a" "f" c then Some (n - 87)%N
  else if SecurityUtils.in_range "A" "F" c then Some (n - 55)%N
  else None.

(** [buf.toString('hex')]: two lower-case digits per byte. *)
Fixpoint toString_hex (buf : list byte) : string :=
  match buf with
  | [] => EmptyString
  | b :: rest =>
      let n := Byte.to_N b in
      String (hex_digit (n / 16)) (String (hex_digit (n mod 16)) (toString_hex rest))
  end.

(** [Buffer.from(s, 'hex')]: decodes pairs of digits and stops at the
    first pair that is not hexadecimal (or at a lone last character). *)
Fixpoint Buffer_from_hex (s : string) : list byte :=
  match s with
  | String c1 (String c2 rest) =>
      match hex_value c1, hex_value c2 with
      | Some h, Some l =>
          match Byte.of_N (16 * h + l) with
          | Some b => b :: Buffer_from_hex rest
          | None => []
          end
      | _, _ => []
      end
  | _ => []
  end.

#[global] Instance byte_eq_dec : EqDecision byte := Byte.byte_eq_dec.

(** [crypto.timingSafeEqual(a, b)] throws on buffers of different
    length and otherwise compares the contents. *)
Definition timingSafeEqual (a b : list byte) : Res bool :=
  if negb (List.length a =? List.length b)%nat
  then Throw ERR_CRYPTO_TIMING_SAFE_EQUAL_LENGTH
  else Ok (bool_decide (a = b)).

(** *** Keys *)

Inductive KeyType : Type :=
  | rsa | rsa_pss | dsa | ec | ed25519 | ed448 | x25519 | x448 | dh.

#[global] Instance KeyType_eq_dec : EqDecision KeyType.
Proof. solve_decision. Defined.

Inductive KeyKind : Type := PublicKeyObject | PrivateKeyObject.

#[global] Instance KeyKind_eq_dec : EqDecision KeyKind.
Proof. solve_decision. Defined.

Record KeyObject : Type := mkKeyObject {
  keyKind : KeyKind;
  asymmetricKeyType : KeyType;
  keyMaterial : list byte
}.

(** *** Node's [crypto] module

    Randomness is an argument of the operation that draws it. *)
Class NodeCrypto : Type := {
  (** [generateKeyPairSync('rsa', { modulusLength: 2048, spki/pem,
      pkcs8/pem })]: the two PEM texts, public first. *)
  generateKeyPairSync_rsa : list byte -> string * string;
  createPrivateKey : string -> Res KeyObject;
  createPublicKey : string -> Res KeyObject;
  (** the agreed secret of two keys of one Diffie-Hellman capable type *)
  computeSecret : KeyObject -> KeyObject -> list byte;
  scryptSync : list byte -> string -> nat -> list byte;
  (** AES-256-CBC with PKCS#7 padding, [update] followed by [final] *)
  aes256cbc_encrypt : list byte -> list byte -> list byte -> list byte;
  aes256cbc_decrypt : list byte -> list byte -> list byte -> Res (list byte);
  (** [createHmac('sha256', key).update(text).digest()] *)
  hmac_sha256 : list byte -> string -> list byte;
  utf8_encode : string -> list byte;
  utf8_decode : list byte -> string;
  (** [createSign('SHA256')] and [createVerify('SHA256')] *)
  sha256_sign : string -> string -> string;
  sha256_verify : string -> string -> string -> Res bool
}.

Section WithCrypto.
Context `{NodeCrypto}.

Definition ALGORITHM : string := "aes-256-cbc".
Definition KEY_SIZE : nat := 32.
Definition IV_SIZE : nat := 16.
Definition TAG_SIZE : nat := 16.
Definition SALT_ROUNDS : nat := 12.

(** [entropy] is what the generator draws from the system. *)
Definition generateKeyPair (entropy : list byte) : KeyPair.t :=
  let keyPair := generateKeyPairSync_rsa entropy in
  {| KeyPair.publicKey := fst keyPair; KeyPair.privateKey := snd keyPair |}.

Definition generateEphemeralKeyPair (entropy : list byte) : KeyPair.t :=
  generateKeyPair entropy.

(** [dhEnabledKeyTypes] of Node: ['dh', 'ec', 'x448', 'x25519']. *)
Definition dhEnabledKeyTypes (t : KeyType) : bool :=
  match t with
  | dh | ec | x448 | x25519 => true
  | _ => false
  end.

(** [crypto.diffieHellman({ privateKey, publicKey })]: the first key
    must be a private one, and both keys must have the same type, one of
    the Diffie-Hellman capable ones; otherwise it throws. *)
Definition diffieHellman (privateKey publicKey : KeyObject) : Res (list byte) :=
  if negb (bool_decide (keyKind privateKey = PrivateKeyObject))
  then Throw ERR_CRYPTO_INVALID_KEY_OBJECT_TYPE
  else if negb (bool_decide (asymmetricKeyType privateKey = asymmetricKeyType publicKey))
          || negb (dhEnabledKeyTypes (asymmetricKeyType privateKey))
  then Throw ERR_CRYPTO_INCOMPATIBLE_KEY
  else Ok (computeSecret privateKey publicKey).

Definition deriveSharedSecret (privateKey publicKey : string) : Res (list byte) :=
  priv ← createPrivateKey privateKey;
  pub ← createPublicKey publicKey;
  sharedSecret ← diffieHellman priv pub;
  Ok (scryptSync sharedSecret "smp-protocol" KEY_SIZE).

(** [createCipheriv] and [createDecipheriv] for aes-256-cbc check the
    initialisation vector and then the key, before anything is
    transformed. *)
Definition createCipheriv (key iv : list byte) : Res unit :=
  if negb (List.length iv =? 16)%nat then Throw ERR_CRYPTO_INVALID_IV
  else if negb (List.length key =? 32)%nat then Throw ERR_CRYPTO_INVALID_KEYLEN
  else Ok tt.

(** [iv] is the value of [crypto.randomBytes(IV_SIZE)]. *)
Definition encrypt (data : string) (key : list byte) (iv : list byte)
  : Res EncryptedData.t :=
  _ ← createCipheriv key iv;
  let encrypted := toString_hex (aes256cbc_encrypt key iv (utf8_encode data)) in
  let tag := toString_hex (hmac_sha256 key (encrypted +:+ toString_hex iv)) in
  Ok {| EncryptedData.iv := toString_hex iv;
        EncryptedData.data := encrypted;
        EncryptedData.tag := tag |}.

Definition decrypt (encryptedData : EncryptedData.t) (key : list byte) : Res string :=
  let iv := Buffer_from_hex (EncryptedData.iv encryptedData) in
  (* Verify HMAC first *)
  let expectedTag :=
    toString_hex (hmac_sha256 key
      (EncryptedData.data encryptedData +:+ EncryptedData.iv encryptedData)) in
  same ← timingSafeEqual (Buffer_from_hex (EncryptedData.tag encryptedData))
                         (Buffer_from_hex expectedTag);
  if negb same then Throw InvalidAuthenticationTag
  else
    _ ← createCipheriv key iv;
    decrypted ← aes256cbc_decrypt key iv
                  (Buffer_from_hex (EncryptedData.data encryptedData));
    Ok (utf8_decode decrypted).

(** The blob [encrypt] builds once the cipher is created. *)
Definition sealed (plaintext : string) (key iv : list byte) : EncryptedData.t :=
  let encrypted := toString_hex (aes256cbc_encrypt key iv (utf8_encode plaintext)) in
  {| EncryptedData.iv := toString_hex iv;
     EncryptedData.data := encrypted;
     EncryptedData.tag := toString_hex (hmac_sha256 key (encrypted +:+ toString_hex iv)) |}.

Definition sign (data privateKey : string) : string :=
  sha256_sign data privateKey.

(** [verify] never throws: the [catch] turns any error into [false]. *)
Definition verify (data signature publicKey : string) : bool :=
  match sha256_verify data signature publicKey with
  | Ok b => b
  | Throw _ => false
  end.

End WithCrypto.

(** *** Password-based encryption, MACs and random identifiers *)

(** [crypto.scryptSync(password, salt, keylen)] with a text password and
    a [Buffer] salt. *)
Class NodeScrypt : Type := {
  scryptSync_password : string -> list byte -> nat -> list byte
}.

Section WithPassword.
Context `{NodeCrypto} `{NodeScrypt}.

(** [salt] is the value of [crypto.randomBytes(16)], [iv] that of
    [crypto.randomBytes(IV_SIZE)]. *)
Definition encryptWithPassword (data password : string) (salt iv : list byte)
  : Res EncryptedData.t :=
  let key := scryptSync_password password salt KEY_SIZE in
  _ ← createCipheriv key iv;
  let encrypted := toString_hex (aes256cbc_encrypt key iv (utf8_encode data)) in
  let tag :=
    toString_hex (hmac_sha256 key ((encrypted +:+ toString_hex salt) +:+ toString_hex iv)) in
  Ok {| EncryptedData.iv := toString_hex salt +:+ toString_hex iv;
        EncryptedData.data := encrypted;
        EncryptedData.tag := tag |}.

Definition decryptWithPassword (encryptedData : EncryptedData.t) (password : string)
  : Res string :=
  let saltAndIv := Buffer_from_hex (EncryptedData.iv encryptedData) in
  let salt := take 16 saltAndIv in
  let iv := drop 16 saltAndIv in
  let key := scryptSync_password password salt KEY_SIZE in
  (* Verify HMAC first *)
  let expectedTag :=
    toString_hex (hmac_sha256 key
      ((EncryptedData.data encryptedData +:+ toString_hex salt) +:+ toString_hex iv)) in
  same ← timingSafeEqual (Buffer_from_hex (EncryptedData.tag encryptedData))
                         (Buffer_from_hex expectedTag);
  if negb same then Throw InvalidAuthenticationTag
  else
    _ ← createCipheriv key iv;
    decrypted ← aes256cbc_decrypt key iv
                  (Buffer_from_hex (EncryptedData.data encryptedData));
    Ok (utf8_decode decrypted).

End WithPassword.

Section WithCryptoMore.
Context `{NodeCrypto}.

Definition generateHMAC (data : string) (key : list byte) : string :=
  toString_hex (hmac_sha256 key data).

Definition verifyHMAC (data hmac : string) (key : list byte) : Res bool :=
  let expectedHmac := generateHMAC data key in
  timingSafeEqual (Buffer_from_hex hmac) (Buffer_from_hex expectedHmac).

(** [Buffer.from(a)] of a string is its UTF-8 encoding. *)
Definition constantTimeCompare (a b : string) : Res bool :=
  if negb (String.length a =? String.length b)%nat then Ok false
  else timingSafeEqual (utf8_encode a) (utf8_encode b).

End WithCryptoMore.

(** [rnd] is the value of [crypto.randomBytes(32)], of
    [crypto.randomBytes(64)] and of [crypto.randomBytes(16)]. *)
Definition generateNonce (rnd : list byte) : string := toString_hex rnd.
Definition generateSecureToken (rnd : list byte) : string := toString_hex rnd.
Definition generateMessageId (rnd : list byte) : string := toString_hex rnd.

End SecureCrypto.

(** ** SecurityUtils, the part that calls Node's [crypto] *)

Module SecurityUtilsCrypto.
Import SecureCrypto.

Section WithCrypto.
Context `{NodeCrypto}.

Definition validateCSRFToken (token expected : string) : Res bool :=
  timingSafeEqual (utf8_encode token) (utf8_encode expected).

End WithCrypto.

(** [rnd] is the value of [crypto.randomBytes(32)]. *)
Definition generateCSRFToken (rnd : list byte) : string := toString_hex rnd.

End SecurityUtilsCrypto.

(** ** JavaScript containers with observable insertion order *)

Module JSSet.
(** [Set<string>]: the members in insertion order, each once. *)
Definition t : Type := list string.

Definition has (s : t) (x : string) : bool := bool_decide (x ∈ s).

(** [s.add(x)]: a member keeps its place, a new value goes last. *)
Definition add (s : t) (x : string) : t := if has s x then s else s ++ [x].

Definition size (s : t) : nat := List.length s.

(** [Array.from(s)] *)
Definition toArray (s : t) : list string := s.

(** [arr.slice(-n)]: the last [n] elements, all of them when there are
    fewer. *)
Definition slice_last {A : Type} (n : nat) (arr : list A) : list A :=
  drop (List.length arr - n) arr.

(** [new Set(arr)] *)
Definition ofArray (arr : list string) : t := foldl add [] arr.
End JSSet.

Module JSMap.
(** [Map<string, V>]: the entries in insertion order, one per key. *)
Definition t (V : Type) : Type := list (string * V).

Fixpoint get {V : Type} (m : t V) (k : string) : option V :=
  match m with
  | [] => None
  | (k', v) :: rest => if bool_decide (k' = k) then Some v else get rest k
  end.

(** [m.set(k, v)]: an existing key keeps its place. *)
Fixpoint set {V : Type} (m : t V) (k : string) (v : V) : t V :=
  match m with
  | [] => [(k, v)]
  | (k', v') :: rest =>
      if bool_decide (k' = k) then (k, v) :: rest else (k', v') :: set rest k v
  end.

Fixpoint delete {V : Type} (m : t V) (k : string) : t V :=
  match m with
  | [] => []
  | (k', v') :: rest =>
      if bool_decide (k' = k) then rest else (k', v') :: delete rest k
  end.

Definition values {V : Type} (m : t V) : list V := map snd m.
Definition keys {V : Type} (m : t V) : list string := map fst m.
End JSMap.

(** ** JSON values *)

Module JSON.

(** A value that [JSON.stringify] writes and [JSON.parse] reads; the
    fields of an object are listed in the order of its keys. *)
#[local] Unset Elimination Schemes.
Inductive t : Type :=
  | JNull
  | JBool (b : bool)
  | JNumber (n : Z)
  | JString (s : string)
  | JArray (items : list t)
  | JObject (fields : list (string * t)).
#[local] Set Elimination Schemes.

(** [value.key] *)
Definition field (key : string) (value : t) : option t :=
  match value with
  | JObject fields => JSMap.get fields key
  | _ => None
  end.

(** [JSON.stringify] of a value and [JSON.parse] of a text; [None] when
    [JSON.parse] throws. *)
Class JsonLib : Type := {
  JSON_stringify : t -> string;
  JSON_parse : string -> option t
}.

(** The object that [SecureCrypto.encrypt] returns, as a value. *)
Definition of_EncryptedData (blob : EncryptedData.t) : t :=
  JObject [("iv", JString (EncryptedData.iv blob));
           ("data", JString (EncryptedData.data blob));
           ("tag", JString (EncryptedData.tag blob))].

(** A value with text fields [iv], [data] and [tag], read as the typed
    record. *)
Definition to_EncryptedData (value : t) : option EncryptedData.t :=
  match field "iv" value, field "data" value, field "tag" value with
  | Some (JString iv), Some (JString data), Some (JString tag) =>
      Some {| EncryptedData.iv := iv; EncryptedData.data := data;
              EncryptedData.tag := tag |}
  | _, _, _ => None
  end.

(** What Node makes of a parsed array or object where a text is
    expected: [Buffer.from(value, 'hex')], which builds a buffer from an
    array or an array-like object and throws on any other object, and the
    text that [+] joins to a string; [None] when the call throws. *)
Class JsCoercions : Type := {
  Buffer_from_container : t -> option (list byte);
  String_of_container : t -> option string
}.

(** [JSON.parse] reads back what [JSON.stringify] wrote for [value]. *)
Definition reads_back `{JsonLib} (value : t) : Prop :=
  JSON_parse (JSON_stringify value) = Some value.

End JSON.

(** ** LuminaWebProtocol *)

Module LWPMessage.
Record t : Type := mk {
  version : string;
  type : string;
  from : string;
  to : string;
  timestamp : string;
  nonce : string;
  signature : string;
  payload : string
}.
End LWPMessage.

Module ValidationResult.
Record t : Type := mk { isValid : bool; errors : list string }.
End ValidationResult.

Module LuminaWebProtocol.
Import SecurityUtils SecureCrypto.

Definition VERSION : string := "1.0".
Definition MAX_MESSAGE_SIZE : Z := 10 * 1024 * 1024.

(** [errors.push(e)] under a condition *)
Definition push_if (c : bool) (e : string) (errors : list string) : list string :=
  if c then errors ++ [e] else errors.

Section WithLibraries.
Context `{NodeCrypto} `{DateLib}.

(** [timestamp] is [new Date().toISOString()] and [nonce] is
    [SecureCrypto.generateNonce()]; [payloadString] is
    [JSON.stringify(payload)]. *)
Definition createMessage (timestamp nonce : string)
    (type from to payloadString privateKey : string) : LWPMessage.t :=
  let signatureData :=
    VERSION +:+ type +:+ from +:+ to +:+ timestamp +:+ nonce +:+ payloadString in
  let signature := sign signatureData privateKey in
  {| LWPMessage.version := VERSION;
     LWPMessage.type := type;
     LWPMessage.from := from;
     LWPMessage.to := to;
     LWPMessage.timestamp := timestamp;
     LWPMessage.nonce := nonce;
     LWPMessage.signature := signature;
     LWPMessage.payload := payloadString |}.

Definition validateMessage (now : Z) (message : LWPMessage.t) (publicKey : string)
  : ValidationResult.t :=
  let errors : list string := [] in
  let errors :=
    push_if (negb (String.eqb (LWPMessage.version message) VERSION))
      "Invalid protocol version" errors in
  let errors :=
    push_if (negb (bool_decide (LWPMessage.type message
                     ∈ ["auth"; "handshake"; "message"; "ack"; "presence"])))
      "Invalid message type" errors in
  let errors :=
    push_if (negb (validateEmail (LWPMessage.from message)))
      "Invalid sender email" errors in
  let errors :=
    push_if (negb (validateEmail (LWPMessage.to message)))
      "Invalid recipient email" errors in
  let errors :=
    push_if (negb (isValidTimestamp now (LWPMessage.timestamp message)
                     DEFAULT_MAX_AGE_MS))
      "Invalid or expired timestamp" errors in
  let errors :=
    push_if (negb (String.length (LWPMessage.nonce message) =? 64)%nat)
      "Invalid nonce" errors in
  let errors :=
    push_if (MAX_MESSAGE_SIZE <? Z.of_nat (String.length (LWPMessage.payload message)))%Z
      "Message payload too large" errors in
  let signatureData :=
    LWPMessage.version message +:+ LWPMessage.type message
    +:+ LWPMessage.from message +:+ LWPMessage.to message
    +:+ LWPMessage.timestamp message +:+ LWPMessage.nonce message
    +:+ LWPMessage.payload message in
  let errors :=
    push_if (negb (verify signatureData (LWPMessage.signature message) publicKey))
      "Invalid message signature" errors in
  {| ValidationResult.isValid := (List.length errors =? 0)%nat;
     ValidationResult.errors := errors |}.

Definition validateMessageIntegrity (now : Z) (message : LWPMessage.t)
    (expectedFrom expectedTo : string) : bool :=
  String.eqb (LWPMessage.from message) expectedFrom
  && String.eqb (LWPMessage.to message) expectedTo
  && isValidTimestamp now (LWPMessage.timestamp message) DEFAULT_MAX_AGE_MS.

End WithLibraries.

(** [isReplayAttack(nonce, usedNonces)]: the answer and the set as the
    call leaves it. *)
Definition isReplayAttack (nonce : string) (usedNonces : JSSet.t) : bool * JSSet.t :=
  if JSSet.has usedNonces nonce then (true, usedNonces)
  else (false, JSSet.add usedNonces nonce).

Section WithJson.
Import JSON.
Context `{NodeCrypto} `{JsonLib} `{JsCoercions}.

(** [parsePayload]: [None] when it throws 'Invalid payload format'. *)
Definition parsePayload (message : LWPMessage.t) : option JSON.t :=
  JSON_parse (LWPMessage.payload message).

Definition createHandshakeMessage (timestamp nonce : string)
    (from to ephemeralPublicKey challenge privateKey : string) : LWPMessage.t :=
  let payload :=
    JObject [("publicKey", JString ephemeralPublicKey);
             ("ephemeralKey", JString ephemeralPublicKey);
             ("challenge", JString challenge)] in
  createMessage timestamp nonce "handshake" from to (JSON_stringify payload) privateKey.

(** [iv] is the vector that [encrypt] draws; the result is [Throw] when
    [encrypt] throws. *)
Definition createSecureMessage (timestamp nonce : string) (iv : list byte)
    (from to : string) (messagePayload : JSON.t) (sharedKey : list byte)
    (privateKey : string) : Res LWPMessage.t :=
  encryptedPayload ← encrypt (JSON_stringify messagePayload) sharedKey iv;
  Ok (createMessage timestamp nonce "message" from to
        (JSON_stringify (of_EncryptedData encryptedPayload)) privateKey).

(** [Buffer.from(value, 'hex')] for a field of the parsed payload: it
    throws on a missing field, [null], a truth value and a number. *)
Definition Buffer_from_field (value : option JSON.t) : option (list byte) :=
  match value with
  | Some (JString text) => Some (Buffer_from_hex text)
  | Some (JArray items) => Buffer_from_container (JArray items)
  | Some (JObject fields) => Buffer_from_container (JObject fields)
  | Some JNull | Some (JBool _) | Some (JNumber _) | None => None
  end.

(** The text of a field that [Buffer.from] accepted, as [+] joins it to
    a string. *)
Definition String_of_field (value : option JSON.t) : option string :=
  match value with
  | Some (JString text) => Some text
  | Some (JArray items) => String_of_container (JArray items)
  | Some (JObject fields) => String_of_container (JObject fields)
  | Some JNull | Some (JBool _) | Some (JNumber _) | None => None
  end.

(** [SecureCrypto.decrypt] on a parsed payload that is no record of three
    texts, step by step as on a typed one; [None] when it throws.
    [decipher.update] refuses a [data] that is no text. *)
Definition decrypt_untyped (parsed : JSON.t) (key : list byte) : option string :=
  iv ← Buffer_from_field (field "iv" parsed);
  ivText ← String_of_field (field "iv" parsed);
  match field "data" parsed with
  | Some (JString data) =>
      let expectedTag := toString_hex (hmac_sha256 key (data +:+ ivText)) in
      tag ← Buffer_from_field (field "tag" parsed);
      match timingSafeEqual tag (Buffer_from_hex expectedTag) with
      | Ok true =>
          match createCipheriv key iv with
          | Ok _ =>
              match aes256cbc_decrypt key iv (Buffer_from_hex data) with
              | Ok decrypted => Some (utf8_decode decrypted)
              | Throw _ => None
              end
          | Throw _ => None
          end
      | Ok false | Throw _ => None
      end
  | _ => None
  end.

(** What [decryptMessage] does with an envelope.  Whatever is thrown
    inside its [try] comes out as 'Failed to decrypt message'. *)
Inductive DecryptOutcome : Type :=
  | Decrypted (messagePayload : JSON.t)
  | FailedToDecrypt.           (* throws Error('Failed to decrypt message') *)

Definition decryptMessage (message : LWPMessage.t) (sharedKey : list byte)
  : DecryptOutcome :=
  match parsePayload message with
  | None => FailedToDecrypt
  | Some parsed =>
      let decrypted :=
        match to_EncryptedData parsed with
        | Some encryptedData =>
            match decrypt encryptedData sharedKey with
            | Ok decryptedPayload => Some decryptedPayload
            | Throw _ => None
            end
        | None => decrypt_untyped parsed sharedKey
        end in
      match decrypted with
      | None => FailedToDecrypt
      | Some decryptedPayload =>
          match JSON_parse decryptedPayload with
          | Some messagePayload => Decrypted messagePayload
          | None => FailedToDecrypt
          end
      end
  end.

Definition createAckMessage (timestamp nonce : string)
    (from to originalMessageId privateKey : string) : LWPMessage.t :=
  let payload :=
    JObject [("messageId", JString originalMessageId);
             ("status", JString "received")] in
  createMessage timestamp nonce "ack" from to (JSON_stringify payload) privateKey.

(** [lastSeen] is [new Date().toISOString()], taken just before the
    [timestamp] of the envelope. *)
Definition createPresenceMessage (timestamp nonce lastSeen : string)
    (from status privateKey : string) : LWPMessage.t :=
  let payload :=
    JObject [("status", JString status); ("lastSeen", JString lastSeen)] in
  createMessage timestamp nonce "presence" from "broadcast" (JSON_stringify payload)
    privateKey.

End WithJson.

(** The answers of [isReplayAttack] to a sequence of nonces presented one
    after the other to the same set, and the set at the end. *)
Fixpoint isReplayAttack_each (nonces : list string) (usedNonces : JSSet.t)
  : list bool * JSSet.t :=
  match nonces with
  | [] => ([], usedNonces)
  | nonce :: rest =>
      let '(answer, usedNonces) := isReplayAttack nonce usedNonces in
      let '(answers, usedNonces) := isReplayAttack_each rest usedNonces in
      (answer :: answers, usedNonces)
  end.

End LuminaWebProtocol.

(** ** SecureStorage *)

Module StoredUser.
Record t : Type := mk {
  id : string;
  email : string;
  passwordHash : string;
  publicKey : string;
  encryptedPrivateKey : EncryptedData.t;
  createdAt : string;
  lastSeen : string;
  isOnline : bool;
  emailVerified : bool
}.
End StoredUser.

(** A session record as [register], [login] and [refreshToken] build it
    and [storeSession] stamps it. *)
Module AuthSession.
Record t : Type := mk {
  userId : string;
  email : string;
  publicKey : string;
  sessionId : string;
  createdAt : Z;
  expiresAt : Z
}.
End AuthSession.

(** The argument of [storeUser]. *)
Module NewUser.
Record t : Type := mk {
  email : string;
  passwordHash : string;
  publicKey : string;
  privateKey : string;
  password : string
}.
End NewUser.

(** [attachments] is any value the caller sent, [None] when the field is
    absent. *)
Module MessagePayload.
Record t : Type := mk {
  subject : string;
  body : string;
  attachments : option JSON.t;
  replyTo : option string;
  threadId : option string
}.
End MessagePayload.

Module StoredMessage.
Record t : Type := mk {
  id : string;
  from : string;
  to : string;
  encryptedSubject : EncryptedData.t;
  encryptedBody : EncryptedData.t;
  encryptedAttachments : option EncryptedData.t;
  timestamp : string;
  isRead : bool;
  threadId : option string;
  replyTo : option string
}.

Definition set_isRead (message : t) (b : bool) : t :=
  {| id := id message; from := from message; to := to message;
     encryptedSubject := encryptedSubject message;
     encryptedBody := encryptedBody message;
     encryptedAttachments := encryptedAttachments message;
     timestamp := timestamp message; isRead := b;
     threadId := threadId message; replyTo := replyTo message |}.
End StoredMessage.

(** One row of the [messages] array that [getInbox] returns. *)
Module InboxEntry.
Record t : Type := mk {
  id : string;
  from : string;
  to : string;
  subject : string;
  body : string;
  timestamp : string;
  isRead : bool;
  threadId : option string;
  attachments : option JSON.t
}.
End InboxEntry.

Module Inbox.
Record t : Type := mk {
  messages : list InboxEntry.t;
  totalCount : nat;
  unreadCount : nat
}.
End Inbox.

Module SecureStorage.

(** The static fields of the class that the session and replay code
    uses. *)
Record t : Type := mk {
  users : JSMap.t StoredUser.t;
  sessions : gmap string AuthSession.t;
  usedNonces : JSSet.t
}.

Definition empty : t := {| users := []; sessions := ∅; usedNonces := [] |}.

Definition with_users (st : t) (u : JSMap.t StoredUser.t) : t :=
  {| users := u; sessions := sessions st; usedNonces := usedNonces st |}.
Definition with_sessions (st : t) (m : gmap string AuthSession.t) : t :=
  {| users := users st; sessions := m; usedNonces := usedNonces st |}.
Definition with_usedNonces (st : t) (n : JSSet.t) : t :=
  {| users := users st; sessions := sessions st; usedNonces := n |}.

(** [getUserByEmail]: the first user, in insertion order, with the
    address. *)
Definition getUserByEmail (st : t) (email : string) : option StoredUser.t :=
  List.find (fun user => String.eqb (StoredUser.email user) email)
            (JSMap.values (users st)).

Definition getUserById (st : t) (userId : string) : option StoredUser.t :=
  JSMap.get (users st) userId.

(** [user.isOnline = isOnline; user.lastSeen = nowIso] *)
Definition touch (user : StoredUser.t) (nowIso : string) (isOnline : bool)
  : StoredUser.t :=
  {| StoredUser.id := StoredUser.id user;
     StoredUser.email := StoredUser.email user;
     StoredUser.passwordHash := StoredUser.passwordHash user;
     StoredUser.publicKey := StoredUser.publicKey user;
     StoredUser.encryptedPrivateKey := StoredUser.encryptedPrivateKey user;
     StoredUser.createdAt := StoredUser.createdAt user;
     StoredUser.lastSeen := nowIso;
     StoredUser.isOnline := isOnline;
     StoredUser.emailVerified := StoredUser.emailVerified user |}.

(** [nowIso] is [new Date().toISOString()]. *)
Definition updateUserPresence (st : t) (nowIso : string) (userId : string)
    (isOnline : bool) : bool * t :=
  match JSMap.get (users st) userId with
  | None => (false, st)
  | Some user =>
      (true, with_users st (JSMap.set (users st) userId (touch user nowIso isOnline)))
  end.

(** [storeSession]: the spread of [sessionData] with [createdAt]
    overwritten by [Date.now()]. *)
Definition storeSession (st : t) (now : Z) (sessionId : string)
    (sessionData : AuthSession.t) : t :=
  with_sessions st
    (<[sessionId :=
         {| AuthSession.userId := AuthSession.userId sessionData;
            AuthSession.email := AuthSession.email sessionData;
            AuthSession.publicKey := AuthSession.publicKey sessionData;
            AuthSession.sessionId := AuthSession.sessionId sessionData;
            AuthSession.createdAt := now;
            AuthSession.expiresAt := AuthSession.expiresAt sessionData |}]>
       (sessions st)).

Definition getSession (st : t) (sessionId : string) : option AuthSession.t :=
  sessions st !! sessionId.

Definition deleteSession (st : t) (sessionId : string) : bool * t :=
  (bool_decide (is_Some (sessions st !! sessionId)),
   with_sessions st (delete sessionId (sessions st))).

Definition NONCE_LIMIT : Z := 10000.
Definition NONCE_KEEP : Z := 5000.

(** The nonce set alone, as [addUsedNonce] transforms it. *)
Definition addUsedNonce_set (used : JSSet.t) (nonce : string) : JSSet.t :=
  let used := JSSet.add used nonce in
  if (NONCE_LIMIT <? Z.of_nat (JSSet.size used))%Z then
    let noncesArray := JSSet.toArray used in
    JSSet.ofArray (JSSet.slice_last (Z.to_nat NONCE_KEEP) noncesArray)
  else used.

(** What every nonce set reached from the empty one satisfies. *)
Definition nonce_set_ok (used : JSSet.t) : Prop :=
  NoDup used /\ Z.of_nat (JSSet.size used) <= NONCE_LIMIT.

Definition addUsedNonce (st : t) (nonce : string) : t :=
  with_usedNonces st (addUsedNonce_set (usedNonces st) nonce).

Definition isNonceUsed (st : t) (nonce : string) : bool :=
  JSSet.has (usedNonces st) nonce.

Definition ONE_HOUR_MS : Z := 60 * 60 * 1000.

(** [cleanup]: the loop deletes the entries whose [createdAt] lies before
    [oneHourAgo]; the others stay. *)
Definition cleanup (st : t) (now : Z) : t :=
  let oneHourAgo := now - ONE_HOUR_MS in
  with_sessions st
    (filter (fun entry => ¬ (AuthSession.createdAt (snd entry) < oneHourAgo))
            (sessions st)).


(** *** Users *)

(** [user?.publicKey || null]: an empty key counts as none. *)
Definition getUserPublicKey (st : t) (email : string) : option string :=
  match getUserByEmail st email with
  | Some user =>
      if String.eqb (StoredUser.publicKey user) EmptyString then None
      else Some (StoredUser.publicKey user)
  | None => None
  end.

Section WithPasswordCrypto.
Context `{SecureCrypto.NodeCrypto} `{SecureCrypto.NodeScrypt}.

(** [idBytes], [salt] and [iv] are the values of [crypto.randomBytes(16)]
    behind [generateMessageId] and [encryptWithPassword]; [createdAt] and
    [lastSeen] are the two readings of [new Date().toISOString()].  The
    user is stored only when the private key could be encrypted. *)
Definition storeUser (st : t) (createdAt lastSeen : string)
    (idBytes salt iv : list byte) (user : NewUser.t) : Res (string * t) :=
  let userId := SecureCrypto.generateMessageId idBytes in
  encryptedPrivateKey ←
    SecureCrypto.encryptWithPassword (NewUser.privateKey user) (NewUser.password user)
                                     salt iv;
  let storedUser :=
    {| StoredUser.id := userId;
       StoredUser.email := NewUser.email user;
       StoredUser.passwordHash := NewUser.passwordHash user;
       StoredUser.publicKey := NewUser.publicKey user;
       StoredUser.encryptedPrivateKey := encryptedPrivateKey;
       StoredUser.createdAt := createdAt;
       StoredUser.lastSeen := lastSeen;
       StoredUser.isOnline := false;
       StoredUser.emailVerified := false |} in
  Ok (userId, with_users st (JSMap.set (users st) userId storedUser)).

End WithPasswordCrypto.

(** *** Messages *)

(** The static fields of the class that the message code uses;
    [initialize] fills [storageKey]. *)
Record mail : Type := mkMail {
  storageKey : list byte;
  messages : JSMap.t StoredMessage.t
}.

Definition initialize (box : mail) (encryptionKey : string) : mail :=
  {| storageKey := SecureCrypto.Buffer_from_hex encryptionKey;
     messages := messages box |}.

Definition with_messages (box : mail) (m : JSMap.t StoredMessage.t) : mail :=
  {| storageKey := storageKey box; messages := m |}.

(** The truth value of a value in a condition. *)
Definition truthy (value : JSON.t) : bool :=
  match value with
  | JSON.JNull => false
  | JSON.JBool b => b
  | JSON.JNumber n => negb (n =? 0)%Z
  | JSON.JString s => negb (String.eqb s EmptyString)
  | JSON.JArray _ | JSON.JObject _ => true
  end.

(** The attachments that [storeMessage] keeps: a value that counts as
    false is not stored. *)
Definition stored_attachments (attachments : option JSON.t) : option JSON.t :=
  match attachments with
  | Some value => if truthy value then Some value else None
  | None => None
  end.

(** What a [try] block leaves of a computation that may throw. *)
Definition caught {A : Type} (r : Res A) : option A :=
  match r with Ok a => Some a | Throw _ => None end.

(** [text || '[Encrypted]'] for a text that may be missing. *)
Definition or_encrypted (text : option string) : string :=
  match text with
  | Some s => if String.eqb s EmptyString then "[Encrypted]" else s
  | None => "[Encrypted]"
  end.

(** [arr.slice(0, limit)] for an integer [limit]: a negative one counts
    from the end. *)
Definition slice_to {A : Type} (limit : Z) (arr : list A) : list A :=
  if (limit <? 0)%Z
  then take (Z.to_nat (Z.max (Z.of_nat (List.length arr) + limit) 0)) arr
  else take (Z.to_nat limit) arr.

(** [arr.sort(compare)]; the comparator answers [None] for NaN. *)
Class ArraySort : Type := {
  Array_sort : forall A : Type, (A -> A -> option Z) -> list A -> list A
}.
#[global] Arguments Array_sort {_ _} _ _.

Section WithMessageCrypto.
Context `{SecureCrypto.NodeCrypto} `{JSON.JsonLib}.

(** [idBytes] is the value of [crypto.randomBytes(16)] behind
    [generateMessageId]; [ivSubject], [ivBody] and [ivAttachments] are
    those behind the calls of [encrypt], the last one drawn only when
    there are attachments.  A throwing [encrypt] rejects the promise
    before [messages] is changed. *)
Definition storeMessage (box : mail) (nowIso : string)
    (idBytes ivSubject ivBody ivAttachments : list byte)
    (from to : string) (messagePayload : MessagePayload.t) : Res (string * mail) :=
  let messageId := SecureCrypto.generateMessageId idBytes in
  encryptedSubject ←
    SecureCrypto.encrypt (MessagePayload.subject messagePayload) (storageKey box) ivSubject;
  encryptedBody ←
    SecureCrypto.encrypt (MessagePayload.body messagePayload) (storageKey box) ivBody;
  encryptedAttachments ←
    match MessagePayload.attachments messagePayload with
    | Some attachments =>
        if truthy attachments then
          blob ← SecureCrypto.encrypt (JSON.JSON_stringify attachments)
                                      (storageKey box) ivAttachments;
          Ok (Some blob)
        else Ok None
    | None => Ok None
    end;
  let storedMessage :=
    {| StoredMessage.id := messageId;
       StoredMessage.from := from;
       StoredMessage.to := to;
       StoredMessage.encryptedSubject := encryptedSubject;
       StoredMessage.encryptedBody := encryptedBody;
       StoredMessage.encryptedAttachments := encryptedAttachments;
       StoredMessage.timestamp := nowIso;
       StoredMessage.isRead := false;
       StoredMessage.threadId := MessagePayload.threadId messagePayload;
       StoredMessage.replyTo := MessagePayload.replyTo messagePayload |} in
  Ok (messageId, with_messages box (JSMap.set (messages box) messageId storedMessage)).

(** The body of the [try] of [getMessage]. *)
Definition openMessage (key : list byte) (storedMessage : StoredMessage.t)
  : option MessagePayload.t :=
  subject ← caught (SecureCrypto.decrypt (StoredMessage.encryptedSubject storedMessage) key);
  body ← caught (SecureCrypto.decrypt (StoredMessage.encryptedBody storedMessage) key);
  attachments ←
    match StoredMessage.encryptedAttachments storedMessage with
    | Some blob =>
        attachmentsJson ← caught (SecureCrypto.decrypt blob key);
        parsed ← JSON.JSON_parse attachmentsJson;
        Some (Some parsed)
    | None => Some None
    end;
  Some {| MessagePayload.subject := subject;
          MessagePayload.body := body;
          MessagePayload.attachments := attachments;
          MessagePayload.replyTo := StoredMessage.replyTo storedMessage;
          MessagePayload.threadId := StoredMessage.threadId storedMessage |}.

Definition getMessage (box : mail) (messageId : string) : option MessagePayload.t :=
  match JSMap.get (messages box) messageId with
  | None => None
  | Some storedMessage => openMessage (storageKey box) storedMessage
  end.

Context `{SecurityUtils.DateLib} `{ArraySort}.

(** [new Date(b.timestamp).getTime() - new Date(a.timestamp).getTime()] *)
Definition newest_first (a b : StoredMessage.t) : option Z :=
  match SecurityUtils.Date_parse (StoredMessage.timestamp b),
        SecurityUtils.Date_parse (StoredMessage.timestamp a) with
  | Some tb, Some ta => Some (tb - ta)%Z
  | _, _ => None
  end.

Definition addressed_to (userEmail : string) (msg : StoredMessage.t) : bool :=
  String.eqb (StoredMessage.to msg) userEmail.

(** [limit] is 50 when the caller gives none. *)
Definition getInbox (box : mail) (userEmail : string) (limit : Z) : Inbox.t :=
  let userMessages :=
    slice_to limit
      (Array_sort newest_first
         (List.filter (addressed_to userEmail) (JSMap.values (messages box)))) in
  let totalCount :=
    List.length (List.filter (addressed_to userEmail) (JSMap.values (messages box))) in
  let unreadCount :=
    List.length
      (List.filter (fun msg => addressed_to userEmail msg && negb (StoredMessage.isRead msg))
                   (JSMap.values (messages box))) in
  let decryptedMessages :=
    List.map
      (fun msg =>
         let messagePayload := getMessage box (StoredMessage.id msg) in
         {| InboxEntry.id := StoredMessage.id msg;
            InboxEntry.from := StoredMessage.from msg;
            InboxEntry.to := StoredMessage.to msg;
            InboxEntry.subject := or_encrypted (MessagePayload.subject <$> messagePayload);
            InboxEntry.body := or_encrypted (MessagePayload.body <$> messagePayload);
            InboxEntry.timestamp := StoredMessage.timestamp msg;
            InboxEntry.isRead := StoredMessage.isRead msg;
            InboxEntry.threadId := StoredMessage.threadId msg;
            InboxEntry.attachments := messagePayload ≫= MessagePayload.attachments |})
      userMessages in
  {| Inbox.messages := decryptedMessages;
     Inbox.totalCount := totalCount;
     Inbox.unreadCount := unreadCount |}.

End WithMessageCrypto.

Definition markAsRead (box : mail) (messageId : string) : bool * mail :=
  match JSMap.get (messages box) messageId with
  | None => (false, box)
  | Some message =>
      (true,
       with_messages box
         (JSMap.set (messages box) messageId (StoredMessage.set_isRead message true)))
  end.

Definition deleteMessage (box : mail) (messageId : string) : bool * mail :=
  (bool_decide (is_Some (JSMap.get (messages box) messageId)),
   with_messages box (JSMap.delete (messages box) messageId)).

End SecureStorage.

(** ** AuthService *)

Module JWTPayload.
Record t : Type := mk {
  userId : string;
  email : string;
  iat : Z;
  exp : Z;
  jti : string
}.
End JWTPayload.

Module Tokens.
Record t : Type := mk { accessToken : string; refreshToken : string }.
End Tokens.

Module PublicUser.
(** The [user] object of a login answer. *)
Record t : Type := mk {
  id : string;
  email : string;
  publicKey : string;
  lastSeen : string
}.
End PublicUser.

Module LoginResult.
Record t : Type := mk {
  success : bool;
  message : string;
  user : option PublicUser.t;
  tokens : option Tokens.t;
  encryptedPrivateKey : option string
}.
End LoginResult.

Module VerifyResult.
Record t : Type := mk {
  valid : bool;
  payload : option JWTPayload.t;
  message : option string
}.
End VerifyResult.

Module RefreshResult.
Record t : Type := mk {
  success : bool;
  tokens : option Tokens.t;
  message : option string
}.
End RefreshResult.

Module RegisteredUser.
Record t : Type := mk { id : string; email : string; publicKey : string }.
End RegisteredUser.

Module RegisterResult.
Record t : Type := mk {
  success : bool;
  message : string;
  user : option RegisteredUser.t;
  tokens : option Tokens.t
}.
End RegisterResult.

(** The random bytes one call of [register] draws, in the order of the
    calls: the key pair, the bcrypt salt, [generateMessageId], the salt and
    the vector of [encryptWithPassword], [generateSecureToken]. *)
Module RegisterRandom.
Record t : Type := mk {
  keyEntropy : list byte;
  bcryptSalt : list byte;
  userIdBytes : list byte;
  keySalt : list byte;
  keyIv : list byte;
  jtiBytes : list byte
}.
End RegisterRandom.

Module AuthService.
Import SecureCrypto.

(** [jsonwebtoken]: [jwt_sign] builds a token for the claims [userId],
    [email], [jti] with a life time; [jwt_verify] gives the decoded
    payload or throws (bad signature, malformed or expired token). *)
Class JwtLib : Type := {
  jwt_sign : string -> string -> string -> string -> string -> Z -> string;
  jwt_verify : string -> string -> Z -> option JWTPayload.t
}.

(** [bcryptjs] *)
Class BcryptLib : Type := {
  bcrypt_hash : string -> nat -> list byte -> string;
  bcrypt_compare : string -> string -> bool
}.

(** The clock of one call: [Date.now()] and [new Date().toISOString()]. *)
Record Clock : Type := mkClock { now : Z; nowIso : string }.

Definition ACCESS_TOKEN_EXPIRY : string := "15m".
Definition REFRESH_TOKEN_EXPIRY : string := "7d".
Definition SEVEN_DAYS_MS : Z := 7 * 24 * 60 * 60 * 1000.

Section WithLibraries.
Context `{JwtLib} `{BcryptLib}.
(** [process.env.BETTER_AUTH_SECRET || 'secure-secret-key'] *)
Variable JWT_SECRET : string.

(** [rnd] is the value of [crypto.randomBytes(64)] behind
    [generateSecureToken]. *)
Definition generateTokens (clk : Clock) (rnd : list byte) (userId email : string)
  : Tokens.t * string :=
  let jti := toString_hex rnd in
  let accessToken :=
    jwt_sign userId email jti JWT_SECRET ACCESS_TOKEN_EXPIRY (now clk) in
  let refreshToken :=
    jwt_sign userId email jti JWT_SECRET REFRESH_TOKEN_EXPIRY (now clk) in
  ({| Tokens.accessToken := accessToken; Tokens.refreshToken := refreshToken |},
   jti).

Definition loginFailure (message : string) : LoginResult.t :=
  {| LoginResult.success := false;
     LoginResult.message := message;
     LoginResult.user := None;
     LoginResult.tokens := None;
     LoginResult.encryptedPrivateKey := None |}.

(** [JSON.stringify(user.encryptedPrivateKey)] is left to the caller of
    the model as [stringify]. *)
Definition login (stringify : EncryptedData.t -> string)
    (st : SecureStorage.t) (clk : Clock) (rnd : list byte)
    (email password : string) : LoginResult.t * SecureStorage.t :=
  match SecureStorage.getUserByEmail st email with
  | None => (loginFailure "Invalid credentials", st)
  | Some user =>
      let isValidPassword :=
        bcrypt_compare password (StoredUser.passwordHash user) in
      if negb isValidPassword then (loginFailure "Invalid credentials", st)
      else
        let '(found, st) :=
          SecureStorage.updateUserPresence st (nowIso clk) (StoredUser.id user) true in
        (* [storeUser] files every user under its own [id], so the object
           that [updateUserPresence] mutates is the one held here *)
        let user := if found then SecureStorage.touch user (nowIso clk) true else user in
        let '(tokens, jti) := generateTokens clk rnd (StoredUser.id user) email in
        let st :=
          SecureStorage.storeSession st (now clk) jti
            {| AuthSession.userId := StoredUser.id user;
               AuthSession.email := email;
               AuthSession.publicKey := StoredUser.publicKey user;
               AuthSession.sessionId := jti;
               AuthSession.createdAt := now clk;
               AuthSession.expiresAt := now clk + SEVEN_DAYS_MS |} in
        ({| LoginResult.success := true;
            LoginResult.message := "Login successful";
            LoginResult.user :=
              Some {| PublicUser.id := StoredUser.id user;
                      PublicUser.email := StoredUser.email user;
                      PublicUser.publicKey := StoredUser.publicKey user;
                      PublicUser.lastSeen := StoredUser.lastSeen user |};
            LoginResult.tokens := Some tokens;
            LoginResult.encryptedPrivateKey :=
              Some (stringify (StoredUser.encryptedPrivateKey user)) |},
         st)
  end.

Definition verifyToken (st : SecureStorage.t) (clk : Clock) (token : string)
  : VerifyResult.t :=
  match jwt_verify token JWT_SECRET (now clk) with
  | None =>
      {| VerifyResult.valid := false; VerifyResult.payload := None;
         VerifyResult.message := Some "Invalid token" |}
  | Some decoded =>
      match SecureStorage.getSession st (JWTPayload.jti decoded) with
      | None =>
          {| VerifyResult.valid := false; VerifyResult.payload := None;
             VerifyResult.message := Some "Session expired" |}
      | Some session =>
          if (AuthSession.expiresAt session <? now clk)%Z then
            {| VerifyResult.valid := false; VerifyResult.payload := None;
               VerifyResult.message := Some "Session expired" |}
          else
            {| VerifyResult.valid := true; VerifyResult.payload := Some decoded;
               VerifyResult.message := None |}
      end
  end.

Definition refreshFailure (message : string) : RefreshResult.t :=
  {| RefreshResult.success := false; RefreshResult.tokens := None;
     RefreshResult.message := Some message |}.

Definition refreshToken (st : SecureStorage.t) (clk : Clock) (rnd : list byte)
    (refreshToken : string) : RefreshResult.t * SecureStorage.t :=
  match jwt_verify refreshToken JWT_SECRET (now clk) with
  | None => (refreshFailure "Token refresh failed", st)
  | Some decoded =>
      match SecureStorage.getSession st (JWTPayload.jti decoded) with
      | None => (refreshFailure "Session expired", st)
      | Some session =>
          if (AuthSession.expiresAt session <? now clk)%Z then
            (refreshFailure "Session expired", st)
          else
            let '(newTokens, jti) :=
              generateTokens clk rnd (JWTPayload.userId decoded)
                             (JWTPayload.email decoded) in
            let st :=
              SecureStorage.storeSession st (now clk) jti
                {| AuthSession.userId := AuthSession.userId session;
                   AuthSession.email := AuthSession.email session;
                   AuthSession.publicKey := AuthSession.publicKey session;
                   AuthSession.sessionId := jti;
                   AuthSession.createdAt := AuthSession.createdAt session;
                   AuthSession.expiresAt := now clk + SEVEN_DAYS_MS |} in
            ({| RefreshResult.success := true;
                RefreshResult.tokens := Some newTokens;
                RefreshResult.message := None |}, st)
      end
  end.

Definition logout (st : SecureStorage.t) (sessionId : string)
  : bool * SecureStorage.t :=
  (true, snd (SecureStorage.deleteSession st sessionId)).

End WithLibraries.


Section WithAllLibraries.
Context `{NodeCrypto} `{NodeScrypt} `{JwtLib} `{BcryptLib}.
Variable JWT_SECRET : string.

Definition SALT_ROUNDS : nat := 12.

(** [SecureCrypto.hashPassword] and [SecureCrypto.verifyPassword]; [salt]
    is the salt that [bcrypt.hash] draws. *)
Definition hashPassword (password : string) (salt : list byte) : string :=
  bcrypt_hash password SALT_ROUNDS salt.

Definition verifyPassword (password hash : string) : bool :=
  bcrypt_compare password hash.

Definition registerFailure (message : string) : RegisterResult.t :=
  {| RegisterResult.success := false;
     RegisterResult.message := message;
     RegisterResult.user := None;
     RegisterResult.tokens := None |}.

(** A throwing [storeUser] is caught and reported as 'Registration
    failed'. *)
Definition register (st : SecureStorage.t) (clk : Clock) (rnd : RegisterRandom.t)
    (email password : string) : RegisterResult.t * SecureStorage.t :=
  if negb (SecurityUtils.validateEmail email)
  then (registerFailure "Invalid email format", st)
  else
    let passwordValidation := SecurityUtils.validatePassword password in
    if negb (fst passwordValidation)
    then (registerFailure (Stdlib.Strings.String.concat ", " (snd passwordValidation)), st)
    else
      match SecureStorage.getUserByEmail st email with
      | Some existingUser => (registerFailure "User already exists", st)
      | None =>
          let keyPair := generateKeyPair (RegisterRandom.keyEntropy rnd) in
          let passwordHash := hashPassword password (RegisterRandom.bcryptSalt rnd) in
          match SecureStorage.storeUser st (nowIso clk) (nowIso clk)
                  (RegisterRandom.userIdBytes rnd) (RegisterRandom.keySalt rnd)
                  (RegisterRandom.keyIv rnd)
                  {| NewUser.email := email;
                     NewUser.passwordHash := passwordHash;
                     NewUser.publicKey := KeyPair.publicKey keyPair;
                     NewUser.privateKey := KeyPair.privateKey keyPair;
                     NewUser.password := password |} with
          | Throw _ => (registerFailure "Registration failed", st)
          | Ok (userId, st) =>
              let '(tokens, jti) :=
                generateTokens JWT_SECRET clk (RegisterRandom.jtiBytes rnd) userId email in
              let st :=
                SecureStorage.storeSession st (now clk) jti
                  {| AuthSession.userId := userId;
                     AuthSession.email := email;
                     AuthSession.publicKey := KeyPair.publicKey keyPair;
                     AuthSession.sessionId := jti;
                     AuthSession.createdAt := now clk;
                     AuthSession.expiresAt := now clk + SEVEN_DAYS_MS |} in
              ({| RegisterResult.success := true;
                  RegisterResult.message := "User registered successfully";
                  RegisterResult.user :=
                    Some {| RegisteredUser.id := userId;
                            RegisteredUser.email := email;
                            RegisteredUser.publicKey := KeyPair.publicKey keyPair |};
                  RegisterResult.tokens := Some tokens |},
               st)
          end
      end.

(** An expired session is deleted on the way out. *)
Definition validateSession (st : SecureStorage.t) (clk : Clock) (sessionId : string)
  : option AuthSession.t * SecureStorage.t :=
  match SecureStorage.getSession st sessionId with
  | None => (None, st)
  | Some session =>
      if (AuthSession.expiresAt session <? now clk)%Z
      then (None, snd (SecureStorage.deleteSession st sessionId))
      else (Some session, st)
  end.

Definition set_passwordHash (user : StoredUser.t) (hash : string) : StoredUser.t :=
  {| StoredUser.id := StoredUser.id user;
     StoredUser.email := StoredUser.email user;
     StoredUser.passwordHash := hash;
     StoredUser.publicKey := StoredUser.publicKey user;
     StoredUser.encryptedPrivateKey := StoredUser.encryptedPrivateKey user;
     StoredUser.createdAt := StoredUser.createdAt user;
     StoredUser.lastSeen := StoredUser.lastSeen user;
     StoredUser.isOnline := StoredUser.isOnline user;
     StoredUser.emailVerified := StoredUser.emailVerified user |}.

(** [user.passwordHash = newPasswordHash] writes to the object that
    [users] holds under [userId]. *)
Definition changePassword (st : SecureStorage.t) (salt : list byte)
    (userId oldPassword newPassword : string) : (bool * string) * SecureStorage.t :=
  match SecureStorage.getUserById st userId with
  | None => ((false, "User not found"), st)
  | Some user =>
      let isValidOldPassword := verifyPassword oldPassword (StoredUser.passwordHash user) in
      if negb isValidOldPassword then ((false, "Current password is incorrect"), st)
      else
        let passwordValidation := SecurityUtils.validatePassword newPassword in
        if negb (fst passwordValidation)
        then ((false, Stdlib.Strings.String.concat ", " (snd passwordValidation)), st)
        else
          let newPasswordHash := hashPassword newPassword salt in
          ((true, "Password changed successfully"),
           SecureStorage.with_users st
             (JSMap.set (SecureStorage.users st) userId
                        (set_passwordHash user newPasswordHash)))
  end.

End WithAllLibraries.

End AuthService.

(** ** WebSocketManager *)

Module ExtendedWebSocket.
Inductive ReadyState : Type := CONNECTING | OPEN | CLOSING | CLOSED.

#[global] Instance ReadyState_eq_dec : EqDecision ReadyState.
Proof. solve_decision. Defined.

Record t : Type := mk {
  userId : option string;
  email : option string;
  isAlive : bool;
  readyState : ReadyState
}.

Definition set_isAlive (ws : t) (b : bool) : t :=
  {| userId := userId ws; email := email ws; isAlive := b;
     readyState := readyState ws |}.
End ExtendedWebSocket.

Module WebSocketMessage.
Record t : Type := mk { type : string; data : string; timestamp : string }.
End WebSocketMessage.

Module WebSocketManager.
Import ExtendedWebSocket.

(** What the manager does to a socket; the socket is named by the key
    under which [clients] holds it. *)
Inductive Action : Type :=
  | Terminate (userId : string)                        (* client.terminate() *)
  | Ping (userId : string)                             (* client.ping() *)
  | Send (userId : string) (frame : WebSocketMessage.t). (* ws.send(JSON...) *)

(** The [clients] map and the actions performed so far, oldest first. *)
Record t : Type := mk {
  clients : JSMap.t ExtendedWebSocket.t;
  performed : list Action
}.

(** [sendMessage]: only an open socket is written to. *)
Definition sendMessage (userId : string) (ws : ExtendedWebSocket.t)
    (message : WebSocketMessage.t) : list Action :=
  if bool_decide (readyState ws = OPEN) then [Send userId message] else [].

(** [notifyNewMessage]: the first client, in insertion order, whose
    [email] is the recipient's. *)
Definition notifyNewMessage (clients : JSMap.t ExtendedWebSocket.t)
    (nowIso recipientEmail messageData : string) : list Action :=
  match List.find (fun entry => bool_decide (email (snd entry) = Some recipientEmail))
                  clients with
  | Some (userId, recipient) =>
      sendMessage userId recipient
        {| WebSocketMessage.type := "message";
           WebSocketMessage.data := messageData;
           WebSocketMessage.timestamp := nowIso |}
  | None => []
  end.

(** One run of the interval callback of [startHeartbeat]: [forEach]
    visits the entries in insertion order; a socket that is not alive is
    terminated and its entry deleted, every other one has its flag cleared
    and is pinged. *)
Fixpoint heartbeat (clients : JSMap.t ExtendedWebSocket.t)
  : JSMap.t ExtendedWebSocket.t * list Action :=
  match clients with
  | [] => ([], [])
  | (userId, client) :: rest =>
      let '(rest', acts) := heartbeat rest in
      if negb (isAlive client) then (rest', Terminate userId :: acts)
      else ((userId, set_isAlive client false) :: rest', Ping userId :: acts)
  end.

(** The [pong] handler installed by [handleConnection]:
    [ws.isAlive = true] on the socket registered under [userId]. *)
Definition pong (clients : JSMap.t ExtendedWebSocket.t) (userId : string)
  : JSMap.t ExtendedWebSocket.t :=
  match JSMap.get clients userId with
  | Some ws => JSMap.set clients userId (set_isAlive ws true)
  | None => clients
  end.

Inductive Event : Type :=
  | EvHeartbeat                                   (* the 30 s timer fires *)
  | EvPong (userId : string)                      (* a pong frame arrives *)
  | EvNotify (nowIso recipientEmail messageData : string).

Definition step (st : t) (ev : Event) : t :=
  match ev with
  | EvHeartbeat =>
      let '(clients', acts) := heartbeat (clients st) in
      {| clients := clients'; performed := performed st ++ acts |}
  | EvPong userId =>
      {| clients := pong (clients st) userId; performed := performed st |}
  | EvNotify nowIso recipientEmail messageData =>
      {| clients := clients st;
         performed := performed st
                      ++ notifyNewMessage (clients st) nowIso recipientEmail messageData |}
  end.

Definition run (st : t) (evs : list Event) : t := foldl step st evs.

(** An event that is neither a sweep nor a pong of the socket under
    [userId]. *)
Definition quiet_for (userId : string) (ev : Event) : Prop :=
  match ev with
  | EvHeartbeat => False
  | EvPong userId' => userId' <> userId
  | EvNotify _ _ _ => True
  end.

(** [after] holds no socket that [before] did not hold under the same
    key, and a socket keeps its [email]. *)
Definition descends_from (before after : JSMap.t ExtendedWebSocket.t) : Prop :=
  forall userId ws', JSMap.get after userId = Some ws' ->
    exists ws, JSMap.get before userId = Some ws /\ email ws = email ws'.

End WebSocketManager.

(** ** WebSocketManager: connections and their sockets

    The socket objects live in a store of their own and [clients] refers
    to them, so that two connections of one user are two objects under
    one key. *)

Module WebSocketConnections.
Import ExtendedWebSocket.

(** A frame as [sendMessage] writes it. *)
Record Frame : Type := mkFrame {
  type : string;
  data : JSON.t;
  timestamp : string
}.

Inductive Effect : Type :=
  | Sent (ws : nat) (frame : Frame)                (* ws.send(JSON.stringify(frame)) *)
  | Closed (ws : nat) (code : Z) (reason : string). (* ws.close(code, reason) *)

Record t : Type := mk {
  sockets : gmap nat ExtendedWebSocket.t;  (* the socket objects, by reference *)
  clients : JSMap.t nat;                   (* this.clients *)
  storage : SecureStorage.t;
  effects : list Effect                    (* oldest first *)
}.

(** A connection that the server has just accepted. *)
Definition accepted : ExtendedWebSocket.t :=
  {| userId := None; email := None; isAlive := false; readyState := OPEN |}.

Definition socket (st : t) (ws : nat) : ExtendedWebSocket.t :=
  default accepted (sockets st !! ws).

Definition with_effects (st : t) (more : list Effect) : t :=
  {| sockets := sockets st; clients := clients st; storage := storage st;
     effects := effects st ++ more |}.

Definition sendMessage (st : t) (ws : nat) (message : Frame) : list Effect :=
  if bool_decide (readyState (socket st ws) = OPEN) then [Sent ws message] else [].

(** [broadcast] without [excludeUserId]. *)
Definition broadcast (st : t) (message : Frame) : list Effect :=
  flat_map (fun entry =>
              if bool_decide (readyState (socket st (snd entry)) = OPEN)
              then sendMessage st (snd entry) message else [])
           (clients st).

Definition broadcastPresence (st : t) (nowIso email status : string) : list Effect :=
  broadcast st
    {| type := "presence";
       data := JSON.JObject [("email", JSON.JString email);
                             ("status", JSON.JString status)];
       timestamp := nowIso |}.

(** [ws.close(code, reason)] starts the closing handshake. *)
Definition close (st : t) (ws : nat) (code : Z) (reason : string) : t :=
  {| sockets :=
       <[ws := {| userId := userId (socket st ws); email := email (socket st ws);
                  isAlive := isAlive (socket st ws); readyState := CLOSING |}]>
         (sockets st);
     clients := clients st; storage := storage st;
     effects := effects st ++ [Closed ws code reason] |}.

Section WithJwt.
Context `{AuthService.JwtLib}.
Variable JWT_SECRET : string.

(** [token] is [url.searchParams.get('token')]; an absent and an empty
    token count as false. *)
Definition handleConnection (st : t) (clk : AuthService.Clock) (ws : nat)
    (token : option string) : t :=
  match token with
  | None => close st ws 1008 "Authentication required"
  | Some token =>
      if String.eqb token EmptyString then close st ws 1008 "Authentication required"
      else
        let verification := AuthService.verifyToken JWT_SECRET (storage st) clk token in
        match VerifyResult.valid verification, VerifyResult.payload verification with
        | true, Some payload =>
            let st :=
              {| sockets :=
                   <[ws := {| userId := Some (JWTPayload.userId payload);
                              email := Some (JWTPayload.email payload);
                              isAlive := true;
                              readyState := readyState (socket st ws) |}]>
                     (sockets st);
                 clients := JSMap.set (clients st) (JWTPayload.userId payload) ws;
                 storage :=
                   snd (SecureStorage.updateUserPresence (storage st)
                          (AuthService.nowIso clk) (JWTPayload.userId payload) true);
                 effects := effects st |} in
            let st :=
              with_effects st
                (broadcastPresence st (AuthService.nowIso clk)
                                   (JWTPayload.email payload) "online") in
            with_effects st
              (sendMessage st ws
                 {| type := "auth";
                    data := JSON.JObject
                              [("status", JSON.JString "authenticated");
                               ("userId", JSON.JString (JWTPayload.userId payload))];
                    timestamp := AuthService.nowIso clk |})
        | _, _ => close st ws 1008 "Invalid token"
        end
  end.

End WithJwt.

(** A text in a condition. *)
Definition nonempty (text : option string) : option string :=
  match text with
  | Some s => if String.eqb s EmptyString then None else Some s
  | None => None
  end.

(** The socket [ws] has closed and its [close] handler,
    [handleDisconnection], runs. *)
Definition handleDisconnection (st : t) (nowIso : string) (ws : nat) : t :=
  let closed :=
    {| userId := userId (socket st ws); email := email (socket st ws);
       isAlive := isAlive (socket st ws); readyState := CLOSED |} in
  let st :=
    {| sockets := <[ws := closed]> (sockets st); clients := clients st;
       storage := storage st; effects := effects st |} in
  match nonempty (userId closed) with
  | Some user =>
      let st :=
        {| sockets := sockets st;
           clients := JSMap.delete (clients st) user;
           storage := snd (SecureStorage.updateUserPresence (storage st) nowIso user false);
           effects := effects st |} in
      match nonempty (email closed) with
      | Some address => with_effects st (broadcastPresence st nowIso address "offline")
      | None => st
      end
  | None => st
  end.

Definition notifyNewMessage (st : t) (nowIso recipientEmail : string)
    (messageData : JSON.t) : list Effect :=
  match List.find (fun entry =>
                     bool_decide (email (socket st (snd entry)) = Some recipientEmail))
                  (clients st) with
  | Some (_, recipient) =>
      sendMessage st recipient
        {| type := "message"; data := messageData; timestamp := nowIso |}
  | None => []
  end.

End WebSocketConnections.

(** ** What the proofs assume of the primitives *)

Module CryptoLaws.
Import SecureCrypto.

(** The contract of the symmetric primitives: AES-256-CBC decrypts what
    it encrypted under the same key and vector, UTF-8 decoding undoes
    encoding, an HMAC-SHA256 digest has 32 bytes, and two different
    32-byte keys do not give one text the same digest (the ideal-MAC
    reading of HMAC). *)
Class SymmetricLaws `{NodeCrypto} : Prop := {
  aes_roundtrip : forall key iv plain,
    List.length key = 32%nat -> List.length iv = 16%nat ->
    aes256cbc_decrypt key iv (aes256cbc_encrypt key iv plain) = Ok plain;
  utf8_roundtrip : forall s, utf8_decode (utf8_encode s) = s;
  hmac_length : forall key text, List.length (hmac_sha256 key text) = 32%nat;
  hmac_key_separation : forall key key' text,
    List.length key = 32%nat -> List.length key' = 32%nat ->
    hmac_sha256 key text = hmac_sha256 key' text -> key = key'
}.

(** The PEM texts of a generated RSA pair parse back to RSA keys. *)
Class RsaKeyGenLaws `{NodeCrypto} : Prop := {
  generated_private_is_rsa : forall entropy,
    exists k, createPrivateKey (snd (generateKeyPairSync_rsa entropy)) = Ok k
              /\ keyKind k = PrivateKeyObject /\ asymmetricKeyType k = rsa;
  generated_public_is_rsa : forall entropy,
    exists k, createPublicKey (fst (generateKeyPairSync_rsa entropy)) = Ok k
              /\ asymmetricKeyType k = rsa
}.
(** A derived key has the requested length. *)
Class ScryptLaws `{NodeScrypt} : Prop := {
  scrypt_length : forall password salt keylen,
    List.length (scryptSync_password password salt keylen) = keylen
}.

(** A signature made with the private key of a generated pair verifies
    under the public key of that pair. *)
Class SignatureLaws `{NodeCrypto} : Prop := {
  verify_sign : forall entropy data,
    sha256_verify data
      (sha256_sign data (snd (generateKeyPairSync_rsa entropy)))
      (fst (generateKeyPairSync_rsa entropy)) = Ok true
}.


(** [bcrypt.compare] accepts a password against its own hash. *)
Class BcryptLaws `{AuthService.BcryptLib} : Prop := {
  compare_hash : forall password rounds salt,
    AuthService.bcrypt_compare password (AuthService.bcrypt_hash password rounds salt) = true
}.

(** [jwt.verify] accepts, under the secret it was signed with, a token
    of [generateTokens] until the clock reaches its expiry (15 minutes or
    seven days after the second of issue), and gives back the claims it
    was signed with. *)
Class JwtLaws `{AuthService.JwtLib} : Prop := {
  verify_issued : forall userId email jti secret expiresIn seconds now now',
    (expiresIn = AuthService.ACCESS_TOKEN_EXPIRY /\ seconds = 900)
    \/ (expiresIn = AuthService.REFRESH_TOKEN_EXPIRY /\ seconds = 604800) ->
    now' / 1000 < now / 1000 + seconds ->
    AuthService.jwt_verify
      (AuthService.jwt_sign userId email jti secret expiresIn now) secret now'
    = Some {| JWTPayload.userId := userId; JWTPayload.email := email;
              JWTPayload.iat := now / 1000; JWTPayload.exp := now / 1000 + seconds;
              JWTPayload.jti := jti |}
}.

(** [sort] rearranges the array, and orders it when the comparator is the
    difference of a key. *)
Class SortLaws `{SecureStorage.ArraySort} : Prop := {
  sort_permutation : forall (A : Type) (compare : A -> A -> option Z) (arr : list A),
    SecureStorage.Array_sort compare arr ≡ₚ arr;
  sort_sorted : forall (A : Type) (compare : A -> A -> option Z) (key : A -> Z)
                       (arr : list A),
    (forall a b, a ∈ arr -> b ∈ arr -> compare a b = Some (key a - key b)) ->
    StronglySorted (fun a b => key a <= key b) (SecureStorage.Array_sort compare arr)
}.

End CryptoLaws.

(** ** Reference instances

    Small executable stand-ins for the libraries, on which the model can be
    run: tokens, signatures and digests are symbolic. *)

Module Reference.
Import SecureCrypto.

Fixpoint strip_prefix (p s : string) : option string :=
  match p, s with
  | EmptyString, _ => Some s
  | String a p', String b s' => if Ascii.eqb a b then strip_prefix p' s' else None
  | String _ _, EmptyString => None
  end.

Definition parse_key (kind : KeyKind) (label : string) (pem : string)
  : Res KeyObject :=
  match strip_prefix ("rsa-" +:+ label) pem, strip_prefix ("x25519-" +:+ label) pem with
  | Some body, _ => Ok (mkKeyObject kind rsa (Buffer_from_hex body))
  | None, Some body => Ok (mkKeyObject kind x25519 (Buffer_from_hex body))
  | None, None => Throw ERR_OSSL_UNSUPPORTED
  end.

Definition pad32 (key : list byte) : list byte := take 32 (key ++ repeat x00 32).

#[export] Instance crypto : NodeCrypto := {|
  generateKeyPairSync_rsa entropy :=
    ("rsa-public:" +:+ toString_hex entropy, "rsa-private:" +:+ toString_hex entropy);
  createPrivateKey := parse_key PrivateKeyObject "private:";
  createPublicKey := parse_key PublicKeyObject "public:";
  computeSecret a b := keyMaterial a ++ keyMaterial b;
  scryptSync secret salt n := take n (secret ++ repeat x00 n);
  aes256cbc_encrypt key iv plain := rev plain;
  aes256cbc_decrypt key iv cipher := Ok (rev cipher);
  hmac_sha256 key text := pad32 key;
  utf8_encode := list_byte_of_string;
  utf8_decode := string_of_list_byte;
  sha256_sign data privateKey :=
    match strip_prefix "rsa-private:" privateKey with
    | Some body => "sig:" +:+ body +:+ ":" +:+ data
    | None => EmptyString
    end;
  sha256_verify data signature publicKey :=
    match strip_prefix "rsa-public:" publicKey with
    | Some body => Ok (String.eqb signature ("sig:" +:+ body +:+ ":" +:+ data))
    | None => Throw ERR_OSSL_UNSUPPORTED
    end
|}.

(** A calendar of three instants, five minutes and one millisecond
    apart. *)
#[export] Instance dates : SecurityUtils.DateLib := {|
  SecurityUtils.Date_parse s :=
    if String.eqb s "2024-01-01T00:00:00.000Z" then Some 1704067200000
    else if String.eqb s "2024-01-01T00:05:00.000Z" then Some 1704067500000
    else if String.eqb s "2024-01-01T00:05:00.001Z" then Some 1704067500001
    else None
|}.

#[export] Instance scrypt : NodeScrypt := {|
  scryptSync_password password salt keylen :=
    take keylen (list_byte_of_string password ++ salt ++ repeat x00 keylen)
|}.

(** A token lists the hexadecimal texts of the user id, the address, the
    session reference, the secret it was signed with, the time of issue
    and the expiry, separated by dots. *)
Definition hex_of_text (text : string) : string :=
  toString_hex (list_byte_of_string text).
Definition text_of_hex (hex : string) : string :=
  string_of_list_byte (Buffer_from_hex hex).

Definition decimal (z : Z) : string := NilEmpty.string_of_int (Z.to_int z).
Definition of_decimal (text : string) : option Z :=
  Z.of_int <$> NilEmpty.int_of_string text.

Fixpoint join_dots (parts : list string) : string :=
  match parts with
  | [] => EmptyString
  | [part] => part
  | part :: rest => part +:+ String "." (join_dots rest)
  end.

(** The life times that [generateTokens] asks for, in seconds. *)
Definition lifetime (expiresIn : string) : Z :=
  if String.eqb expiresIn AuthService.ACCESS_TOKEN_EXPIRY then 900
  else if String.eqb expiresIn AuthService.REFRESH_TOKEN_EXPIRY then 604800
  else 0.

(** [iat] and [exp] are in seconds, the clock in milliseconds; a token
    verifies under the secret it was signed with until the clock reaches
    [exp]. *)
#[export] Instance jwt : AuthService.JwtLib := {|
  AuthService.jwt_sign userId email jti secret expiresIn now :=
    let iat := now / 1000 in
    join_dots [hex_of_text userId; hex_of_text email; hex_of_text jti;
               hex_of_text secret; hex_of_text (decimal iat);
               hex_of_text (decimal (iat + lifetime expiresIn))];
  AuthService.jwt_verify token secret now :=
    match SecurityUtils.split_on "." token with
    | [userId; email; jti; signedWith; iat; exp] =>
        if String.eqb (text_of_hex signedWith) secret then
          match of_decimal (text_of_hex iat), of_decimal (text_of_hex exp) with
          | Some iat, Some exp =>
              if now / 1000 <? exp
              then Some {| JWTPayload.userId := text_of_hex userId;
                           JWTPayload.email := text_of_hex email;
                           JWTPayload.iat := iat;
                           JWTPayload.exp := exp;
                           JWTPayload.jti := text_of_hex jti |}
              else None
          | _, _ => None
          end
        else None
    | _ => None
    end
|}.

Definition SECRET : string := "secure-secret-key".

(** The refresh token of session [6a01], issued to alice at time 0 for
    seven days, and what it decodes to. *)
Definition refresh_6a01 : string :=
  AuthService.jwt_sign "u1" "alice@example.com" "6a01" SECRET
    AuthService.REFRESH_TOKEN_EXPIRY 0.
Definition payload_6a01 : JWTPayload.t :=
  {| JWTPayload.userId := "u1"; JWTPayload.email := "alice@example.com";
     JWTPayload.iat := 0; JWTPayload.exp := 604800; JWTPayload.jti := "6a01" |}.

#[export] Instance bcrypt : AuthService.BcryptLib := {|
  AuthService.bcrypt_hash password rounds salt := "bcrypt(" +:+ password +:+ ")";
  AuthService.bcrypt_compare password hash :=
    String.eqb hash ("bcrypt(" +:+ password +:+ ")")
|}.

Definition session_6a01 : AuthSession.t :=
  {| AuthSession.userId := "u1"; AuthSession.email := "alice@example.com";
     AuthSession.publicKey := "rsa-public:01"; AuthSession.sessionId := "6a01";
     AuthSession.createdAt := 0; AuthSession.expiresAt := 604800000 |}.

Definition alice : StoredUser.t :=
  {| StoredUser.id := "u1"; StoredUser.email := "alice@example.com";
     StoredUser.passwordHash := "bcrypt(Correct-Horse-42!)";
     StoredUser.publicKey := "rsa-public:01";
     StoredUser.encryptedPrivateKey :=
     EncryptedData.mk "000102030405060708090a0b0c0d0e0f" "2a" "00";
     StoredUser.createdAt := "1969-12-31T00:00:00.000Z";
     StoredUser.lastSeen := "1969-12-31T00:00:00.000Z";
     StoredUser.isOnline := false; StoredUser.emailVerified := false |}.

(** The store after alice, a registered user, logged in at time 0 and
    drew the session reference [6a01]. *)
Definition store0 : SecureStorage.t :=
  snd (AuthService.login SECRET (fun _ => "{}")
         (SecureStorage.with_users SecureStorage.empty [("u1", alice)])
         (AuthService.mkClock 0 "1970-01-01T00:00:00.000Z") [x6a; x01]
         "alice@example.com" "Correct-Horse-42!").

(** A printer of JSON values (texts are written without escapes). *)
Definition quote : string := String (ascii_of_nat 34) EmptyString.

Fixpoint print_json (value : JSON.t) : string :=
  match value with
  | JSON.JNull => "null"
  | JSON.JBool true => "true"
  | JSON.JBool false => "false"
  | JSON.JNumber n => pretty n
  | JSON.JString s => quote +:+ s +:+ quote
  | JSON.JArray items =>
      "[" +:+ (fix go (l : list JSON.t) : string :=
                 match l with
                 | [] => EmptyString
                 | [x] => print_json x
                 | x :: rest => print_json x +:+ "," +:+ go rest
                 end) items +:+ "]"
  | JSON.JObject fields =>
      "{" +:+ (fix go (l : list (string * JSON.t)) : string :=
                 match l with
                 | [] => EmptyString
                 | [(k, x)] => quote +:+ k +:+ quote +:+ ":" +:+ print_json x
                 | (k, x) :: rest =>
                     quote +:+ k +:+ quote +:+ ":" +:+ print_json x +:+ "," +:+ go rest
                 end) fields +:+ "}"
  end.

(** A mail from alice, and the values that the examples read back. *)
Definition mail0 : JSON.t :=
  JSON.JObject [("subject", JSON.JString "Hello"); ("body", JSON.JString "How are you?")].

Definition known_values : list JSON.t :=
  [mail0;
   JSON.of_EncryptedData
     (SecureCrypto.sealed (print_json mail0) (repeat x2a 32) (repeat x07 16));
   JSON.JArray [JSON.JObject [("id", JSON.JString "a1"); ("size", JSON.JNumber 3)]]].

#[export] Instance json : JSON.JsonLib := {|
  JSON.JSON_stringify := print_json;
  JSON.JSON_parse text :=
    List.find (fun value => String.eqb (print_json value) text) known_values
|}.

(** Arrays of byte values as buffers and as comma-joined texts; nothing
    else is coerced. *)
Fixpoint bytes_of_items (items : list JSON.t) : option (list byte) :=
  match items with
  | [] => Some []
  | JSON.JNumber n :: rest =>
      if (0 <=? n) && (n <? 256) then
        b ← Byte.of_N (Z.to_N n); bytes ← bytes_of_items rest; Some (b :: bytes)
      else None
  | _ => None
  end.

Fixpoint text_of_items (items : list JSON.t) : option string :=
  match items with
  | [] => Some EmptyString
  | [JSON.JNumber n] => Some (pretty n)
  | JSON.JNumber n :: rest => text ← text_of_items rest; Some (pretty n +:+ "," +:+ text)
  | _ => None
  end.

#[export] Instance coercions : JSON.JsCoercions := {|
  JSON.Buffer_from_container value :=
    match value with JSON.JArray items => bytes_of_items items | _ => None end;
  JSON.String_of_container value :=
    match value with JSON.JArray items => text_of_items items | _ => None end
|}.

(** An envelope from alice to bob, created at 00:00:00.000 with alice's
    key, and a consumed-nonce set that already holds its nonce. *)
Definition nonce0 : string :=
  "000102030405060708090a0b0c0d0e0f101112131415161718191a1b1c1d1e1f".

Definition envelope0 : LWPMessage.t :=
  LuminaWebProtocol.createMessage "2024-01-01T00:00:00.000Z" nonce0
    "message" "alice@example.com" "bob@example.com" "{}" "rsa-private:01".

Definition usedNonces0 : JSSet.t := [nonce0].

(** A registry with the open sockets of alice and bob, both alive. *)
Definition registry0 : WebSocketManager.t :=
  {| WebSocketManager.clients :=
       [("u1", ExtendedWebSocket.mk (Some "u1") (Some "alice@example.com") true
                 ExtendedWebSocket.OPEN);
        ("u2", ExtendedWebSocket.mk (Some "u2") (Some "bob@example.com") true
                 ExtendedWebSocket.OPEN)];
     WebSocketManager.performed := [] |}.


(** A stable insertion sort; a comparison that is NaN counts as 0. *)
Fixpoint insert_sorted {A : Type} (compare : A -> A -> option Z) (x : A) (arr : list A)
  : list A :=
  match arr with
  | [] => [x]
  | y :: rest =>
      match compare x y with
      | Some d => if (0 <? d)%Z then y :: insert_sorted compare x rest else x :: arr
      | None => x :: arr
      end
  end.

#[export] Instance sort : SecureStorage.ArraySort := {|
  SecureStorage.Array_sort A compare arr := foldr (insert_sorted compare) [] arr
|}.

(** A mailbox under a 32-byte storage key with two letters to bob, the
    older one read, and one to carol. *)
Definition letter (id from to subject timestamp : string) (isRead : bool)
  : string * StoredMessage.t :=
  (id,
   {| StoredMessage.id := id; StoredMessage.from := from; StoredMessage.to := to;
      StoredMessage.encryptedSubject := sealed subject (repeat x01 32) (repeat x02 16);
      StoredMessage.encryptedBody := sealed "body" (repeat x01 32) (repeat x03 16);
      StoredMessage.encryptedAttachments := None;
      StoredMessage.timestamp := timestamp; StoredMessage.isRead := isRead;
      StoredMessage.threadId := None; StoredMessage.replyTo := None |}).

Definition mailbox0 : SecureStorage.mail :=
  {| SecureStorage.storageKey := repeat x01 32;
     SecureStorage.messages :=
       [letter "m1" "alice@example.com" "bob@example.com" "first"
               "2024-01-01T00:00:00.000Z" true;
        letter "m2" "alice@example.com" "carol@example.com" "second"
               "2024-01-01T00:05:00.000Z" false;
        letter "m3" "carol@example.com" "bob@example.com" "third"
               "2024-01-01T00:05:00.001Z" false] |}.

End Reference.

(** End of the definitions; the theorems follow. *)

(** * Properties *)

(** ** Timestamps *)

Section Timestamps.
Import SecurityUtils.
Context `{DateLib}.

Lemma isValidTimestamp_spec now timestamp maxAgeMs :
  isValidTimestamp now timestamp maxAgeMs = true
  <-> exists t, Date_parse timestamp = Some t /\ 0 <= now - t <= maxAgeMs.
Proof.
  unfold isValidTimestamp. destruct (Date_parse timestamp) as [t|].
  - rewrite andb_true_iff, !Z.leb_le. split.
    + intros [Hlo Hhi]. exists t. auto.
    + intros (t' & [= <-] & Hlo & Hhi). auto.
  - split; [discriminate | intros (t & [=] & _)].
Qed.

(** C8.  With the default window, a timestamp is accepted exactly when
    it parses to an instant whose age is between 0 and 300000 ms, both
    ends included: an instant in the future is rejected, an age above
    five minutes is rejected, an age of exactly five minutes is accepted,
    and a text that is no date is rejected. *)
Theorem isValidTimestamp_default_window (now : Z) (timestamp : string) :
  (isValidTimestamp now timestamp DEFAULT_MAX_AGE_MS = true
   <-> exists t, Date_parse timestamp = Some t /\ 0 <= now - t <= 300000)
  /\ (forall t, Date_parse timestamp = Some t -> now - t < 0 ->
        isValidTimestamp now timestamp DEFAULT_MAX_AGE_MS = false)
  /\ (forall t, Date_parse timestamp = Some t -> 300000 < now - t ->
        isValidTimestamp now timestamp DEFAULT_MAX_AGE_MS = false)
  /\ (forall t, Date_parse timestamp = Some t -> now - t = 300000 ->
        isValidTimestamp now timestamp DEFAULT_MAX_AGE_MS = true)
  /\ (Date_parse timestamp = None ->
        isValidTimestamp now timestamp DEFAULT_MAX_AGE_MS = false).
Proof.
  split; [apply isValidTimestamp_spec |].
  unfold isValidTimestamp, DEFAULT_MAX_AGE_MS.
  repeat split.
  - intros t -> Hneg. cbn. apply andb_false_iff. left. apply Z.leb_gt. lia.
  - intros t -> Hold. cbn. apply andb_false_iff. right. apply Z.leb_gt. lia.
  - intros t -> Hedge. cbn. rewrite Hedge. reflexivity.
  - intros ->. reflexivity.
Qed.
End Timestamps.

(** The three instants of the reference calendar seen from 00:05:00.000:
    the window edge is accepted, one millisecond into the future is not. *)
Lemma isValidTimestamp_default_window_witness :
  SecurityUtils.isValidTimestamp (H := Reference.dates)
    1704067500000 "2024-01-01T00:00:00.000Z" SecurityUtils.DEFAULT_MAX_AGE_MS = true
  /\ SecurityUtils.isValidTimestamp (H := Reference.dates)
       1704067500000 "2024-01-01T00:05:00.001Z" SecurityUtils.DEFAULT_MAX_AGE_MS = false.
Proof.
  pose proof (isValidTimestamp_default_window (H := Reference.dates)
                1704067500000 "2024-01-01T00:00:00.000Z") as (_ & _ & _ & Hedge & _).
  pose proof (isValidTimestamp_default_window (H := Reference.dates)
                1704067500000 "2024-01-01T00:05:00.001Z") as (_ & Hfut & _).
  split.
  - apply (Hedge 1704067200000); reflexivity.
  - apply (Hfut 1704067500001); reflexivity.
Defined.

(** ** Hexadecimal text *)

Section Hex.
Import SecureCrypto.

Lemma Buffer_from_hex_cons (b : byte) (rest : list byte) :
  Buffer_from_hex (toString_hex (b :: rest)) = b :: Buffer_from_hex (toString_hex rest).
Proof. destruct b; reflexivity. Qed.

Lemma Buffer_from_hex_toString_hex (buf : list byte) :
  Buffer_from_hex (toString_hex buf) = buf.
Proof.
  induction buf as [|b rest IH]; [reflexivity |].
  rewrite Buffer_from_hex_cons, IH. reflexivity.
Qed.

Lemma toString_hex_inj (a b : list byte) :
  toString_hex a = toString_hex b -> a = b.
Proof.
  intros Heq. rewrite <- (Buffer_from_hex_toString_hex a), Heq.
  apply Buffer_from_hex_toString_hex.
Qed.

Lemma timingSafeEqual_same (a : list byte) : timingSafeEqual a a = Ok true.
Proof.
  unfold timingSafeEqual. rewrite Nat.eqb_refl. cbn.
  rewrite bool_decide_eq_true_2; reflexivity.
Qed.

Lemma timingSafeEqual_diff (a b : list byte) :
  List.length a = List.length b -> a <> b -> timingSafeEqual a b = Ok false.
Proof.
  intros Hlen Hne. unfold timingSafeEqual. rewrite Hlen, Nat.eqb_refl. cbn.
  rewrite bool_decide_eq_false_2; [reflexivity | assumption].
Qed.
End Hex.

(** ** Authenticated encryption *)

Section Symmetric.
Import SecureCrypto CryptoLaws.
Context `{NodeCrypto} `{!SymmetricLaws}.

Lemma createCipheriv_ok (key iv : list byte) :
  List.length key = 32%nat -> List.length iv = 16%nat -> createCipheriv key iv = Ok tt.
Proof. intros Hk Hiv. unfold createCipheriv. rewrite Hk, Hiv. reflexivity. Qed.

Lemma createCipheriv_keylen (key iv : list byte) :
  List.length iv = 16%nat -> List.length key <> 32%nat ->
  createCipheriv key iv = Throw ERR_CRYPTO_INVALID_KEYLEN.
Proof.
  intros Hiv Hk. unfold createCipheriv. rewrite Hiv. cbn.
  destruct (Nat.eqb_spec (List.length key) 32); [contradiction | reflexivity].
Qed.

Lemma createCipheriv_ivlen (key iv : list byte) :
  List.length iv <> 16%nat -> createCipheriv key iv = Throw ERR_CRYPTO_INVALID_IV.
Proof.
  intros Hiv. unfold createCipheriv.
  destruct (Nat.eqb_spec (List.length iv) 16); [contradiction | reflexivity].
Qed.

Lemma createCipheriv_refuses (key iv : list byte) :
  List.length key <> 32%nat -> exists e, createCipheriv key iv = Throw e.
Proof.
  intros Hk. destruct (Nat.eq_dec (List.length iv) 16%nat) as [Hiv | Hiv].
  - eexists. apply createCipheriv_keylen; assumption.
  - eexists. apply createCipheriv_ivlen; assumption.
Qed.

Lemma encrypt_sealed plaintext key iv :
  List.length key = 32%nat -> List.length iv = 16%nat ->
  encrypt plaintext key iv = Ok (sealed plaintext key iv).
Proof.
  intros Hk Hiv. unfold encrypt. rewrite (createCipheriv_ok _ _ Hk Hiv). reflexivity.
Qed.

Lemma decrypt_sealed_same plaintext key iv :
  List.length key = 32%nat -> List.length iv = 16%nat ->
  decrypt (sealed plaintext key iv) key = Ok plaintext.
Proof.
  intros Hk Hiv. unfold decrypt, sealed. cbn [EncryptedData.iv EncryptedData.data EncryptedData.tag].
  rewrite timingSafeEqual_same. cbn.
  rewrite Buffer_from_hex_toString_hex, (createCipheriv_ok _ _ Hk Hiv). cbn.
  rewrite Buffer_from_hex_toString_hex, (aes_roundtrip _ _ _ Hk Hiv). cbn.
  rewrite utf8_roundtrip. reflexivity.
Qed.

(** The tag comparison of [decrypt] under another key: the digests have
    the same length, so the comparison does not throw. *)
Lemma decrypt_sealed_tag plaintext key iv other :
  timingSafeEqual
    (Buffer_from_hex (EncryptedData.tag (sealed plaintext key iv)))
    (Buffer_from_hex (toString_hex (hmac_sha256 other
       (EncryptedData.data (sealed plaintext key iv)
        +:+ EncryptedData.iv (sealed plaintext key iv)))))
  = Ok (bool_decide
          (hmac_sha256 key (EncryptedData.data (sealed plaintext key iv)
                            +:+ EncryptedData.iv (sealed plaintext key iv))
           = hmac_sha256 other (EncryptedData.data (sealed plaintext key iv)
                                +:+ EncryptedData.iv (sealed plaintext key iv)))).
Proof.
  cbn [sealed EncryptedData.iv EncryptedData.data EncryptedData.tag].
  rewrite !Buffer_from_hex_toString_hex.
  unfold timingSafeEqual. rewrite !hmac_length. reflexivity.
Qed.

Lemma decrypt_sealed_other plaintext key iv other :
  List.length key = 32%nat -> List.length iv = 16%nat -> other <> key ->
  (List.length other = 32%nat ->
     decrypt (sealed plaintext key iv) other = Throw InvalidAuthenticationTag)
  /\ (decrypt (sealed plaintext key iv) other = Throw InvalidAuthenticationTag
      \/ (List.length other <> 32%nat
          /\ decrypt (sealed plaintext key iv) other = Throw ERR_CRYPTO_INVALID_KEYLEN)).
Proof.
  intros Hk Hiv Hne.
  assert (Hstep : forall b,
    timingSafeEqual
      (Buffer_from_hex (EncryptedData.tag (sealed plaintext key iv)))
      (Buffer_from_hex (toString_hex (hmac_sha256 other
         (EncryptedData.data (sealed plaintext key iv)
          +:+ EncryptedData.iv (sealed plaintext key iv))))) = Ok b ->
    (b = false -> decrypt (sealed plaintext key iv) other = Throw InvalidAuthenticationTag)
    /\ (b = true -> List.length other <> 32%nat ->
          decrypt (sealed plaintext key iv) other = Throw ERR_CRYPTO_INVALID_KEYLEN)).
  { intros b Hb. unfold decrypt. rewrite Hb. cbn. split.
    - intros ->. reflexivity.
    - intros -> Hlen. cbn.
      rewrite createCipheriv_keylen;
        [reflexivity | rewrite Buffer_from_hex_toString_hex; exact Hiv | exact Hlen]. }
  specialize (Hstep _ (decrypt_sealed_tag plaintext key iv other)).
  destruct Hstep as [Hfalse Htrue].
  split.
  - intros Hother. apply Hfalse. apply bool_decide_eq_false_2.
    intros Heq. apply Hne. symmetry.
    exact (hmac_key_separation _ _ _ Hk Hother Heq).
  - destruct (bool_decide _) eqn:Hdec.
    + assert (Hother : List.length other <> 32%nat).
      { intros Hother. apply bool_decide_eq_true_1 in Hdec.
        apply Hne. symmetry. exact (hmac_key_separation _ _ _ Hk Hother Hdec). }
      right. split; [exact Hother |]. apply Htrue; [reflexivity | exact Hother].
    + left. apply Hfalse. reflexivity.
Qed.

End Symmetric.

(** The reference primitives meet the contract. *)
Lemma Reference_symmetric_laws : CryptoLaws.SymmetricLaws (H := Reference.crypto).
Proof.
  split; cbn.
  - intros key iv plain _ _. rewrite rev_involutive. reflexivity.
  - apply string_of_list_byte_of_string.
  - intros key _. unfold Reference.pad32.
    rewrite length_take, length_app, repeat_length. lia.
  - intros key key' _ Hk Hk'. unfold Reference.pad32.
    rewrite !take_app_length' by (symmetry; assumption). auto.
Qed.



(** ** Key agreement *)

Section KeyAgreement.
Import SecureCrypto CryptoLaws.
Context `{NodeCrypto} `{!RsaKeyGenLaws}.

Lemma diffieHellman_rsa (priv pub : KeyObject) :
  keyKind priv = PrivateKeyObject -> asymmetricKeyType priv = rsa ->
  diffieHellman priv pub = Throw ERR_CRYPTO_INCOMPATIBLE_KEY.
Proof.
  intros Hkind Hrsa. unfold diffieHellman. rewrite Hkind, Hrsa. cbn.
  rewrite orb_true_r. reflexivity.
Qed.

(** What the derivation gives on two pairs of one Diffie-Hellman capable
    type whose agreement is symmetric (as for ECDH pairs): the same key in
    both call orders. *)
Lemma deriveSharedSecret_symmetric_on_dh_pairs
    (privA pubA privB pubB : string) (ka pa kb pb : KeyObject) :
  createPrivateKey privA = Ok ka -> createPublicKey pubA = Ok pa ->
  createPrivateKey privB = Ok kb -> createPublicKey pubB = Ok pb ->
  keyKind ka = PrivateKeyObject -> keyKind kb = PrivateKeyObject ->
  asymmetricKeyType ka = asymmetricKeyType pb ->
  asymmetricKeyType kb = asymmetricKeyType pa ->
  dhEnabledKeyTypes (asymmetricKeyType ka) = true ->
  dhEnabledKeyTypes (asymmetricKeyType kb) = true ->
  computeSecret ka pb = computeSecret kb pa ->
  deriveSharedSecret privA pubB = deriveSharedSecret privB pubA
  /\ exists key, deriveSharedSecret privA pubB = Ok key.
Proof.
  intros Hka Hpa Hkb Hpb Hkinda Hkindb Hta Htb Hena Henb Hagree.
  unfold deriveSharedSecret, diffieHellman.
  rewrite Hka, Hpa, Hkb, Hpb. cbn.
  rewrite Hkinda, Hkindb, Hena, Henb, Hagree. cbn.
  rewrite !bool_decide_eq_true_2 by (assumption || reflexivity). cbn.
  split; [reflexivity | eauto].
Qed.

(** C4.  On the key pairs that [generateKeyPair] produces the derivation
    does not return a key: the pairs are RSA pairs, [crypto.diffieHellman]
    takes no RSA key, and [deriveSharedSecret] throws in both call
    orders. *)
Theorem deriveSharedSecret_generated_pairs_throw (entropyA entropyB : list byte) :
  let A := generateKeyPair entropyA in
  let B := generateKeyPair entropyB in
  deriveSharedSecret (KeyPair.privateKey A) (KeyPair.publicKey B)
    = Throw ERR_CRYPTO_INCOMPATIBLE_KEY
  /\ deriveSharedSecret (KeyPair.privateKey B) (KeyPair.publicKey A)
    = Throw ERR_CRYPTO_INCOMPATIBLE_KEY.
Proof.
  cbn zeta. unfold deriveSharedSecret, generateKeyPair.
  cbn [KeyPair.privateKey KeyPair.publicKey].
  destruct (generated_private_is_rsa entropyA) as (ka & -> & Hkinda & Hka).
  destruct (generated_private_is_rsa entropyB) as (kb & -> & Hkindb & Hkb).
  destruct (generated_public_is_rsa entropyA) as (pa & -> & _).
  destruct (generated_public_is_rsa entropyB) as (pb & -> & _).
  cbn. rewrite (diffieHellman_rsa ka pb Hkinda Hka), (diffieHellman_rsa kb pa Hkindb Hkb).
  split; reflexivity.
Qed.
End KeyAgreement.

Lemma Reference_rsa_laws : CryptoLaws.RsaKeyGenLaws (H := Reference.crypto).
Proof.
  split; intros entropy; cbn; unfold Reference.parse_key; cbn; eauto.
Qed.

Lemma deriveSharedSecret_generated_pairs_throw_witness :
  SecureCrypto.deriveSharedSecret (H := Reference.crypto)
    (KeyPair.privateKey (SecureCrypto.generateKeyPair (H := Reference.crypto) [x01]))
    (KeyPair.publicKey (SecureCrypto.generateKeyPair (H := Reference.crypto) [x02]))
  = Throw ERR_CRYPTO_INCOMPATIBLE_KEY.
Proof.
  exact (proj1 (deriveSharedSecret_generated_pairs_throw (H := Reference.crypto)
                  (H0 := Reference_rsa_laws) [x01] [x02])).
Defined.

(** ** Envelope validation and the replay check *)

Section Envelope.
Import SecurityUtils SecureCrypto LuminaWebProtocol.
Context `{NodeCrypto} `{DateLib}.

Lemma push_if_nil (c : bool) (e : string) (errors : list string) :
  push_if c e errors = [] <-> c = false /\ errors = [].
Proof.
  unfold push_if. destruct c.
  - split; [intros Happ; destruct errors; discriminate | intros [[=] _]].
  - split; [auto | intros [_ ->]; reflexivity].
Qed.

(** Acceptance is the conjunction of the eight checks of the function;
    no consumed-nonce set is an argument or is consulted. *)
Lemma validateMessage_accepts_iff (now : Z) (message : LWPMessage.t) (publicKey : string) :
  ValidationResult.isValid (validateMessage now message publicKey) = true
  <-> LWPMessage.version message = VERSION
      /\ LWPMessage.type message ∈ ["auth"; "handshake"; "message"; "ack"; "presence"]
      /\ validateEmail (LWPMessage.from message) = true
      /\ validateEmail (LWPMessage.to message) = true
      /\ isValidTimestamp now (LWPMessage.timestamp message) DEFAULT_MAX_AGE_MS = true
      /\ String.length (LWPMessage.nonce message) = 64%nat
      /\ (Z.of_nat (String.length (LWPMessage.payload message)) <= MAX_MESSAGE_SIZE)
      /\ verify (LWPMessage.version message +:+ LWPMessage.type message
                 +:+ LWPMessage.from message +:+ LWPMessage.to message
                 +:+ LWPMessage.timestamp message +:+ LWPMessage.nonce message
                 +:+ LWPMessage.payload message)
                (LWPMessage.signature message) publicKey = true.
Proof.
  unfold validateMessage. cbv zeta. cbn [ValidationResult.isValid].
  rewrite Nat.eqb_eq, length_zero_iff_nil, !push_if_nil.
  rewrite !negb_false_iff, String.eqb_eq, bool_decide_eq_true, Nat.eqb_eq, Z.ltb_ge.
  tauto.
Qed.

Lemma isReplayAttack_seen (nonce : string) (usedNonces : JSSet.t) :
  nonce ∈ usedNonces -> isReplayAttack nonce usedNonces = (true, usedNonces).
Proof.
  intros Hin. unfold isReplayAttack, JSSet.has.
  rewrite bool_decide_eq_true_2 by assumption. reflexivity.
Qed.

Lemma isReplayAttack_first (nonce : string) (usedNonces : JSSet.t) :
  nonce ∉ usedNonces ->
  isReplayAttack nonce usedNonces = (false, usedNonces ++ [nonce]).
Proof.
  intros Hnot. unfold isReplayAttack, JSSet.add, JSSet.has.
  rewrite bool_decide_eq_false_2 by assumption. reflexivity.
Qed.

(** C1 (amended).  [validateMessage] accepts an envelope exactly when
    its eight checks pass, whatever nonces were consumed before; the replay
    check is [isReplayAttack]: for a nonce already in the set it answers
    true and leaves the set as it is, and on first sight it answers false
    and records the nonce, so that a second presentation is a replay. *)
Theorem replay_check_is_isReplayAttack
    (now : Z) (message : LWPMessage.t) (publicKey : string) (usedNonces : JSSet.t) :
  let nonce := LWPMessage.nonce message in
  (ValidationResult.isValid (validateMessage now message publicKey) = true
   <-> LWPMessage.version message = VERSION
       /\ LWPMessage.type message ∈ ["auth"; "handshake"; "message"; "ack"; "presence"]
       /\ validateEmail (LWPMessage.from message) = true
       /\ validateEmail (LWPMessage.to message) = true
       /\ isValidTimestamp now (LWPMessage.timestamp message) DEFAULT_MAX_AGE_MS = true
       /\ String.length nonce = 64%nat
       /\ (Z.of_nat (String.length (LWPMessage.payload message)) <= MAX_MESSAGE_SIZE)
       /\ verify (LWPMessage.version message +:+ LWPMessage.type message
                  +:+ LWPMessage.from message +:+ LWPMessage.to message
                  +:+ LWPMessage.timestamp message +:+ nonce
                  +:+ LWPMessage.payload message)
                 (LWPMessage.signature message) publicKey = true)
  /\ (nonce ∈ usedNonces -> isReplayAttack nonce usedNonces = (true, usedNonces))
  /\ (nonce ∉ usedNonces ->
        exists usedNonces',
          isReplayAttack nonce usedNonces = (false, usedNonces')
          /\ nonce ∈ usedNonces'
          /\ (forall n, n ∈ usedNonces' <-> n ∈ usedNonces \/ n = nonce)
          /\ isReplayAttack nonce usedNonces' = (true, usedNonces')).
Proof.
  cbv zeta. split; [apply validateMessage_accepts_iff |].
  split; [apply isReplayAttack_seen |].
  intros Hnot. exists (usedNonces ++ [LWPMessage.nonce message]).
  split; [apply isReplayAttack_first; assumption |].
  assert (Hin : LWPMessage.nonce message ∈ usedNonces ++ [LWPMessage.nonce message])
    by (apply elem_of_app; right; apply list_elem_of_singleton; reflexivity).
  split; [exact Hin |].
  split; [| apply isReplayAttack_seen; exact Hin].
  intros n. rewrite elem_of_app, list_elem_of_singleton. tauto.
Qed.
End Envelope.

(** C1 as stated fails: [envelope0] is accepted one second after its
    creation although its nonce is already in the consumed set. *)
Lemma validateMessage_accepts_consumed_nonce :
  LWPMessage.nonce Reference.envelope0 ∈ Reference.usedNonces0
  /\ ValidationResult.isValid
       (LuminaWebProtocol.validateMessage (H := Reference.crypto) (H0 := Reference.dates)
          1704067201000 Reference.envelope0 "rsa-public:01") = true.
Proof.
  split; [apply list_elem_of_singleton; reflexivity | vm_compute; reflexivity].
Qed.

Lemma replay_check_is_isReplayAttack_witness :
  LuminaWebProtocol.isReplayAttack Reference.nonce0 Reference.usedNonces0
    = (true, Reference.usedNonces0)
  /\ exists usedNonces',
       LuminaWebProtocol.isReplayAttack Reference.nonce0 [] = (false, usedNonces')
       /\ Reference.nonce0 ∈ usedNonces'.
Proof.
  pose proof (replay_check_is_isReplayAttack (H := Reference.crypto) (H0 := Reference.dates)
                1704067201000 Reference.envelope0 "rsa-public:01" Reference.usedNonces0)
    as (_ & Hseen & _).
  pose proof (replay_check_is_isReplayAttack (H := Reference.crypto) (H0 := Reference.dates)
                1704067201000 Reference.envelope0 "rsa-public:01" [])
    as (_ & _ & Hfirst).
  split.
  - apply Hseen. apply list_elem_of_singleton. reflexivity.
  - destruct Hfirst as (used' & Hcall & Hin & _).
    + apply not_elem_of_nil.
    + exists used'. split; assumption.
Defined.

(** ** The session store and the nonce set *)

Section Sweep.
Import SecureStorage.

Lemma getSession_cleanup (st : SecureStorage.t) (now : Z) (sessionId : string) :
  getSession (cleanup st now) sessionId
  = match getSession st sessionId with
    | Some session =>
        if (AuthSession.createdAt session <? now - ONE_HOUR_MS)%Z then None
        else Some session
    | None => None
    end.
Proof.
  unfold getSession, cleanup. cbn [sessions with_sessions].
  destruct (sessions st !! sessionId) as [session|] eqn:Hget.
  - destruct (Z.ltb_spec (AuthSession.createdAt session) (now - ONE_HOUR_MS)) as [Hold|Hnew].
    + apply map_lookup_filter_None. right. intros s Hs. rewrite Hget in Hs.
      injection Hs as <-. cbn. lia.
    + apply map_lookup_filter_Some. split; [assumption | cbn; lia].
  - apply map_lookup_filter_None. left. assumption.
Qed.

(** C3.  The sweep does not go by expiry.  It deletes a session exactly
    when the [createdAt] stamp that [storeSession] gave it lies more than
    one hour (3600000 ms) before the current time; every other session is
    kept unchanged and no session appears.  So a session that has not
    reached its [expiresAt] is deleted once it is older than an hour, and
    a session past its [expiresAt] that was stored within the hour is
    kept. *)
Theorem cleanup_deletes_by_age (st : SecureStorage.t) (now : Z) (sessionId : string) :
  (forall session, getSession st sessionId = Some session ->
     (getSession (cleanup st now) sessionId = None
      <-> AuthSession.createdAt session < now - 3600000)
     /\ (now - 3600000 <= AuthSession.createdAt session ->
         getSession (cleanup st now) sessionId = Some session)
     /\ (AuthSession.createdAt session < now - 3600000 ->
         now <= AuthSession.expiresAt session ->
         getSession (cleanup st now) sessionId = None)
     /\ (now - 3600000 <= AuthSession.createdAt session ->
         AuthSession.expiresAt session < now ->
         getSession (cleanup st now) sessionId = Some session))
  /\ (getSession st sessionId = None -> getSession (cleanup st now) sessionId = None)
  /\ users (cleanup st now) = users st
  /\ usedNonces (cleanup st now) = usedNonces st.
Proof.
  rewrite getSession_cleanup. change ONE_HOUR_MS with 3600000.
  split; [| split; [intros ->; reflexivity | split; reflexivity]].
  intros session ->.
  destruct (Z.ltb_spec (AuthSession.createdAt session) (now - 3600000)) as [Hold|Hnew].
  - split_and!; [tauto | lia | reflexivity | lia].
  - split_and!; [| reflexivity | lia | reflexivity]. split; [discriminate | lia].
Qed.
End Sweep.

(** The failing input of C3: two hours after alice's session was stored
    the sweep deletes it, six days and twenty-two hours before it
    expires. *)
Lemma cleanup_deletes_unexpired_session :
  SecureStorage.getSession Reference.store0 "6a01" = Some Reference.session_6a01
  /\ ~ (AuthSession.expiresAt Reference.session_6a01 < 7200000)
  /\ SecureStorage.getSession (SecureStorage.cleanup Reference.store0 7200000) "6a01" = None.
Proof.
  split; [| split].
  - vm_compute. reflexivity.
  - vm_compute. discriminate.
  - rewrite getSession_cleanup. vm_compute. reflexivity.
Qed.

Lemma cleanup_deletes_by_age_witness :
  SecureStorage.getSession (SecureStorage.cleanup Reference.store0 7200000) "6a01" = None
  /\ SecureStorage.getSession (SecureStorage.cleanup Reference.store0 3600000) "6a01"
     = Some Reference.session_6a01.
Proof.
  pose proof (cleanup_deletes_by_age Reference.store0 7200000 "6a01") as (Hold & _).
  pose proof (cleanup_deletes_by_age Reference.store0 3600000 "6a01") as (Hnew & _).
  split.
  - destruct (Hold Reference.session_6a01) as (_ & _ & Hlive & _);
      [vm_compute; reflexivity |].
    apply Hlive; [vm_compute; reflexivity | vm_compute; discriminate].
  - destruct (Hnew Reference.session_6a01) as (_ & Hkept & _);
      [vm_compute; reflexivity |].
    apply Hkept. vm_compute. discriminate.
Defined.

Section NonceSet.
Import SecureStorage.

Lemma JSSet_add_NoDup (s : JSSet.t) (x : string) : NoDup s -> NoDup (JSSet.add s x).
Proof.
  intros Hs. unfold JSSet.add, JSSet.has. case_bool_decide as Hin; [assumption |].
  apply NoDup_app. split; [assumption |]. split; [| apply NoDup_singleton].
  intros y Hy Hy'. apply list_elem_of_singleton in Hy'. subst y. contradiction.
Qed.

Lemma JSSet_add_elem (s : JSSet.t) (x y : string) :
  y ∈ JSSet.add s x <-> y ∈ s \/ y = x.
Proof.
  unfold JSSet.add, JSSet.has. case_bool_decide as Hin.
  - split; [auto | intros [Hy | ->]; assumption].
  - rewrite elem_of_app, list_elem_of_singleton. reflexivity.
Qed.

(** [new Set(arr)] of an array without repetitions lists the array. *)
Lemma JSSet_ofArray_foldl (acc arr : list string) :
  NoDup (acc ++ arr) -> foldl JSSet.add acc arr = acc ++ arr.
Proof.
  revert acc. induction arr as [|x arr IH]; intros acc Hnd; cbn.
  - rewrite app_nil_r. reflexivity.
  - assert (Hx : x ∉ acc).
    { apply NoDup_app in Hnd as (_ & Hdisj & _). intros Hin.
      apply (Hdisj x Hin). left. }
    unfold JSSet.add at 2. unfold JSSet.has.
    rewrite bool_decide_eq_false_2 by assumption.
    rewrite IH; rewrite <- app_assoc; [reflexivity | exact Hnd].
Qed.

Lemma JSSet_ofArray_NoDup (arr : list string) : NoDup arr -> JSSet.ofArray arr = arr.
Proof. intros Hnd. unfold JSSet.ofArray. apply (JSSet_ofArray_foldl [] arr Hnd). Qed.

Lemma slice_last_NoDup (n : nat) (arr : list string) :
  NoDup arr -> NoDup (JSSet.slice_last n arr).
Proof. intros Hnd. apply (sublist_NoDup _ arr Hnd). apply sublist_drop. Qed.

Lemma slice_last_length {A : Type} (n : nat) (arr : list A) :
  (n <= List.length arr)%nat -> List.length (JSSet.slice_last n arr) = n.
Proof. intros Hle. unfold JSSet.slice_last. rewrite length_drop. lia. Qed.

(** The set after a call, by cases on the size test. *)
Lemma addUsedNonce_set_cases (used : JSSet.t) (nonce : string) :
  NoDup used ->
  (NONCE_LIMIT < Z.of_nat (JSSet.size (JSSet.add used nonce))
   /\ addUsedNonce_set used nonce
      = JSSet.slice_last (Z.to_nat NONCE_KEEP) (JSSet.add used nonce))
  \/ (Z.of_nat (JSSet.size (JSSet.add used nonce)) <= NONCE_LIMIT
      /\ addUsedNonce_set used nonce = JSSet.add used nonce).
Proof.
  intros Hnd. unfold addUsedNonce_set. cbv zeta.
  destruct (Z.ltb_spec NONCE_LIMIT (Z.of_nat (JSSet.size (JSSet.add used nonce))))
    as [Hover | Hfit].
  - left. split; [assumption |]. unfold JSSet.toArray.
    apply JSSet_ofArray_NoDup, slice_last_NoDup, JSSet_add_NoDup, Hnd.
  - right. split; [assumption | reflexivity].
Qed.

Lemma addUsedNonce_set_ok (used : JSSet.t) (nonce : string) :
  NoDup used -> nonce_set_ok (addUsedNonce_set used nonce).
Proof.
  intros Hnd. unfold nonce_set_ok.
  destruct (addUsedNonce_set_cases used nonce Hnd) as [[Hover ->] | [Hfit ->]].
  - split; [apply slice_last_NoDup, JSSet_add_NoDup, Hnd |].
    unfold JSSet.size in *. rewrite slice_last_length; unfold NONCE_LIMIT, NONCE_KEEP in *; lia.
  - split; [apply JSSet_add_NoDup, Hnd | assumption].
Qed.

Lemma reachable_nonce_set_ok (calls : list string) :
  nonce_set_ok (foldl addUsedNonce_set [] calls).
Proof.
  induction calls as [|nonce calls IH] using rev_ind.
  - split; [apply NoDup_nil_2 | unfold NONCE_LIMIT; cbn; lia].
  - rewrite foldl_snoc. apply addUsedNonce_set_ok, IH.
Qed.

Lemma usedNonces_foldl (st : SecureStorage.t) (calls : list string) :
  usedNonces (foldl addUsedNonce st calls) = foldl addUsedNonce_set (usedNonces st) calls.
Proof.
  revert st. induction calls as [|n calls IH]; intros st; [reflexivity |].
  cbn [foldl]. rewrite IH. reflexivity.
Qed.

Lemma addUsedNonce_foldl_frame (st : SecureStorage.t) (calls : list string) :
  users (foldl addUsedNonce st calls) = users st
  /\ sessions (foldl addUsedNonce st calls) = sessions st.
Proof.
  revert st. induction calls as [|n calls IH]; intros st; [split; reflexivity |].
  cbn [foldl]. destruct (IH (addUsedNonce st n)) as [-> ->]. split; reflexivity.
Qed.

(** C9.  Start from a store whose nonce set is empty and make any
    sequence of [addUsedNonce] calls.  One more call leaves a set of at
    most 10000 nonces, [isNonceUsed] answers true for the nonce just
    added, and users and sessions are untouched.  When the nonce is new
    and the set held 10000 entries, so that the insertion takes it past
    10000, the set becomes exactly the last 5000 entries in insertion
    order, the new nonce being the last of them, and [isNonceUsed] is true
    for these and for no other nonce.  In every other case [isNonceUsed]
    is true afterwards for what it was true before and for the new
    nonce. *)
Theorem addUsedNonce_bounded (st0 : SecureStorage.t) (calls : list string)
    (nonce : string) :
  usedNonces st0 = [] ->
  let st := foldl addUsedNonce st0 calls in
  let st' := addUsedNonce st nonce in
  Z.of_nat (JSSet.size (usedNonces st')) <= 10000
  /\ isNonceUsed st' nonce = true
  /\ NoDup (usedNonces st')
  /\ users st' = users st0 /\ sessions st' = sessions st0
  /\ (isNonceUsed st nonce = false -> Z.of_nat (JSSet.size (usedNonces st)) = 10000 ->
        usedNonces st' = JSSet.slice_last 5000 (usedNonces st ++ [nonce])
        /\ JSSet.size (usedNonces st') = 5000%nat
        /\ last (usedNonces st') = Some nonce
        /\ (exists evicted, usedNonces st ++ [nonce] = evicted ++ usedNonces st')
        /\ forall n, isNonceUsed st' n = true
                     <-> n ∈ JSSet.slice_last 5000 (usedNonces st ++ [nonce]))
  /\ (isNonceUsed st nonce = true \/ Z.of_nat (JSSet.size (usedNonces st)) <> 10000 ->
        forall n, isNonceUsed st' n = true <-> isNonceUsed st n = true \/ n = nonce).
Proof.
  intros Hempty. cbv zeta.
  destruct (addUsedNonce_foldl_frame st0 calls) as [Husers Hsessions].
  set (st := foldl addUsedNonce st0 calls) in *.
  assert (Hset : usedNonces st = foldl addUsedNonce_set [] calls)
    by (unfold st; rewrite usedNonces_foldl, Hempty; reflexivity).
  destruct (reachable_nonce_set_ok calls) as [Hnd Hsize]. rewrite <- Hset in Hnd, Hsize.
  unfold isNonceUsed, addUsedNonce, JSSet.has.
  cbn [usedNonces users sessions with_usedNonces].
  set (used := usedNonces st) in *.
  destruct (addUsedNonce_set_ok used nonce Hnd) as [Hnd' Hsize'].
  assert (Hadd : nonce ∉ used -> JSSet.add used nonce = used ++ [nonce]).
  { intros Hnew. unfold JSSet.add, JSSet.has.
    rewrite bool_decide_eq_false_2 by assumption. reflexivity. }
  assert (Hkeep : nonce ∈ used -> JSSet.add used nonce = used).
  { intros Hold. unfold JSSet.add, JSSet.has.
    rewrite bool_decide_eq_true_2 by assumption. reflexivity. }
  split; [exact Hsize' |]. split; [| split; [exact Hnd' |]].
  - apply bool_decide_eq_true_2.
    destruct (addUsedNonce_set_cases used nonce Hnd) as [[Hover ->] | [Hfit ->]].
    + destruct (decide (nonce ∈ used)) as [Hold | Hnew].
      * rewrite (Hkeep Hold) in Hover. unfold NONCE_LIMIT, JSSet.size in *. lia.
      * rewrite (Hadd Hnew). unfold JSSet.slice_last. rewrite length_app. cbn.
        rewrite drop_app_le by (unfold NONCE_KEEP; lia). apply elem_of_app. right.
        apply list_elem_of_singleton. reflexivity.
    + apply JSSet_add_elem. right. reflexivity.
  - split; [exact Husers |]. split; [exact Hsessions |]. split.
    + intros Hnew Hfull. apply bool_decide_eq_false_1 in Hnew.
      destruct (addUsedNonce_set_cases used nonce Hnd) as [[_ ->] | [Hfit _]].
      2: { rewrite (Hadd Hnew) in Hfit. unfold NONCE_LIMIT, JSSet.size in *.
           rewrite length_app in Hfit. cbn in Hfit. lia. }
      rewrite (Hadd Hnew). change (Z.to_nat NONCE_KEEP) with 5000%nat.
      unfold JSSet.size in *.
      split; [reflexivity |].
      split; [apply slice_last_length; rewrite length_app; cbn; lia |].
      split; [| split].
      * unfold JSSet.slice_last. rewrite length_app. cbn.
        rewrite drop_app_le by lia. apply last_snoc.
      * exists (take (List.length (used ++ [nonce]) - 5000) (used ++ [nonce])).
        unfold JSSet.slice_last. symmetry. apply take_drop.
      * intros n. apply bool_decide_eq_true.
    + intros Hcase n. rewrite !bool_decide_eq_true.
      destruct (addUsedNonce_set_cases used nonce Hnd) as [[Hover _] | [_ ->]].
      * exfalso. destruct (decide (nonce ∈ used)) as [Hold | Hnew].
        -- rewrite (Hkeep Hold) in Hover. unfold NONCE_LIMIT, JSSet.size in *. lia.
        -- rewrite (Hadd Hnew) in Hover. unfold NONCE_LIMIT, JSSet.size in *.
           rewrite length_app in Hover. cbn in Hover.
           destruct Hcase as [Hold | Hsmall]; [| lia].
           apply bool_decide_eq_true_1 in Hold. contradiction.
      * apply JSSet_add_elem.
Qed.
End NonceSet.

Section NonceCalls.
Import SecureStorage.

(** As long as the calls present pairwise different nonces and there are
    at most 10000 of them, the set lists the calls. *)
Lemma addUsedNonce_distinct_fits (calls : list string) :
  NoDup calls -> Z.of_nat (List.length calls) <= NONCE_LIMIT ->
  foldl addUsedNonce_set [] calls = calls.
Proof.
  induction calls as [|nonce calls IH] using rev_ind; [reflexivity |].
  intros Hnd Hlen. rewrite length_app in Hlen. cbn in Hlen.
  apply NoDup_app in Hnd as (Hnd & Hdisj & _).
  rewrite foldl_snoc, IH by (assumption || lia).
  unfold addUsedNonce_set. cbv zeta. unfold JSSet.add, JSSet.has.
  rewrite bool_decide_eq_false_2.
  - unfold JSSet.size. rewrite length_app. cbn.
    destruct (Z.ltb_spec NONCE_LIMIT (Z.of_nat (List.length calls + 1))); [lia | reflexivity].
  - intros Hin. apply (Hdisj nonce Hin). left.
Qed.

(** With pairwise different nonces the set is always a tail of the call
    sequence: what was evicted was presented before everything kept. *)
Lemma addUsedNonce_distinct_suffix (calls : list string) :
  NoDup calls -> exists evicted, calls = evicted ++ foldl addUsedNonce_set [] calls.
Proof.
  induction calls as [|nonce calls IH] using rev_ind; [exists []; reflexivity |].
  intros Hnd. apply NoDup_app in Hnd as (Hnd & Hdisj & _).
  destruct (IH Hnd) as [evicted Hcalls].
  rewrite foldl_snoc. set (used := foldl addUsedNonce_set [] calls) in *.
  assert (Hfresh : nonce ∉ used).
  { intros Hin. apply (Hdisj nonce); [| left].
    rewrite Hcalls. apply elem_of_app. right. assumption. }
  assert (Hadd : JSSet.add used nonce = used ++ [nonce]).
  { unfold JSSet.add, JSSet.has. rewrite bool_decide_eq_false_2 by assumption. reflexivity. }
  destruct (addUsedNonce_set_cases used nonce) as [[_ ->] | [_ ->]].
  - destruct (reachable_nonce_set_ok calls) as [Hok _]. exact Hok.
  - rewrite Hadd. unfold JSSet.slice_last.
    exists (evicted ++ take (List.length (used ++ [nonce]) - Z.to_nat NONCE_KEEP)
                            (used ++ [nonce])).
    rewrite <- app_assoc, take_drop, app_assoc, <- Hcalls. reflexivity.
  - rewrite Hadd. exists evicted. rewrite app_assoc, <- Hcalls. reflexivity.
Qed.
End NonceCalls.

(** The overflow is reached: in alice's store, after the 10000 nonces
    "0" ... "9999" the nonce "10000" leaves the 5000 latest, itself the
    last one and reported as used. *)
Lemma addUsedNonce_bounded_witness :
  let calls : list string := pretty <$> seq 0 (Z.to_nat 10000) in
  let st' :=
    SecureStorage.addUsedNonce
      (foldl SecureStorage.addUsedNonce Reference.store0 calls)
      (pretty (Z.to_nat 10000)) in
  JSSet.size (SecureStorage.usedNonces st') = 5000%nat
  /\ last (SecureStorage.usedNonces st') = Some (pretty (Z.to_nat 10000))
  /\ SecureStorage.isNonceUsed st' (pretty (Z.to_nat 10000)) = true.
Proof.
  cbv zeta.
  pose proof (addUsedNonce_bounded Reference.store0 (pretty <$> seq 0 (Z.to_nat 10000))
                (pretty (Z.to_nat 10000)) eq_refl) as (_ & Hused & _ & _ & _ & Hover & _).
  cbv zeta in Hover, Hused.
  assert (Hnd : NoDup (pretty <$> seq 0 (Z.to_nat 10000) : list string))
    by (apply NoDup_fmap_2; [apply _ | apply NoDup_seq]).
  assert (Hlen : List.length (pretty <$> seq 0 (Z.to_nat 10000) : list string)
                 = Z.to_nat 10000)
    by (rewrite length_fmap, length_seq; reflexivity).
  assert (Hset : SecureStorage.usedNonces
                   (foldl SecureStorage.addUsedNonce Reference.store0
                      (pretty <$> seq 0 (Z.to_nat 10000)))
                 = pretty <$> seq 0 (Z.to_nat 10000)).
  { rewrite usedNonces_foldl.
    change (SecureStorage.usedNonces Reference.store0) with (@nil string).
    apply addUsedNonce_distinct_fits;
      [assumption | rewrite Hlen; unfold SecureStorage.NONCE_LIMIT; lia]. }
  destruct Hover as (_ & Hsize & Hlast & _).
  - unfold SecureStorage.isNonceUsed, JSSet.has. rewrite Hset.
    apply bool_decide_eq_false_2.
    intros Hin. apply list_elem_of_fmap in Hin as (k & Heq & Hk).
    apply (inj pretty) in Heq. subst k. apply elem_of_seq in Hk. lia.
  - unfold JSSet.size. rewrite Hset, Hlen. lia.
  - split; [exact Hsize |]. split; [exact Hlast | exact Hused].
Defined.

(** ** Sessions and tokens *)

Section Auth.
Import SecureStorage AuthService.
Context `{JwtLib} `{BcryptLib}.
Variable JWT_SECRET : string.

Lemma verifyToken_valid_iff (st : SecureStorage.t) (clk : Clock) (token : string) :
  VerifyResult.valid (verifyToken JWT_SECRET st clk token) = true
  <-> exists decoded session,
        jwt_verify token JWT_SECRET (now clk) = Some decoded
        /\ getSession st (JWTPayload.jti decoded) = Some session
        /\ now clk <= AuthSession.expiresAt session.
Proof.
  unfold verifyToken.
  destruct (jwt_verify token JWT_SECRET (now clk)) as [decoded|].
  - destruct (getSession st (JWTPayload.jti decoded)) as [session|] eqn:Hs.
    + destruct (Z.ltb_spec (AuthSession.expiresAt session) (now clk)) as [Hexp|Hlive]; cbn.
      * split; [discriminate |]. intros (d & s & [= <-] & Hs' & Hle).
        rewrite Hs in Hs'. injection Hs' as <-. lia.
      * split; [| reflexivity]. intros _. exists decoded, session. auto.
    + cbn. split; [discriminate |]. intros (d & s & [= <-] & Hs' & _).
      rewrite Hs in Hs'. discriminate.
  - cbn. split; [discriminate |]. intros (d & s & [=] & _).
Qed.

Lemma getSession_deleteSession (st : SecureStorage.t) (sessionId : string) :
  getSession (snd (deleteSession st sessionId)) sessionId = None.
Proof. unfold getSession, deleteSession. cbn. apply lookup_delete_eq. Qed.

(** C6.  [verifyToken] accepts a token exactly when the token verifies
    under the secret at the current time, the session named by its [jti]
    is in the store, and that session is not past its [expiresAt]; the
    accepted answer carries the decoded payload.  Once the session has been
    deleted (by [deleteSession], hence by [logout]) a token that still
    verifies is rejected with 'Session expired'. *)
Theorem verifyToken_requires_live_session
    (st : SecureStorage.t) (clk : Clock) (token : string) :
  (VerifyResult.valid (verifyToken JWT_SECRET st clk token) = true
   <-> exists decoded session,
         jwt_verify token JWT_SECRET (now clk) = Some decoded
         /\ getSession st (JWTPayload.jti decoded) = Some session
         /\ now clk <= AuthSession.expiresAt session)
  /\ (forall decoded,
        jwt_verify token JWT_SECRET (now clk) = Some decoded ->
        (VerifyResult.valid (verifyToken JWT_SECRET st clk token) = true ->
           VerifyResult.payload (verifyToken JWT_SECRET st clk token) = Some decoded)
        /\ verifyToken JWT_SECRET (snd (deleteSession st (JWTPayload.jti decoded))) clk token
           = {| VerifyResult.valid := false; VerifyResult.payload := None;
                VerifyResult.message := Some "Session expired" |}
        /\ verifyToken JWT_SECRET (snd (logout st (JWTPayload.jti decoded))) clk token
           = {| VerifyResult.valid := false; VerifyResult.payload := None;
                VerifyResult.message := Some "Session expired" |}).
Proof.
  split; [apply verifyToken_valid_iff |].
  intros decoded Hjwt. unfold logout. cbn [snd].
  split.
  - unfold verifyToken. rewrite Hjwt.
    destruct (getSession st (JWTPayload.jti decoded)) as [session|]; [| discriminate].
    destruct (AuthSession.expiresAt session <? now clk)%Z; [discriminate | reflexivity].
  - assert (Hgone : verifyToken JWT_SECRET (snd (deleteSession st (JWTPayload.jti decoded)))
                      clk token
                    = {| VerifyResult.valid := false; VerifyResult.payload := None;
                         VerifyResult.message := Some "Session expired" |}).
    { unfold verifyToken. rewrite Hjwt, getSession_deleteSession. reflexivity. }
    split; exact Hgone.
Qed.

(** C7.  A login under an address that no stored user has and a login
    under a stored address with a password that does not match its hash
    give the same answer, whatever the clocks and the random draws of the
    two calls: success false with the message 'Invalid credentials' and no
    other field; neither call changes the store. *)
Theorem login_failures_indistinguishable
    (stringify : EncryptedData.t -> string) (st : SecureStorage.t)
    (clk1 clk2 : Clock) (rnd1 rnd2 : list byte)
    (unknownEmail password1 knownEmail password2 : string) (user : StoredUser.t) :
  getUserByEmail st unknownEmail = None ->
  getUserByEmail st knownEmail = Some user ->
  bcrypt_compare password2 (StoredUser.passwordHash user) = false ->
  login JWT_SECRET stringify st clk1 rnd1 unknownEmail password1
    = login JWT_SECRET stringify st clk2 rnd2 knownEmail password2
  /\ login JWT_SECRET stringify st clk1 rnd1 unknownEmail password1
     = ({| LoginResult.success := false;
           LoginResult.message := "Invalid credentials";
           LoginResult.user := None;
           LoginResult.tokens := None;
           LoginResult.encryptedPrivateKey := None |}, st).
Proof.
  intros Hunknown Hknown Hwrong. unfold login.
  rewrite Hunknown, Hknown, Hwrong. cbn. split; reflexivity.
Qed.

Lemma getSession_storeSession (st : SecureStorage.t) (t : Z) (sessionId other : string)
    (sessionData : AuthSession.t) :
  getSession (storeSession st t sessionId sessionData) other
  = if bool_decide (sessionId = other)
    then Some {| AuthSession.userId := AuthSession.userId sessionData;
                 AuthSession.email := AuthSession.email sessionData;
                 AuthSession.publicKey := AuthSession.publicKey sessionData;
                 AuthSession.sessionId := AuthSession.sessionId sessionData;
                 AuthSession.createdAt := t;
                 AuthSession.expiresAt := AuthSession.expiresAt sessionData |}
    else getSession st other.
Proof.
  unfold getSession, storeSession. cbn [sessions with_sessions].
  rewrite lookup_insert. repeat case_decide; repeat case_bool_decide; congruence.
Qed.

(** The outcome of a refresh whose token verifies and whose session is
    live. *)
Lemma refreshToken_success (st : SecureStorage.t) (clk : Clock) (rnd : list byte)
    (token : string) (decoded : JWTPayload.t) (session : AuthSession.t) :
  jwt_verify token JWT_SECRET (now clk) = Some decoded ->
  getSession st (JWTPayload.jti decoded) = Some session ->
  now clk <= AuthSession.expiresAt session ->
  RefreshResult.success (fst (refreshToken JWT_SECRET st clk rnd token)) = true
  /\ exists session',
       getSession (snd (refreshToken JWT_SECRET st clk rnd token)) (JWTPayload.jti decoded)
         = Some session'
       /\ (AuthSession.expiresAt session' = AuthSession.expiresAt session
           \/ AuthSession.expiresAt session' = now clk + SEVEN_DAYS_MS).
Proof.
  intros Hjwt Hs Hlive. unfold refreshToken. rewrite Hjwt, Hs.
  destruct (Z.ltb_spec (AuthSession.expiresAt session) (now clk)) as [Hexp|_]; [lia |].
  cbn. split; [reflexivity |].
  rewrite getSession_storeSession. case_bool_decide.
  - eexists. split; [reflexivity |]. right. reflexivity.
  - exists session. split; [assumption |]. left. reflexivity.
Qed.

(** What a successful refresh returns and stores. *)
Lemma refreshToken_outcome (st : SecureStorage.t) (clk : Clock) (rnd : list byte)
    (token : string) (decoded : JWTPayload.t) (session : AuthSession.t) :
  jwt_verify token JWT_SECRET (now clk) = Some decoded ->
  getSession st (JWTPayload.jti decoded) = Some session ->
  now clk <= AuthSession.expiresAt session ->
  refreshToken JWT_SECRET st clk rnd token
  = ({| RefreshResult.success := true;
        RefreshResult.tokens :=
          Some {| Tokens.accessToken :=
                    jwt_sign (JWTPayload.userId decoded) (JWTPayload.email decoded)
                      (SecureCrypto.toString_hex rnd) JWT_SECRET ACCESS_TOKEN_EXPIRY (now clk);
                  Tokens.refreshToken :=
                    jwt_sign (JWTPayload.userId decoded) (JWTPayload.email decoded)
                      (SecureCrypto.toString_hex rnd) JWT_SECRET REFRESH_TOKEN_EXPIRY (now clk) |};
        RefreshResult.message := None |},
     storeSession st (now clk) (SecureCrypto.toString_hex rnd)
       {| AuthSession.userId := AuthSession.userId session;
          AuthSession.email := AuthSession.email session;
          AuthSession.publicKey := AuthSession.publicKey session;
          AuthSession.sessionId := SecureCrypto.toString_hex rnd;
          AuthSession.createdAt := AuthSession.createdAt session;
          AuthSession.expiresAt := now clk + SEVEN_DAYS_MS |}).
Proof.
  intros Hjwt Hs Hlive. unfold refreshToken. rewrite Hjwt, Hs.
  destruct (Z.ltb_spec (AuthSession.expiresAt session) (now clk)) as [Hexp|_]; [lia |].
  reflexivity.
Qed.

(** C2 (amended).  A successful [refreshToken] call issues a new
    access/refresh pair signed for a fresh [jti], stores one session under
    that [jti] (the old session's user, address and key, stamped with the
    time of the call and expiring seven days later) and changes nothing
    else: every other session, the users and the nonces are as before.
    The store therefore still holds a session under the old token's [jti],
    and the same refresh token presented again succeeds again, as long as
    it still verifies and neither the old session nor seven days from the
    first refresh have run out. *)
Theorem refreshToken_old_token_still_accepted
    (st : SecureStorage.t) (clk clk' : Clock) (rnd rnd' : list byte)
    (token : string) (decoded : JWTPayload.t) (session : AuthSession.t) :
  jwt_verify token JWT_SECRET (now clk) = Some decoded ->
  getSession st (JWTPayload.jti decoded) = Some session ->
  now clk <= AuthSession.expiresAt session ->
  jwt_verify token JWT_SECRET (now clk') = Some decoded ->
  now clk' <= AuthSession.expiresAt session ->
  now clk' <= now clk + SEVEN_DAYS_MS ->
  let first := refreshToken JWT_SECRET st clk rnd token in
  let second := refreshToken JWT_SECRET (snd first) clk' rnd' token in
  let jti := SecureCrypto.toString_hex rnd in
  RefreshResult.success (fst first) = true
  /\ RefreshResult.tokens (fst first)
     = Some {| Tokens.accessToken :=
                 jwt_sign (JWTPayload.userId decoded) (JWTPayload.email decoded) jti
                   JWT_SECRET ACCESS_TOKEN_EXPIRY (now clk);
               Tokens.refreshToken :=
                 jwt_sign (JWTPayload.userId decoded) (JWTPayload.email decoded) jti
                   JWT_SECRET REFRESH_TOKEN_EXPIRY (now clk) |}
  /\ getSession (snd first) jti
     = Some {| AuthSession.userId := AuthSession.userId session;
               AuthSession.email := AuthSession.email session;
               AuthSession.publicKey := AuthSession.publicKey session;
               AuthSession.sessionId := jti;
               AuthSession.createdAt := now clk;
               AuthSession.expiresAt := now clk + SEVEN_DAYS_MS |}
  /\ (forall other, other <> jti -> getSession (snd first) other = getSession st other)
  /\ users (snd first) = users st
  /\ usedNonces (snd first) = usedNonces st
  /\ is_Some (getSession (snd first) (JWTPayload.jti decoded))
  /\ RefreshResult.success (fst second) = true.
Proof.
  intros Hjwt Hs Hlive Hjwt' Hlive' Hweek. cbv zeta.
  destruct (refreshToken_success st clk rnd token decoded session Hjwt Hs Hlive)
    as (Hok & session' & Hs' & Hexp).
  rewrite (refreshToken_outcome st clk rnd token decoded session Hjwt Hs Hlive) in *.
  cbn [fst snd RefreshResult.success RefreshResult.tokens] in *.
  split_and!; try reflexivity.
  - rewrite getSession_storeSession, bool_decide_eq_true_2 by reflexivity. reflexivity.
  - intros other Hne.
    rewrite getSession_storeSession, bool_decide_eq_false_2 by congruence. reflexivity.
  - rewrite Hs'. eauto.
  - apply (refreshToken_success _ clk' rnd' token decoded session' Hjwt' Hs').
    destruct Hexp as [-> | ->]; assumption.
Qed.
End Auth.

(** C2 as stated fails: alice's refresh token is accepted at 1 s and,
    presented again at 2 s, is accepted once more. *)
Lemma refreshToken_accepts_old_token_twice :
  let first :=
    AuthService.refreshToken (H := Reference.jwt) Reference.SECRET Reference.store0
      (AuthService.mkClock 1000 "1970-01-01T00:00:01.000Z") [x6a; x02]
      Reference.refresh_6a01 in
  let second :=
    AuthService.refreshToken (H := Reference.jwt) Reference.SECRET (snd first)
      (AuthService.mkClock 2000 "1970-01-01T00:00:02.000Z") [x6a; x03]
      Reference.refresh_6a01 in
  RefreshResult.success (fst first) = true
  /\ RefreshResult.tokens (fst first)
     = Some {| Tokens.accessToken :=
                 AuthService.jwt_sign (JwtLib := Reference.jwt)
                   "u1" "alice@example.com" "6a02" Reference.SECRET "15m" 1000;
               Tokens.refreshToken :=
                 AuthService.jwt_sign (JwtLib := Reference.jwt)
                   "u1" "alice@example.com" "6a02" Reference.SECRET "7d" 1000 |}
  /\ RefreshResult.success (fst second) = true.
Proof. vm_compute. auto. Qed.

Lemma refreshToken_old_token_still_accepted_witness :
  let first :=
    AuthService.refreshToken (H := Reference.jwt) Reference.SECRET Reference.store0
      (AuthService.mkClock 1000 "1970-01-01T00:00:01.000Z") [x6a; x02]
      Reference.refresh_6a01 in
  let second :=
    AuthService.refreshToken (H := Reference.jwt) Reference.SECRET (snd first)
      (AuthService.mkClock 2000 "1970-01-01T00:00:02.000Z") [x6a; x03]
      Reference.refresh_6a01 in
  RefreshResult.success (fst first) = true
  /\ (AuthSession.expiresAt <$> SecureStorage.getSession (snd first) "6a02")
     = Some 604801000
  /\ is_Some (SecureStorage.getSession (snd first) "6a01")
  /\ RefreshResult.success (fst second) = true.
Proof.
  cbv zeta.
  destruct (refreshToken_old_token_still_accepted (H := Reference.jwt) Reference.SECRET
              Reference.store0
              (AuthService.mkClock 1000 "1970-01-01T00:00:01.000Z")
              (AuthService.mkClock 2000 "1970-01-01T00:00:02.000Z")
              [x6a; x02] [x6a; x03] Reference.refresh_6a01
              Reference.payload_6a01 Reference.session_6a01)
    as (Hfirst & _ & Hnew & _ & _ & _ & Hold & Hsecond);
    try (vm_compute; first [reflexivity | discriminate]).
  split; [exact Hfirst |]. split; [| split; [exact Hold | exact Hsecond]].
  change (SecureCrypto.toString_hex [x6a; x02]) with "6a02" in Hnew. rewrite Hnew. reflexivity.
Defined.

Lemma verifyToken_requires_live_session_witness :
  VerifyResult.valid
    (AuthService.verifyToken (H := Reference.jwt) Reference.SECRET Reference.store0
       (AuthService.mkClock 1000 "1970-01-01T00:00:01.000Z") Reference.refresh_6a01) = true
  /\ VerifyResult.valid
       (AuthService.verifyToken (H := Reference.jwt) Reference.SECRET
          (snd (SecureStorage.deleteSession Reference.store0 "6a01"))
          (AuthService.mkClock 1000 "1970-01-01T00:00:01.000Z") Reference.refresh_6a01)
     = false.
Proof.
  pose proof (verifyToken_requires_live_session (H := Reference.jwt) Reference.SECRET
                Reference.store0 (AuthService.mkClock 1000 "1970-01-01T00:00:01.000Z")
                Reference.refresh_6a01) as (Hiff & Hdel).
  split.
  - apply Hiff. exists Reference.payload_6a01, Reference.session_6a01.
    repeat split; vm_compute; first [reflexivity | discriminate].
  - destruct (Hdel Reference.payload_6a01) as (_ & Hgone & _); [reflexivity |].
    change (JWTPayload.jti Reference.payload_6a01) with "6a01" in Hgone.
    rewrite Hgone. reflexivity.
Defined.

Lemma login_failures_indistinguishable_witness :
  AuthService.login (H := Reference.jwt) (H0 := Reference.bcrypt) Reference.SECRET
    (fun _ => "{}") Reference.store0
    (AuthService.mkClock 1000 "1970-01-01T00:00:01.000Z") [x6a; x02]
    "mallory@example.com" "Correct-Horse-42!"
  = AuthService.login (H := Reference.jwt) (H0 := Reference.bcrypt) Reference.SECRET
      (fun _ => "{}") Reference.store0
      (AuthService.mkClock 2000 "1970-01-01T00:00:02.000Z") [x6a; x03]
      "alice@example.com" "WrongPassword".
Proof.
  apply (login_failures_indistinguishable (H := Reference.jwt) (H0 := Reference.bcrypt)
           Reference.SECRET (fun _ => "{}") Reference.store0
           (AuthService.mkClock 1000 "1970-01-01T00:00:01.000Z")
           (AuthService.mkClock 2000 "1970-01-01T00:00:02.000Z")
           [x6a; x02] [x6a; x03]
           "mallory@example.com" "Correct-Horse-42!" "alice@example.com" "WrongPassword"
           (SecureStorage.touch Reference.alice "1970-01-01T00:00:00.000Z" true));
    vm_compute; reflexivity.
Defined.

(** ** Heartbeat *)

Section JSMapFacts.
Context {V : Type}.

Lemma JSMap_get_not_key (m : JSMap.t V) (k : string) :
  k ∉ JSMap.keys m -> JSMap.get m k = None.
Proof.
  induction m as [|[k' v] rest IH]; [reflexivity |].
  cbn. intros Hk. apply not_elem_of_cons in Hk as [Hne Hrest].
  rewrite bool_decide_eq_false_2 by congruence. auto.
Qed.

Lemma JSMap_get_elem (m : JSMap.t V) (k : string) (v : V) :
  JSMap.get m k = Some v -> (k, v) ∈ m.
Proof.
  induction m as [|[k' v'] rest IH]; [discriminate |].
  cbn. case_bool_decide as Hk.
  - intros [= ->]. subst k'. left.
  - intros Hget. right. auto.
Qed.

Lemma JSMap_elem_get (m : JSMap.t V) (k : string) (v : V) :
  NoDup (JSMap.keys m) -> (k, v) ∈ m -> JSMap.get m k = Some v.
Proof.
  induction m as [|[k' v'] rest IH]; [intros _ Hin; inversion Hin |].
  cbn. intros Hnd Hin. apply NoDup_cons in Hnd as [Hfresh Hnd].
  apply elem_of_cons in Hin as [[= -> ->] | Hin].
  - rewrite bool_decide_eq_true_2; reflexivity.
  - rewrite bool_decide_eq_false_2; [auto |].
    intros ->. apply Hfresh. apply list_elem_of_fmap. exists (k, v). auto.
Qed.

Lemma JSMap_get_set (m : JSMap.t V) (k k' : string) (v : V) :
  JSMap.get (JSMap.set m k v) k' = if bool_decide (k = k') then Some v else JSMap.get m k'.
Proof.
  induction m as [|[k0 v0] rest IH]; cbn.
  - reflexivity.
  - destruct (bool_decide (k0 = k)) eqn:Hk0; cbn.
    + apply bool_decide_eq_true_1 in Hk0. subst k0.
      destruct (bool_decide (k = k')); reflexivity.
    + rewrite IH. apply bool_decide_eq_false_1 in Hk0.
      repeat case_bool_decide; congruence.
Qed.

Lemma JSMap_keys_set (m : JSMap.t V) (k : string) (v w : V) :
  JSMap.get m k = Some w -> JSMap.keys (JSMap.set m k v) = JSMap.keys m.
Proof.
  induction m as [|[k0 v0] rest IH]; [discriminate |].
  cbn. case_bool_decide as Hk; cbn.
  - intros _. subst k0. reflexivity.
  - intros Hget. unfold JSMap.keys in IH. rewrite IH by assumption. reflexivity.
Qed.
End JSMapFacts.

Section Heartbeat.
Import ExtendedWebSocket WebSocketManager.

Lemma heartbeat_keys_sublist (clients : JSMap.t ExtendedWebSocket.t) :
  JSMap.keys (fst (heartbeat clients)) `sublist_of` JSMap.keys clients.
Proof.
  induction clients as [|[k ws] rest IH]; cbn; [constructor |].
  destruct (heartbeat rest) as [rest' acts]. cbn in IH.
  destruct (isAlive ws); cbn.
  - apply sublist_skip. exact IH.
  - apply sublist_cons. exact IH.
Qed.

Lemma heartbeat_NoDup (clients : JSMap.t ExtendedWebSocket.t) :
  NoDup (JSMap.keys clients) -> NoDup (JSMap.keys (fst (heartbeat clients))).
Proof. intros Hnd. exact (sublist_NoDup _ _ Hnd (heartbeat_keys_sublist clients)). Qed.

(** The registry after a sweep, key by key. *)
Lemma heartbeat_get (clients : JSMap.t ExtendedWebSocket.t) (k : string) :
  NoDup (JSMap.keys clients) ->
  JSMap.get (fst (heartbeat clients)) k
  = match JSMap.get clients k with
    | Some ws => if isAlive ws then Some (set_isAlive ws false) else None
    | None => None
    end.
Proof.
  induction clients as [|[k0 ws0] rest IH]; [reflexivity |].
  cbn. intros Hnd. apply NoDup_cons in Hnd as [Hfresh Hnd]. specialize (IH Hnd).
  pose proof (heartbeat_keys_sublist rest) as Hsub.
  destruct (heartbeat rest) as [rest' acts]. cbn in IH, Hsub.
  case_bool_decide as Hk.
  - subst k0. destruct (isAlive ws0); cbn.
    + rewrite bool_decide_eq_true_2; reflexivity.
    + apply JSMap_get_not_key. intros Hin. apply Hfresh.
      exact (elem_of_sublist _ _ _ Hin Hsub).
  - destruct (isAlive ws0); cbn; [rewrite bool_decide_eq_false_2 by assumption |]; exact IH.
Qed.

(** What a sweep does to the socket found under a key. *)
Lemma heartbeat_actions (clients : JSMap.t ExtendedWebSocket.t) (k : string)
    (ws : ExtendedWebSocket.t) :
  JSMap.get clients k = Some ws ->
  (isAlive ws = true -> Ping k ∈ snd (heartbeat clients))
  /\ (isAlive ws = false -> Terminate k ∈ snd (heartbeat clients)).
Proof.
  induction clients as [|[k0 ws0] rest IH]; [discriminate |].
  cbn. destruct (heartbeat rest) as [rest' acts]. cbn in IH.
  case_bool_decide as Hk.
  - intros [= ->]. subst k0. split; intros ->; cbn; left.
  - intros Hget. destruct (IH Hget) as [Hping Hterm].
    split; intros Hflag; destruct (isAlive ws0); cbn; right; auto.
Qed.

Lemma heartbeat_descends (clients : JSMap.t ExtendedWebSocket.t) :
  NoDup (JSMap.keys clients) -> descends_from clients (fst (heartbeat clients)).
Proof.
  intros Hnd k ws'. rewrite heartbeat_get by assumption.
  destruct (JSMap.get clients k) as [ws|]; [| discriminate].
  destruct (isAlive ws); [| discriminate].
  intros [= <-]. exists ws. split; reflexivity.
Qed.

Lemma pong_get (clients : JSMap.t ExtendedWebSocket.t) (k k' : string) :
  JSMap.get (pong clients k) k'
  = if bool_decide (k = k')
    then (fun ws => set_isAlive ws true) <$> JSMap.get clients k'
    else JSMap.get clients k'.
Proof.
  unfold pong. destruct (JSMap.get clients k) as [ws|] eqn:Hget.
  - rewrite JSMap_get_set. case_bool_decide as Hk; [| reflexivity].
    subst k'. rewrite Hget. reflexivity.
  - case_bool_decide as Hk; [| reflexivity]. subst k'. rewrite Hget. reflexivity.
Qed.

Lemma pong_keys (clients : JSMap.t ExtendedWebSocket.t) (k : string) :
  JSMap.keys (pong clients k) = JSMap.keys clients.
Proof.
  unfold pong. destruct (JSMap.get clients k) as [ws|] eqn:Hget; [| reflexivity].
  exact (JSMap_keys_set clients k _ ws Hget).
Qed.

Lemma pong_descends (clients : JSMap.t ExtendedWebSocket.t) (k : string) :
  descends_from clients (pong clients k).
Proof.
  intros k' ws'. rewrite pong_get. case_bool_decide.
  - destruct (JSMap.get clients k') as [ws|]; [| discriminate].
    intros [= <-]. exists ws. split; reflexivity.
  - intros Hget. exists ws'. split; [assumption | reflexivity].
Qed.

Lemma descends_from_refl (c : JSMap.t ExtendedWebSocket.t) : descends_from c c.
Proof. intros k ws Hget. exists ws. split; [assumption | reflexivity]. Qed.

Lemma descends_from_trans (a b c : JSMap.t ExtendedWebSocket.t) :
  descends_from a b -> descends_from b c -> descends_from a c.
Proof.
  intros Hab Hbc k ws Hget.
  destruct (Hbc k ws Hget) as (wb & Hb & Heb).
  destruct (Hab k wb Hb) as (wa & Ha & Hea).
  exists wa. split; [assumption | congruence].
Qed.

(** Between two sweeps, events that are quiet for [k] leave the socket
    under [k] as it is. *)
Lemma run_quiet (st : WebSocketManager.t) (k : string) (evs : list Event) :
  Forall (quiet_for k) evs ->
  NoDup (JSMap.keys (clients st)) ->
  JSMap.get (clients (run st evs)) k = JSMap.get (clients st) k
  /\ NoDup (JSMap.keys (clients (run st evs)))
  /\ descends_from (clients st) (clients (run st evs))
  /\ exists acts, performed (run st evs) = performed st ++ acts.
Proof.
  intros Hquiet. revert st. induction Hquiet as [|ev evs Hev _ IH]; intros st Hnd.
  - cbn. split; [reflexivity |]. split; [assumption |].
    split; [apply descends_from_refl |]. exists []. rewrite app_nil_r. reflexivity.
  - change (run st (ev :: evs)) with (run (step st ev) evs).
    destruct ev as [|k'|nowIso em data]; cbn in Hev; [contradiction | |].
    + destruct (IH (step st (EvPong k'))) as (Hget & Hnd' & Hdesc & acts & Hacts).
      { cbn [step clients]. rewrite pong_keys. assumption. }
      rewrite Hget. cbn [step clients]. rewrite pong_get.
      rewrite bool_decide_eq_false_2 by assumption.
      split; [reflexivity |]. split; [assumption |]. split.
      * eapply descends_from_trans; [apply pong_descends | exact Hdesc].
      * exists acts. exact Hacts.
    + destruct (IH (step st (EvNotify nowIso em data))) as (Hget & Hnd' & Hdesc & acts & Hacts).
      { cbn [step clients]. assumption. }
      split; [exact Hget |]. split; [assumption |]. split; [exact Hdesc |].
      rewrite Hacts. cbn [step performed]. rewrite <- app_assoc. eauto.
Qed.

(** Nothing is sent when no registered socket carries the address. *)
Lemma notifyNewMessage_absent (clients : JSMap.t ExtendedWebSocket.t)
    (nowIso recipientEmail messageData : string) :
  (forall k ws, (k, ws) ∈ clients -> email ws <> Some recipientEmail) ->
  notifyNewMessage clients nowIso recipientEmail messageData = [].
Proof.
  intros Habsent. unfold notifyNewMessage.
  destruct (List.find _ clients) as [[k ws]|] eqn:Hfind; [| reflexivity].
  apply find_some in Hfind as [Hin Hmatch]. cbn in Hmatch.
  apply bool_decide_eq_true_1 in Hmatch.
  exfalso. apply (Habsent k ws); [| assumption].
  apply list_elem_of_In. exact Hin.
Qed.
End Heartbeat.

Section HeartbeatScenario.
Import ExtendedWebSocket WebSocketManager.

Lemma step_heartbeat (st : WebSocketManager.t) :
  step st EvHeartbeat
  = {| clients := fst (heartbeat (clients st));
       performed := performed st ++ snd (heartbeat (clients st)) |}.
Proof. cbn. destruct (heartbeat (clients st)). reflexivity. Qed.

(** C10.  In a registry (one socket per key): every socket that a
    sweep finds alive is pinged and has its flag cleared.  And for the
    socket under any key [k]: after a sweep, then any events other than a
    sweep or a pong of that socket, then a second sweep, the socket has been
    terminated and its entry is gone; if no other registered socket carried
    its address, a [notifyNewMessage] to that address then sends nothing and
    changes nothing. *)
Theorem heartbeat_removes_silent_connection (st : WebSocketManager.t) :
  NoDup (JSMap.keys (clients st)) ->
  (forall k ws, JSMap.get (clients st) k = Some ws -> isAlive ws = true ->
     Ping k ∈ snd (heartbeat (clients st))
     /\ JSMap.get (clients (step st EvHeartbeat)) k = Some (set_isAlive ws false))
  /\ (forall k ws between,
        JSMap.get (clients st) k = Some ws ->
        Forall (quiet_for k) between ->
        let st2 := run st (EvHeartbeat :: between ++ [EvHeartbeat]) in
        JSMap.get (clients st2) k = None
        /\ (exists acts, performed st2 = performed st ++ acts /\ Terminate k ∈ acts)
        /\ forall address nowIso messageData,
             email ws = Some address ->
             (forall k' ws', JSMap.get (clients st) k' = Some ws' -> k' <> k ->
                email ws' <> Some address) ->
             notifyNewMessage (clients st2) nowIso address messageData = []
             /\ step st2 (EvNotify nowIso address messageData) = st2).
Proof.
  intros Hnd. split.
  { intros k ws Hget Halive. split.
    - apply (heartbeat_actions _ _ _ Hget). assumption.
    - rewrite step_heartbeat. cbn [clients].
      rewrite heartbeat_get, Hget, Halive by assumption. reflexivity. }
  intros k ws between Hget Hquiet. cbv zeta.
  change (run st (EvHeartbeat :: between ++ [EvHeartbeat]))
    with (run (step st EvHeartbeat) (between ++ [EvHeartbeat])).
  unfold run. rewrite foldl_snoc. fold (run (step st EvHeartbeat) between).
  set (st1 := step st EvHeartbeat).
  assert (Hnd1 : NoDup (JSMap.keys (clients st1))).
  { unfold st1. rewrite step_heartbeat. apply heartbeat_NoDup, Hnd. }
  assert (Hdesc1 : descends_from (clients st) (clients st1)).
  { unfold st1. rewrite step_heartbeat. apply heartbeat_descends, Hnd. }
  assert (Hacts1 : performed st1 = performed st ++ snd (heartbeat (clients st))).
  { unfold st1. rewrite step_heartbeat. reflexivity. }
  assert (Hget1 : JSMap.get (clients st1) k
                  = if isAlive ws then Some (set_isAlive ws false) else None).
  { unfold st1. rewrite step_heartbeat. cbn [clients].
    rewrite heartbeat_get, Hget by assumption. reflexivity. }
  destruct (run_quiet st1 k between Hquiet Hnd1) as (Hgetq & Hndq & Hdescq & actsq & Hactsq).
  set (stq := run st1 between) in *.
  rewrite step_heartbeat. cbn [clients performed].
  assert (Hgone : JSMap.get (fst (heartbeat (clients stq))) k = None).
  { rewrite heartbeat_get, Hgetq, Hget1 by assumption.
    destruct (isAlive ws); reflexivity. }
  split; [exact Hgone |]. split.
  - exists (snd (heartbeat (clients st)) ++ actsq ++ snd (heartbeat (clients stq))).
    split.
    + rewrite Hactsq, Hacts1, <- !app_assoc. reflexivity.
    + destruct (isAlive ws) eqn:Halive.
      * apply elem_of_app. right. apply elem_of_app. right.
        rewrite Hget1 in Hgetq.
        apply (heartbeat_actions _ _ _ Hgetq). reflexivity.
      * apply elem_of_app. left. apply (heartbeat_actions _ _ _ Hget). assumption.
  - intros address nowIso messageData Hmail Hothers.
    assert (Hsilent : notifyNewMessage (fst (heartbeat (clients stq)))
                        nowIso address messageData = []).
    { apply notifyNewMessage_absent. intros k' ws' Hin.
      apply JSMap_elem_get in Hin; [| apply heartbeat_NoDup, Hndq].
      assert (Hk' : k' <> k) by (intros ->; rewrite Hgone in Hin; discriminate).
      destruct (heartbeat_descends _ Hndq k' ws' Hin) as (wq & Hq & Heq).
      destruct (Hdescq k' wq Hq) as (w1 & H1 & He1).
      destruct (Hdesc1 k' w1 H1) as (w0 & H0 & He0).
      rewrite <- Heq, <- He1, <- He0. exact (Hothers k' w0 H0 Hk'). }
    split; [exact Hsilent |].
    cbn [step clients performed]. rewrite Hsilent, app_nil_r. reflexivity.
Qed.
End HeartbeatScenario.

(** Alice's socket never answers, bob's does: after the second sweep
    alice's entry is gone, bob's is still there, and a message for alice
    is not sent. *)
Lemma heartbeat_removes_silent_connection_witness :
  let st2 :=
    WebSocketManager.run Reference.registry0
      (WebSocketManager.EvHeartbeat
       :: [WebSocketManager.EvPong "u2"] ++ [WebSocketManager.EvHeartbeat]) in
  JSMap.get (WebSocketManager.clients st2) "u1" = None
  /\ WebSocketManager.notifyNewMessage (WebSocketManager.clients st2)
       "2024-01-01T00:01:00.000Z" "alice@example.com" "{}" = [].
Proof.
  cbv zeta.
  pose proof (heartbeat_removes_silent_connection Reference.registry0) as Hrun.
  destruct Hrun as (_ & Hrun).
  { apply (bool_decide_unpack _). vm_compute. exact I. }
  specialize (Hrun "u1"
                (ExtendedWebSocket.mk (Some "u1") (Some "alice@example.com") true
                   ExtendedWebSocket.OPEN)
                [WebSocketManager.EvPong "u2"]).
  cbv zeta in Hrun.
  destruct Hrun as (Hgone & _ & Hsilent).
  - reflexivity.
  - repeat constructor. cbn. discriminate.
  - split; [exact Hgone |].
    apply (Hsilent "alice@example.com" "2024-01-01T00:01:00.000Z" "{}"); [reflexivity |].
    intros k' ws'. cbn. repeat case_bool_decide; intros Hget Hne;
      simplify_eq; cbn; congruence.
Defined.

Example heartbeat_two_sweeps_trace :
  WebSocketManager.run Reference.registry0
    [WebSocketManager.EvHeartbeat; WebSocketManager.EvPong "u2";
     WebSocketManager.EvHeartbeat;
     WebSocketManager.EvNotify "2024-01-01T00:01:00.000Z" "alice@example.com" "{}"]
  = {| WebSocketManager.clients :=
         [("u2", ExtendedWebSocket.mk (Some "u2") (Some "bob@example.com") false
                   ExtendedWebSocket.OPEN)];
       WebSocketManager.performed :=
         [WebSocketManager.Ping "u1"; WebSocketManager.Ping "u2";
          WebSocketManager.Terminate "u1"; WebSocketManager.Ping "u2"] |}.
Proof. vm_compute. reflexivity. Qed.

(** ** The cases of the repository's test suite, run on the model *)

Example validateEmail_cases :
  SecurityUtils.validateEmail <$>
    ["test@example.com"; "user.name@domain.co.uk"; "user+tag@example.org";
     "user123@test-domain.com"; "invalid-email"; "@domain.com"; "user@";
     "user@.com"; "user..user@domain.com"; "user@domain"; EmptyString]
  = [true; true; true; true; false; false; false; false; false; false; false].
Proof. vm_compute. reflexivity. Qed.

Example isReplayAttack_cases :
  let nonce1 := Reference.nonce0 in
  let nonce2 := "ff0102030405060708090a0b0c0d0e0f101112131415161718191a1b1c1d1e1f" in
  let '(r1, used1) := LuminaWebProtocol.isReplayAttack nonce1 [] in
  let '(r2, used2) := LuminaWebProtocol.isReplayAttack nonce1 used1 in
  let '(r3, used3) := LuminaWebProtocol.isReplayAttack nonce2 used2 in
  (r1, r2, r3) = (false, true, false) /\ used3 = [nonce1; nonce2].
Proof. vm_compute. auto. Qed.

Example validateMessage_tampered_payload :
  let tampered :=
    {| LWPMessage.version := LWPMessage.version Reference.envelope0;
       LWPMessage.type := LWPMessage.type Reference.envelope0;
       LWPMessage.from := LWPMessage.from Reference.envelope0;
       LWPMessage.to := LWPMessage.to Reference.envelope0;
       LWPMessage.timestamp := LWPMessage.timestamp Reference.envelope0;
       LWPMessage.nonce := LWPMessage.nonce Reference.envelope0;
       LWPMessage.signature := LWPMessage.signature Reference.envelope0;
       LWPMessage.payload := "[1]" |} in
  LuminaWebProtocol.validateMessage (H := Reference.crypto) (H0 := Reference.dates)
    1704067201000 tampered "rsa-public:01"
  = {| ValidationResult.isValid := false;
       ValidationResult.errors := ["Invalid message signature"] |}.
Proof. vm_compute. reflexivity. Qed.

Example login_then_verify :
  let '(answer, st) :=
    AuthService.login (H := Reference.jwt) (H0 := Reference.bcrypt) Reference.SECRET
      (fun _ => "{}") Reference.store0
      (AuthService.mkClock 1000 "1970-01-01T00:00:01.000Z") [x6a; x02]
      "alice@example.com" "Correct-Horse-42!" in
  LoginResult.success answer = true
  /\ LoginResult.tokens answer
     = Some {| Tokens.accessToken :=
                 AuthService.jwt_sign (JwtLib := Reference.jwt)
                   "u1" "alice@example.com" "6a02" Reference.SECRET "15m" 1000;
               Tokens.refreshToken :=
                 AuthService.jwt_sign (JwtLib := Reference.jwt)
                   "u1" "alice@example.com" "6a02" Reference.SECRET "7d" 1000 |}
  /\ (PublicUser.lastSeen <$> LoginResult.user answer) = Some "1970-01-01T00:00:01.000Z"
  /\ (AuthSession.expiresAt <$> SecureStorage.getSession st "6a02") = Some 604801000
  /\ (StoredUser.isOnline <$> SecureStorage.getUserById st "u1") = Some true.
Proof. vm_compute. auto 6. Qed.

(** * Further properties of the modelled code *)

(** ** Passwords *)

Section Passwords.
Import SecurityUtils.

Lemma exists_chars_impl (p q : ascii -> bool) (s : string) :
  (forall c, p c = true -> q c = true) ->
  exists_chars p s = true -> exists_chars q s = true.
Proof.
  intros Hpq. induction s as [|c s IH]; cbn; [discriminate |].
  intros Hp. apply orb_true_iff in Hp as [Hc | Hs]; apply orb_true_iff; auto.
Qed.

Lemma is_special_not_alnum (c : ascii) : is_special c = true -> is_alnum c = false.
Proof.
  destruct c as [[] [] [] [] [] [] [] []]; vm_compute; intros H;
    first [reflexivity | discriminate H].
Qed.

Lemma validatePassword_valid_iff (password : string) :
  fst (validatePassword password) = true
  <-> (12 <= String.length password)%nat
      /\ exists_chars is_upper password = true
      /\ exists_chars is_lower password = true
      /\ exists_chars is_digit password = true
      /\ exists_chars is_special password = true.
Proof.
  unfold validatePassword. cbv zeta. cbn [fst].
  destruct (Nat.ltb_spec (String.length password) 12) as [Hshort | Hlong];
    destruct (exists_chars is_upper password);
    destruct (exists_chars is_lower password);
    destruct (exists_chars is_digit password);
    destruct (exists_chars is_special password); cbn;
    (split; [first [discriminate | intros _; repeat split; (reflexivity || lia)]
            | intros (Hlen & Hu & Hl & Hd & Hs);
              first [discriminate | lia | reflexivity]]).
Qed.

(** X1.  A password that [validatePassword] accepts gets the highest
    score, 5, from [checkPasswordStrength]. *)
Theorem valid_password_has_top_strength (password : string) :
  fst (SecurityUtils.validatePassword password) = true ->
  SecurityUtils.checkPasswordStrength password = 5.
Proof.
  intros Hvalid. apply validatePassword_valid_iff in Hvalid
    as (Hlen & Hu & Hl & Hd & Hs).
  assert (Hother : exists_chars (fun c => negb (is_alnum c)) password = true).
  { apply (exists_chars_impl is_special); [| assumption].
    intros c Hc. rewrite (is_special_not_alnum c Hc). reflexivity. }
  unfold checkPasswordStrength. cbv zeta. rewrite Hu, Hl, Hd, Hother.
  destruct (Nat.leb_spec 8 (String.length password)); [| lia].
  destruct (Nat.leb_spec 12 (String.length password)); [| lia].
  destruct (16 <=? String.length password)%nat; reflexivity.
Qed.
End Passwords.

Lemma valid_password_has_top_strength_witness :
  SecurityUtils.checkPasswordStrength "MyStr0ng!P@ssw0rd" = 5.
Proof. apply valid_password_has_top_strength. reflexivity. Defined.

(** The converse fails: sixteen letters and digits score 5 and are not
    accepted. *)
Example top_strength_not_valid :
  SecurityUtils.checkPasswordStrength "Abcdefghijklmno1" = 5
  /\ SecurityUtils.validatePassword "Abcdefghijklmno1"
     = (false, ["Password must contain at least one special character"]).
Proof. vm_compute. auto. Qed.

(** ** sanitizeInput *)

Section Sanitize.
Import SecurityUtils.

Lemma forall_chars_filter (p : ascii -> bool) (s : string) :
  forall_chars p (filter_chars p s) = true.
Proof.
  induction s as [|c s IH]; [reflexivity |]. cbn.
  destruct (p c) eqn:Hc; [cbn; rewrite Hc, IH; reflexivity | exact IH].
Qed.

Lemma forall_chars_remove_literal_ci (q : ascii -> bool) (p : string) (s : string) :
  forall_chars q s = true ->
  forall skip, forall_chars q (remove_literal_ci p skip s) = true.
Proof.
  induction s as [|c s IH]; [reflexivity |].
  intros Hq skip. cbn [forall_chars] in Hq. apply andb_true_iff in Hq as [Hc Hs].
  cbn [remove_literal_ci]. destruct skip as [|k]; [| apply IH; assumption].
  destruct (starts_with_ci p (String c s)); [apply IH; assumption |].
  cbn. rewrite Hc. apply IH. assumption.
Qed.

Lemma forall_chars_remove_on_handlers (q : ascii -> bool) (s : string) :
  forall_chars q s = true ->
  forall skip, forall_chars q (remove_on_handlers skip s) = true.
Proof.
  induction s as [|c s IH]; [reflexivity |].
  intros Hq skip. cbn [forall_chars] in Hq. apply andb_true_iff in Hq as [Hc Hs].
  cbn [remove_on_handlers]. destruct skip as [|k]; [| apply IH; assumption].
  destruct (match_on_handler (String c s)); [apply IH; assumption |].
  cbn. rewrite Hc. apply IH. assumption.
Qed.

Lemma forall_chars_trim_start (q : ascii -> bool) (s : string) :
  forall_chars q s = true -> forall_chars q (trim_start s) = true.
Proof.
  induction s as [|c s IH]; [reflexivity |].
  intros Hq. cbn [trim_start]. destruct (is_space c); [| exact Hq].
  cbn in Hq. apply andb_true_iff in Hq as [_ Hs]. auto.
Qed.

Lemma forall_chars_trim_end (q : ascii -> bool) (s : string) :
  forall_chars q s = true -> forall_chars q (trim_end s) = true.
Proof.
  induction s as [|c s IH]; [reflexivity |].
  intros Hq. cbn [forall_chars] in Hq. apply andb_true_iff in Hq as [Hc Hs].
  specialize (IH Hs). cbn [trim_end].
  destruct (trim_end s) as [|d rest].
  - destruct (is_space c); [reflexivity | cbn; rewrite Hc; reflexivity].
  - cbn [forall_chars]. rewrite Hc. exact IH.
Qed.

Lemma first_char_trim_start (s : string) :
  opt_test is_space (first_char (trim_start s)) = false.
Proof.
  induction s as [|c s IH]; [reflexivity |]. cbn [trim_start].
  destruct (is_space c) eqn:Hc; [exact IH | cbn; exact Hc].
Qed.

Lemma first_char_trim_end (s : string) :
  opt_test is_space (first_char s) = false ->
  opt_test is_space (first_char (trim_end s)) = false.
Proof.
  destruct s as [|c s]; [reflexivity |]. cbn. intros Hc.
  destruct (trim_end s); [rewrite Hc |]; cbn; exact Hc.
Qed.

Lemma last_char_trim_end (s : string) :
  opt_test is_space (last_char (trim_end s)) = false.
Proof.
  induction s as [|c s IH]; [reflexivity |]. cbn [trim_end].
  destruct (trim_end s) as [|d rest].
  - destruct (is_space c) eqn:Hc; [reflexivity | cbn; exact Hc].
  - exact IH.
Qed.

(** X2.  Whatever the input, the text that [sanitizeInput] returns
    contains neither [<] nor [>], and it neither starts nor ends with
    white space. *)
Theorem sanitizeInput_no_angle_brackets (input : string) :
  exists_chars (fun c => Ascii.eqb c "<" || Ascii.eqb c ">") (sanitizeInput input) = false
  /\ opt_test is_space (first_char (sanitizeInput input)) = false
  /\ opt_test is_space (last_char (sanitizeInput input)) = false.
Proof.
  split; [| split].
  - assert (Hall : forall_chars (fun c => negb (Ascii.eqb c "<" || Ascii.eqb c ">"))
                     (sanitizeInput input) = true).
    { unfold sanitizeInput, trim.
      apply forall_chars_trim_end, forall_chars_trim_start,
        forall_chars_remove_on_handlers, forall_chars_remove_literal_ci,
        forall_chars_filter. }
    induction (sanitizeInput input) as [|c s IH]; [reflexivity |].
    cbn in Hall |- *. apply andb_true_iff in Hall as [Hc Hs].
    apply negb_true_iff in Hc. rewrite Hc. cbn. auto.
  - unfold sanitizeInput, trim. apply first_char_trim_end, first_char_trim_start.
  - unfold sanitizeInput, trim. apply last_char_trim_end.
Qed.
End Sanitize.

(** The inputs of the test suite, and one on which the second pass puts
    [javascript:] back together. *)
Example sanitizeInput_cases :
  SecurityUtils.sanitizeInput <$>
    ["<script>alert(1)</script>"; "javascript:alert(1)";
     "<img src=x onerror=alert(1)>"; "onclick=alert(2)"; "  javajavascript:script:x  "]
  = ["scriptalert(1)/script"; "alert(1)"; "img src=x alert(1)"; "alert(2)";
     "javascript:x"].
Proof. vm_compute. reflexivity. Qed.

(** ** Base64url *)

Section Base64.
Import SecurityUtils.

Lemma digit_cases (P : N -> bool) :
  forallb P (N.of_nat <$> seq 0 64) = true -> forall d, (d < 64)%N -> P d = true.
Proof.
  intros Hall d Hd. rewrite forallb_forall in Hall. apply Hall.
  apply list_elem_of_In, list_elem_of_fmap. exists (N.to_nat d).
  split; [symmetry; apply N2Nat.id | apply elem_of_seq; lia].
Qed.

Lemma list_triple_ind {A : Type} (P : list A -> Prop) :
  P [] -> (forall a, P [a]) -> (forall a b, P [a; b]) ->
  (forall a b c rest, P rest -> P (a :: b :: c :: rest)) ->
  forall l, P l.
Proof.
  intros H0 H1 H2 H3 l.
  assert (Hall : forall n l, (List.length l <= n)%nat -> P l).
  { clear l. induction n as [|n IH]; intros l Hlen.
    - destruct l; [exact H0 | cbn in Hlen; lia].
    - destruct l as [|a [|b [|c rest]]]; auto.
      apply H3, IH. cbn in Hlen. lia. }
  exact (Hall (List.length l) l (Nat.le_refl _)).
Qed.

Lemma digits_of_bytes_bounded (buf : list byte) :
  Forall (fun d => (d < 64)%N) (digits_of_bytes buf).
Proof.
  induction buf as [|a|a b|a b c rest IH] using list_triple_ind; cbn.
  - constructor.
  - pose proof (Byte.to_N_bounded a).
    repeat constructor; zify; Z.to_euclidean_division_equations; lia.
  - pose proof (Byte.to_N_bounded a). pose proof (Byte.to_N_bounded b).
    repeat constructor; zify; Z.to_euclidean_division_equations; lia.
  - pose proof (Byte.to_N_bounded a). pose proof (Byte.to_N_bounded b).
    pose proof (Byte.to_N_bounded c).
    repeat (constructor; [zify; Z.to_euclidean_division_equations; lia |]).
    exact IH.
Qed.

(** The URL-safe character of a digit survives the removal of [=], is
    URL-safe, and after the replacements of [decodeBase64Url] is read back
    as the digit. *)
Lemma base64url_char_facts (d : N) :
  (d < 64)%N ->
  Ascii.eqb (base64url_char d) "=" = false
  /\ is_url_safe (base64url_char d) = true
  /\ (let c := base64url_char d in
      let c := if Ascii.eqb c "-" then "+"%char else c in
      let c := if Ascii.eqb c "_" then "/"%char else c in
      Ascii.eqb c "=" = false /\ unbase64 c = Some d).
Proof.
  intros Hd.
  pose proof (digit_cases
    (fun d => negb (Ascii.eqb (base64url_char d) "=")
              && is_url_safe (base64url_char d)
              && (let c := base64url_char d in
                  let c := if Ascii.eqb c "-" then "+"%char else c in
                  let c := if Ascii.eqb c "_" then "/"%char else c in
                  negb (Ascii.eqb c "=")
                  && match unbase64 c with
                     | Some v => N.eqb v d
                     | None => false
                     end))
    ltac:(vm_compute; reflexivity) d Hd) as Hfacts.
  cbv beta zeta in Hfacts |- *.
  apply andb_true_iff in Hfacts as [Hfacts Hback].
  apply andb_true_iff in Hfacts as [Hneq Hsafe].
  apply andb_true_iff in Hback as [Hneq' Hread].
  apply negb_true_iff in Hneq, Hneq'.
  repeat split; try assumption.
  destruct (unbase64 _) as [v|]; [| discriminate].
  apply N.eqb_eq in Hread. subst v. reflexivity.
Qed.

Lemma encodeBase64Url_digits (buf : list byte) :
  encodeBase64Url buf
  = string_of_list_ascii (base64url_char <$> digits_of_bytes buf).
Proof.
  unfold encodeBase64Url.
  induction buf as [|a|a b|a b c rest IH] using list_triple_ind.
  - reflexivity.
  - pose proof (digits_of_bytes_bounded [a]) as Hb. cbn in Hb.
    apply Forall_cons in Hb as [H1 Hb]. apply Forall_cons in Hb as [H2 _].
    destruct (base64url_char_facts _ H1) as (E1 & _).
    destruct (base64url_char_facts _ H2) as (E2 & _).
    cbn. fold (base64url_char (Byte.to_N a / 4)).
    fold (base64url_char (Byte.to_N a mod 4 * 16)).
    rewrite E1, E2. reflexivity.
  - pose proof (digits_of_bytes_bounded [a; b]) as Hb. cbn in Hb.
    apply Forall_cons in Hb as [H1 Hb]. apply Forall_cons in Hb as [H2 Hb].
    apply Forall_cons in Hb as [H3 _].
    destruct (base64url_char_facts _ H1) as (E1 & _).
    destruct (base64url_char_facts _ H2) as (E2 & _).
    destruct (base64url_char_facts _ H3) as (E3 & _).
    cbn. fold (base64url_char (Byte.to_N a / 4)).
    fold (base64url_char (Byte.to_N a mod 4 * 16 + Byte.to_N b / 16)).
    fold (base64url_char (Byte.to_N b mod 16 * 4)).
    rewrite E1, E2, E3. reflexivity.
  - pose proof (digits_of_bytes_bounded (a :: b :: c :: rest)) as Hb. cbn in Hb.
    apply Forall_cons in Hb as [H1 Hb]. apply Forall_cons in Hb as [H2 Hb].
    apply Forall_cons in Hb as [H3 Hb]. apply Forall_cons in Hb as [H4 _].
    destruct (base64url_char_facts _ H1) as (E1 & _).
    destruct (base64url_char_facts _ H2) as (E2 & _).
    destruct (base64url_char_facts _ H3) as (E3 & _).
    destruct (base64url_char_facts _ H4) as (E4 & _).
    cbn. fold (base64url_char (Byte.to_N a / 4)).
    fold (base64url_char (Byte.to_N a mod 4 * 16 + Byte.to_N b / 16)).
    fold (base64url_char (Byte.to_N b mod 16 * 4 + Byte.to_N c / 64)).
    fold (base64url_char (Byte.to_N c mod 64)).
    rewrite E1, E2, E3, E4, IH. reflexivity.
Qed.
Lemma base64_digits_padding (k : nat) :
  base64_digits (string_of_list_ascii (repeat "="%char k)) = [].
Proof. destruct k; reflexivity. Qed.

(** Reading back the URL-safe text of a list of digits, whatever padding
    follows. *)
Lemma base64_digits_of_url_text (digits : list N) (k : nat) :
  Forall (fun d => (d < 64)%N) digits ->
  base64_digits
    (replace_char "_" "/"
       (replace_char "-" "+" (string_of_list_ascii (base64url_char <$> digits)))
     +:+ string_of_list_ascii (repeat "="%char k))
  = digits.
Proof.
  induction 1 as [|d digits Hd _ IH]; cbn [fmap list_fmap string_of_list_ascii].
  - cbn [replace_char]. change (EmptyString +:+ ?t) with t. apply base64_digits_padding.
  - destruct (base64url_char_facts d Hd) as (_ & _ & Hneq & Hread).
    cbv zeta in Hneq, Hread.
    cbn [replace_char].
    change (String ?c ?r +:+ ?t) with (String c (r +:+ t)).
    cbn [base64_digits]. rewrite Hneq, Hread. f_equal. exact IH.
Qed.

Lemma byte_of_N_to_N (n : N) (b : byte) : n = Byte.to_N b -> byte_of_N n = b.
Proof.
  intros ->. unfold byte_of_N. pose proof (Byte.to_N_bounded b).
  rewrite N.mod_small by lia. rewrite Byte.of_to_N. reflexivity.
Qed.

Lemma base64_pack_digits (buf : list byte) : base64_pack (digits_of_bytes buf) = buf.
Proof.
  induction buf as [|a|a b|a b c rest IH] using list_triple_ind.
  - reflexivity.
  - cbn. f_equal. apply byte_of_N_to_N. pose proof (Byte.to_N_bounded a).
    zify; Z.to_euclidean_division_equations; lia.
  - cbn. pose proof (Byte.to_N_bounded a). pose proof (Byte.to_N_bounded b).
    f_equal; [| f_equal]; apply byte_of_N_to_N;
      zify; Z.to_euclidean_division_equations; lia.
  - cbn [digits_of_bytes base64_pack].
    pose proof (Byte.to_N_bounded a). pose proof (Byte.to_N_bounded b).
    pose proof (Byte.to_N_bounded c). rewrite IH.
    f_equal; [| f_equal; [| f_equal]]; apply byte_of_N_to_N;
      zify; Z.to_euclidean_division_equations; lia.
Qed.

Lemma forall_chars_of_list (p : ascii -> bool) (l : list ascii) :
  Forall (fun c => p c = true) l -> forall_chars p (string_of_list_ascii l) = true.
Proof.
  induction 1 as [|c l Hc _ IH]; [reflexivity |]. cbn. rewrite Hc, IH. reflexivity.
Qed.

(** X3.  [decodeBase64Url] gives back every buffer that
    [encodeBase64Url] encoded, and the encoded text consists of letters,
    digits, [-] and [_] only. *)
Theorem decodeBase64Url_encodeBase64Url (data : list byte) :
  SecurityUtils.decodeBase64Url (SecurityUtils.encodeBase64Url data) = data
  /\ SecurityUtils.forall_chars SecurityUtils.is_url_safe
       (SecurityUtils.encodeBase64Url data) = true.
Proof.
  rewrite encodeBase64Url_digits.
  pose proof (digits_of_bytes_bounded data) as Hb.
  split.
  - unfold decodeBase64Url, Buffer_from_base64, pad_base64.
    rewrite (base64_digits_of_url_text _ _ Hb). apply base64_pack_digits.
  - apply forall_chars_of_list. apply Forall_fmap.
    eapply Forall_impl; [exact Hb |]. intros d Hd. cbn.
    apply (base64url_char_facts d Hd).
Qed.
End Base64.

Example base64url_cases :
  SecurityUtils.encodeBase64Url <$> [[]; ["f"%byte]; [xfb; xff]; [xfb; xff; xbe; x00]]
  = [EmptyString; "Zg"; "-_8"; "-_--AA"].
Proof. vm_compute. reflexivity. Qed.

(** ** Password-based encryption *)

Section HexMore.
Import SecureCrypto.

Lemma toString_hex_app (a b : list byte) :
  toString_hex (a ++ b) = toString_hex a +:+ toString_hex b.
Proof.
  induction a as [|x a IH]; [reflexivity |].
  cbn [app toString_hex]. rewrite IH. reflexivity.
Qed.

Lemma toString_hex_length (buf : list byte) :
  String.length (toString_hex buf) = (2 * List.length buf)%nat.
Proof. induction buf as [|x buf IH]; [reflexivity |]. cbn. rewrite IH. lia. Qed.
End HexMore.

Section PasswordEncryption.
Import SecureCrypto CryptoLaws.
Context `{NodeCrypto} `{NodeScrypt} `{!SymmetricLaws} `{!ScryptLaws}.

(** The blob [encryptWithPassword] builds. *)
Lemma encryptWithPassword_blob (data password : string) (salt iv : list byte) :
  List.length iv = 16%nat ->
  encryptWithPassword data password salt iv
  = Ok (let key := scryptSync_password password salt KEY_SIZE in
        let encrypted := toString_hex (aes256cbc_encrypt key iv (utf8_encode data)) in
        {| EncryptedData.iv := toString_hex salt +:+ toString_hex iv;
           EncryptedData.data := encrypted;
           EncryptedData.tag :=
             toString_hex (hmac_sha256 key
               ((encrypted +:+ toString_hex salt) +:+ toString_hex iv)) |}).
Proof.
  intros Hiv. unfold encryptWithPassword. cbv zeta.
  rewrite createCipheriv_ok by (apply scrypt_length || assumption). reflexivity.
Qed.

Lemma salt_and_iv_split (salt iv : list byte) :
  List.length salt = 16%nat ->
  take 16 (Buffer_from_hex (toString_hex salt +:+ toString_hex iv)) = salt
  /\ drop 16 (Buffer_from_hex (toString_hex salt +:+ toString_hex iv)) = iv.
Proof.
  intros Hsalt. rewrite <- toString_hex_app, Buffer_from_hex_toString_hex.
  split; [apply take_app_length' | apply drop_app_length']; symmetry; assumption.
Qed.

Lemma decryptWithPassword_sealed (data password : string) (salt iv : list byte)
    (blob : EncryptedData.t) :
  List.length salt = 16%nat -> List.length iv = 16%nat ->
  encryptWithPassword data password salt iv = Ok blob ->
  decryptWithPassword blob password = Ok data.
Proof.
  intros Hsalt Hiv. rewrite encryptWithPassword_blob by assumption.
  intros [= <-]. cbv zeta. destruct (salt_and_iv_split salt iv Hsalt) as [Htake Hdrop].
  unfold decryptWithPassword. cbn [EncryptedData.iv EncryptedData.data EncryptedData.tag].
  rewrite Htake, Hdrop, timingSafeEqual_same. cbn.
  rewrite createCipheriv_ok by (apply scrypt_length || assumption). cbn.
  rewrite Buffer_from_hex_toString_hex.
  rewrite aes_roundtrip by (apply scrypt_length || assumption). cbn.
  rewrite utf8_roundtrip. reflexivity.
Qed.

(** X4.  With a 16-byte salt and a 16-byte vector,
    [encryptWithPassword] succeeds and [decryptWithPassword] under the same
    password gives the text back; under a password from which the salt
    derives another key it throws 'Invalid authentication tag'. *)
Theorem decryptWithPassword_encryptWithPassword
    (data password : string) (salt iv : list byte) :
  List.length salt = 16%nat -> List.length iv = 16%nat ->
  exists blob,
    encryptWithPassword data password salt iv = Ok blob
    /\ decryptWithPassword blob password = Ok data
    /\ forall other,
         scryptSync_password other salt KEY_SIZE
           <> scryptSync_password password salt KEY_SIZE ->
         decryptWithPassword blob other = Throw InvalidAuthenticationTag.
Proof.
  intros Hsalt Hiv. eexists. split; [apply encryptWithPassword_blob; assumption |].
  cbv zeta. destruct (salt_and_iv_split salt iv Hsalt) as [Htake Hdrop].
  split.
  - unfold decryptWithPassword. cbn [EncryptedData.iv EncryptedData.data EncryptedData.tag].
    rewrite Htake, Hdrop, timingSafeEqual_same. cbn.
    rewrite createCipheriv_ok by (apply scrypt_length || assumption). cbn.
    rewrite Buffer_from_hex_toString_hex.
    rewrite aes_roundtrip by (apply scrypt_length || assumption). cbn.
    rewrite utf8_roundtrip. reflexivity.
  - intros other Hother. unfold decryptWithPassword.
    cbn [EncryptedData.iv EncryptedData.data EncryptedData.tag].
    rewrite Htake, Hdrop, !Buffer_from_hex_toString_hex.
    rewrite timingSafeEqual_diff; [reflexivity | rewrite !hmac_length; reflexivity |].
    intros Heq. apply Hother. symmetry.
    apply (hmac_key_separation _ _ _ (scrypt_length _ _ _) (scrypt_length _ _ _) Heq).
Qed.
End PasswordEncryption.

Lemma Reference_scrypt_laws : CryptoLaws.ScryptLaws (H := Reference.scrypt).
Proof.
  split. intros password salt keylen. cbn.
  rewrite length_take, !length_app, repeat_length. lia.
Qed.

Lemma decryptWithPassword_encryptWithPassword_witness :
  exists blob,
    SecureCrypto.encryptWithPassword (H := Reference.crypto) (H0 := Reference.scrypt)
      "rsa-private:01" "Correct-Horse-42!" (repeat x05 16) (repeat x07 16) = Ok blob
    /\ SecureCrypto.decryptWithPassword (H := Reference.crypto) (H0 := Reference.scrypt)
         blob "Correct-Horse-42!" = Ok "rsa-private:01".
Proof.
  destruct (decryptWithPassword_encryptWithPassword
              (H := Reference.crypto) (H0 := Reference.scrypt)
              (H1 := Reference_symmetric_laws) (H2 := Reference_scrypt_laws)
              "rsa-private:01" "Correct-Horse-42!" (repeat x05 16) (repeat x07 16))
    as (blob & Henc & Hdec & _); [reflexivity | reflexivity |].
  exists blob. split; assumption.
Defined.

(** ** MACs and comparisons *)

Section Macs.
Import SecureCrypto CryptoLaws SecurityUtilsCrypto.
Context `{NodeCrypto} `{!SymmetricLaws}.

(** X5.  [verifyHMAC] answers true for the MAC that [generateHMAC] made
    of the same data under the same key, and false when that MAC is
    checked against data with another digest; for a MAC text that does not
    decode to 32 bytes it does not answer: it throws. *)
Theorem verifyHMAC_generateHMAC (data : string) (key : list byte) :
  verifyHMAC data (generateHMAC data key) key = Ok true
  /\ (forall other, hmac_sha256 key other <> hmac_sha256 key data ->
        verifyHMAC other (generateHMAC data key) key = Ok false)
  /\ (forall hmac, List.length (Buffer_from_hex hmac) <> 32%nat ->
        verifyHMAC data hmac key = Throw ERR_CRYPTO_TIMING_SAFE_EQUAL_LENGTH).
Proof.
  unfold verifyHMAC, generateHMAC. split; [apply timingSafeEqual_same |]. split.
  - intros other Hother. rewrite !Buffer_from_hex_toString_hex.
    apply timingSafeEqual_diff; [rewrite !hmac_length; reflexivity | congruence].
  - intros hmac Hlen. rewrite Buffer_from_hex_toString_hex.
    unfold timingSafeEqual. rewrite hmac_length.
    destruct (Nat.eqb_spec (List.length (Buffer_from_hex hmac)) 32);
      [contradiction | reflexivity].
Qed.

Lemma utf8_encode_inj (a b : string) : utf8_encode a = utf8_encode b -> a = b.
Proof.
  intros Heq. rewrite <- (utf8_roundtrip a), Heq. apply utf8_roundtrip.
Qed.

(** X6.  [constantTimeCompare] answers true exactly for equal strings,
    and answers false, without comparing, for strings of different
    length. *)
Theorem constantTimeCompare_spec (a b : string) :
  (constantTimeCompare a b = Ok true <-> a = b)
  /\ (String.length a <> String.length b -> constantTimeCompare a b = Ok false).
Proof.
  unfold constantTimeCompare. split.
  - split.
    + destruct (Nat.eqb_spec (String.length a) (String.length b)) as [Hlen | Hlen];
        cbn; [| discriminate].
      unfold timingSafeEqual.
      destruct (List.length (utf8_encode a) =? List.length (utf8_encode b))%nat;
        cbn; [| discriminate].
      intros [= Heq]. apply bool_decide_eq_true_1 in Heq. apply utf8_encode_inj, Heq.
    + intros ->. rewrite Nat.eqb_refl. cbn. apply timingSafeEqual_same.
  - intros Hlen.
    destruct (Nat.eqb_spec (String.length a) (String.length b)); [contradiction | reflexivity].
Qed.

(** X7.  [validateCSRFToken] answers true exactly for equal tokens; for
    tokens whose encodings differ in length it does not answer false but
    throws. *)
Theorem validateCSRFToken_spec (token expected : string) :
  (validateCSRFToken token expected = Ok true <-> token = expected)
  /\ (List.length (utf8_encode token) <> List.length (utf8_encode expected) ->
      validateCSRFToken token expected = Throw ERR_CRYPTO_TIMING_SAFE_EQUAL_LENGTH).
Proof.
  unfold validateCSRFToken, timingSafeEqual. split.
  - split.
    + destruct (List.length (utf8_encode token) =? List.length (utf8_encode expected))%nat;
        cbn; [| discriminate].
      intros [= Heq]. apply bool_decide_eq_true_1 in Heq. apply utf8_encode_inj, Heq.
    + intros ->. apply timingSafeEqual_same.
  - intros Hlen.
    destruct (Nat.eqb_spec (List.length (utf8_encode token))
                (List.length (utf8_encode expected))); [contradiction | reflexivity].
Qed.
End Macs.

Lemma verifyHMAC_generateHMAC_witness :
  SecureCrypto.verifyHMAC (H := Reference.crypto) "Important message"
    "00ff" (repeat x2a 32) = Throw ERR_CRYPTO_TIMING_SAFE_EQUAL_LENGTH.
Proof.
  apply (verifyHMAC_generateHMAC (H := Reference.crypto) (H0 := Reference_symmetric_laws)).
  vm_compute. discriminate.
Defined.

Lemma constantTimeCompare_spec_witness :
  SecureCrypto.constantTimeCompare (H := Reference.crypto) "a" "ab" = Ok false
  /\ SecureCrypto.constantTimeCompare (H := Reference.crypto) "secret-value" "secret-value"
     = Ok true.
Proof.
  pose proof (constantTimeCompare_spec (H := Reference.crypto)
                (H0 := Reference_symmetric_laws) "a" "ab") as (_ & Hdiff).
  pose proof (constantTimeCompare_spec (H := Reference.crypto)
                (H0 := Reference_symmetric_laws) "secret-value" "secret-value")
    as (Hsame & _).
  split; [apply Hdiff; vm_compute; discriminate | apply Hsame; reflexivity].
Defined.

Lemma validateCSRFToken_spec_witness :
  SecurityUtilsCrypto.validateCSRFToken (H := Reference.crypto) "abc" "abcd"
  = Throw ERR_CRYPTO_TIMING_SAFE_EQUAL_LENGTH.
Proof.
  apply (validateCSRFToken_spec (H := Reference.crypto) (H0 := Reference_symmetric_laws)).
  vm_compute. discriminate.
Defined.

(** ** What [decrypt] accepts *)

Section DecryptSound.
Import SecureCrypto.
Context `{NodeCrypto}.

(** X8.  [decrypt] returns a text only for a blob whose tag is the
    HMAC-SHA256, under the key, of the blob's data followed by its vector,
    and only with a 32-byte key and a 16-byte vector; the text is then the
    decoding of what the decipher gives for the blob's data. *)
Theorem decrypt_accepts_only_authentic
    (encryptedData : EncryptedData.t) (key : list byte) (text : string) :
  decrypt encryptedData key = Ok text ->
  Buffer_from_hex (EncryptedData.tag encryptedData)
    = hmac_sha256 key (EncryptedData.data encryptedData +:+ EncryptedData.iv encryptedData)
  /\ List.length key = 32%nat
  /\ List.length (Buffer_from_hex (EncryptedData.iv encryptedData)) = 16%nat
  /\ exists plain,
       aes256cbc_decrypt key (Buffer_from_hex (EncryptedData.iv encryptedData))
         (Buffer_from_hex (EncryptedData.data encryptedData)) = Ok plain
       /\ text = utf8_decode plain.
Proof.
  unfold decrypt. cbv zeta. rewrite Buffer_from_hex_toString_hex.
  unfold timingSafeEqual at 1.
  destruct (List.length _ =? List.length _)%nat; cbn; [| discriminate].
  case_bool_decide as Htag; cbn; [| discriminate].
  unfold createCipheriv.
  destruct (Nat.eqb_spec (List.length (Buffer_from_hex (EncryptedData.iv encryptedData))) 16)
    as [Hiv |]; cbn; [| discriminate].
  destruct (Nat.eqb_spec (List.length key) 32) as [Hkey |]; cbn; [| discriminate].
  destruct (aes256cbc_decrypt _ _ _) as [plain | e] eqn:Hdec; cbn; [| discriminate].
  intros [= <-]. repeat split; try assumption. exists plain. split; reflexivity.
Qed.
End DecryptSound.

Lemma decrypt_accepts_only_authentic_witness :
  let blob :=
    SecureCrypto.sealed (H := Reference.crypto) "Secret message" (repeat x2a 32)
      (repeat x07 16) in
  SecureCrypto.Buffer_from_hex (EncryptedData.tag blob)
  = SecureCrypto.hmac_sha256 (NodeCrypto := Reference.crypto) (repeat x2a 32)
      (EncryptedData.data blob +:+ EncryptedData.iv blob)
  /\ List.length (repeat x2a 32) = 32%nat.
Proof.
  cbv zeta.
  destruct (decrypt_accepts_only_authentic (H := Reference.crypto)
              (SecureCrypto.sealed (H := Reference.crypto) "Secret message"
                 (repeat x2a 32) (repeat x07 16))
              (repeat x2a 32) "Secret message") as (Htag & Hkey & _);
    [vm_compute; reflexivity |].
  split; assumption.
Defined.

(** ** Envelopes: creation, validation and what the signature covers *)

Section StringFacts.

Lemma string_app_cons (c : ascii) (s t : string) :
  String c s +:+ t = String c (s +:+ t).
Proof. reflexivity. Qed.

Lemma string_app_assoc (a b c : string) : a +:+ (b +:+ c) = (a +:+ b) +:+ c.
Proof.
  induction a as [|x a IH]; [reflexivity |].
  rewrite !string_app_cons, IH. reflexivity.
Qed.

Lemma strip_prefix_app (p s : string) : Reference.strip_prefix p (p +:+ s) = Some s.
Proof.
  induction p as [|x p IH]; [reflexivity |].
  rewrite string_app_cons. cbn. rewrite Ascii.eqb_refl. exact IH.
Qed.
End StringFacts.

Section EnvelopeMore.
Import SecurityUtils SecureCrypto LuminaWebProtocol CryptoLaws.
Context `{NodeCrypto} `{DateLib}.

Lemma elem_of_push_if (c : bool) (e e' : string) (errors : list string) :
  e ∈ push_if c e' errors <-> e ∈ errors \/ (c = true /\ e = e').
Proof.
  unfold push_if. destruct c.
  - rewrite elem_of_app, list_elem_of_singleton. intuition congruence.
  - intuition congruence.
Qed.

Lemma validateMessage_valid_no_errors (now : Z) (message : LWPMessage.t)
    (publicKey : string) :
  ValidationResult.isValid (validateMessage now message publicKey) = true ->
  validateMessage now message publicKey
  = {| ValidationResult.isValid := true; ValidationResult.errors := [] |}.
Proof.
  unfold validateMessage. cbv zeta. cbn [ValidationResult.isValid].
  intros Hvalid. rewrite Hvalid. f_equal.
  apply Nat.eqb_eq, length_zero_iff_nil in Hvalid. exact Hvalid.
Qed.

(** X9.  An envelope made by [createMessage] with the private key of a
    generated pair, a known type, two valid addresses, a 32-byte random
    nonce and a payload within the size limit is valid under the public key
    of the pair, with no error, at any time from its creation to five
    minutes later. *)
Theorem validateMessage_createMessage `{!SignatureLaws}
    (entropy rnd : list byte) (now created : Z)
    (timestamp type from to payloadString : string) :
  type ∈ ["auth"; "handshake"; "message"; "ack"; "presence"] ->
  validateEmail from = true -> validateEmail to = true ->
  Date_parse timestamp = Some created -> 0 <= now - created <= 300000 ->
  List.length rnd = 32%nat ->
  Z.of_nat (String.length payloadString) <= MAX_MESSAGE_SIZE ->
  validateMessage now
    (createMessage timestamp (generateNonce rnd) type from to payloadString
       (KeyPair.privateKey (generateKeyPair entropy)))
    (KeyPair.publicKey (generateKeyPair entropy))
  = {| ValidationResult.isValid := true; ValidationResult.errors := [] |}.
Proof.
  intros Htype Hfrom Hto Hparse Hfresh Hrnd Hsize.
  apply validateMessage_valid_no_errors, validateMessage_accepts_iff.
  unfold createMessage.
  cbn [LWPMessage.version LWPMessage.type LWPMessage.from LWPMessage.to
       LWPMessage.timestamp LWPMessage.nonce LWPMessage.signature LWPMessage.payload].
  repeat split; try assumption.
  - apply isValidTimestamp_spec. eauto.
  - unfold generateNonce. rewrite toString_hex_length, Hrnd. reflexivity.
  - unfold verify, sign, generateKeyPair. cbn [KeyPair.privateKey KeyPair.publicKey].
    rewrite verify_sign. reflexivity.
Qed.

(** X10.  The signature covers the fields joined without separators: an
    accepted envelope stays accepted when characters are moved between the
    end of [from] and the start of [to], as long as both are still valid
    addresses. *)
Theorem validateMessage_ignores_field_boundary
    (now : Z) (message : LWPMessage.t) (publicKey from' to' : string) :
  ValidationResult.isValid (validateMessage now message publicKey) = true ->
  LWPMessage.from message +:+ LWPMessage.to message = from' +:+ to' ->
  validateEmail from' = true -> validateEmail to' = true ->
  ValidationResult.isValid
    (validateMessage now
       {| LWPMessage.version := LWPMessage.version message;
          LWPMessage.type := LWPMessage.type message;
          LWPMessage.from := from';
          LWPMessage.to := to';
          LWPMessage.timestamp := LWPMessage.timestamp message;
          LWPMessage.nonce := LWPMessage.nonce message;
          LWPMessage.signature := LWPMessage.signature message;
          LWPMessage.payload := LWPMessage.payload message |}
       publicKey) = true.
Proof.
  intros Hvalid Hjoin Hfrom Hto.
  apply validateMessage_accepts_iff in Hvalid
    as (Hv & Hty & _ & _ & Hts & Hn & Hsz & Hsig).
  apply validateMessage_accepts_iff.
  cbn [LWPMessage.version LWPMessage.type LWPMessage.from LWPMessage.to
       LWPMessage.timestamp LWPMessage.nonce LWPMessage.signature LWPMessage.payload].
  repeat split; try assumption.
  rewrite <- Hsig. f_equal. f_equal. f_equal.
  rewrite !(string_app_assoc from'), !(string_app_assoc (LWPMessage.from message)).
  rewrite Hjoin. reflexivity.
Qed.

Lemma validateMessage_recipient_error (now : Z) (message : LWPMessage.t)
    (publicKey : string) :
  validateEmail (LWPMessage.to message) = false ->
  "Invalid recipient email"
    ∈ ValidationResult.errors (validateMessage now message publicKey).
Proof.
  intros Hto. unfold validateMessage. cbv zeta. cbn [ValidationResult.errors].
  rewrite !elem_of_push_if, Hto. cbn [negb]. auto 12.
Qed.

(** X11.  [validateMessage] runs every check whatever the others gave:
    each of its eight error texts is in the result exactly when its own
    check fails. *)
Theorem validateMessage_reports_each_failure
    (now : Z) (message : LWPMessage.t) (publicKey : string) :
  let errors := ValidationResult.errors (validateMessage now message publicKey) in
  ("Invalid protocol version" ∈ errors <-> LWPMessage.version message <> VERSION)
  /\ ("Invalid message type" ∈ errors
      <-> LWPMessage.type message ∉ ["auth"; "handshake"; "message"; "ack"; "presence"])
  /\ ("Invalid sender email" ∈ errors <-> validateEmail (LWPMessage.from message) = false)
  /\ ("Invalid recipient email" ∈ errors <-> validateEmail (LWPMessage.to message) = false)
  /\ ("Invalid or expired timestamp" ∈ errors
      <-> isValidTimestamp now (LWPMessage.timestamp message) DEFAULT_MAX_AGE_MS = false)
  /\ ("Invalid nonce" ∈ errors <-> String.length (LWPMessage.nonce message) <> 64%nat)
  /\ ("Message payload too large" ∈ errors
      <-> MAX_MESSAGE_SIZE < Z.of_nat (String.length (LWPMessage.payload message)))
  /\ ("Invalid message signature" ∈ errors
      <-> verify (LWPMessage.version message +:+ LWPMessage.type message
                  +:+ LWPMessage.from message +:+ LWPMessage.to message
                  +:+ LWPMessage.timestamp message +:+ LWPMessage.nonce message
                  +:+ LWPMessage.payload message)
                 (LWPMessage.signature message) publicKey = false).
Proof.
  unfold validateMessage. cbv zeta. cbn [ValidationResult.errors].
  rewrite !elem_of_push_if, !elem_of_nil.
  rewrite !negb_true_iff, String.eqb_neq, bool_decide_eq_false, Nat.eqb_neq, Z.ltb_lt.
  repeat split; intros Hx;
    repeat match goal with
           | H : _ \/ _ |- _ => destruct H
           | H : _ /\ _ |- _ => destruct H
           end;
    first [assumption | contradiction | discriminate | auto 12].
Qed.
End EnvelopeMore.

Lemma Reference_signature_laws : CryptoLaws.SignatureLaws (H := Reference.crypto).
Proof.
  split. intros entropy data.
  cbv [SecureCrypto.sha256_verify SecureCrypto.sha256_sign
       SecureCrypto.generateKeyPairSync_rsa Reference.crypto fst snd].
  rewrite !strip_prefix_app.
  rewrite String.eqb_refl. reflexivity.
Qed.

Lemma validateMessage_createMessage_witness :
  LuminaWebProtocol.validateMessage (H := Reference.crypto) (H0 := Reference.dates)
    1704067201000
    (LuminaWebProtocol.createMessage (H := Reference.crypto)
       "2024-01-01T00:00:00.000Z" (SecureCrypto.generateNonce (repeat x11 32))
       "message" "alice@example.com" "bob@example.com" "{}"
       (KeyPair.privateKey (SecureCrypto.generateKeyPair (H := Reference.crypto) [x01])))
    (KeyPair.publicKey (SecureCrypto.generateKeyPair (H := Reference.crypto) [x01]))
  = {| ValidationResult.isValid := true; ValidationResult.errors := [] |}.
Proof.
  apply (validateMessage_createMessage (H := Reference.crypto) (H0 := Reference.dates)
           (H1 := Reference_signature_laws)
           [x01] (repeat x11 32) 1704067201000 1704067200000);
    try reflexivity.
  - apply (bool_decide_unpack _). vm_compute. exact I.
  - lia.
  - vm_compute. discriminate.
Defined.

(** An envelope from [a@b.co] to [mc@d.co], and the same envelope read as
    sent from [a@b.com] to [c@d.co]. *)
Lemma validateMessage_ignores_field_boundary_witness :
  let message :=
    LuminaWebProtocol.createMessage (H := Reference.crypto)
      "2024-01-01T00:00:00.000Z" Reference.nonce0 "message" "a@b.co" "mc@d.co" "{}"
      "rsa-private:01" in
  ValidationResult.isValid
    (LuminaWebProtocol.validateMessage (H := Reference.crypto) (H0 := Reference.dates)
       1704067201000
       {| LWPMessage.version := LWPMessage.version message;
          LWPMessage.type := LWPMessage.type message;
          LWPMessage.from := "a@b.com";
          LWPMessage.to := "c@d.co";
          LWPMessage.timestamp := LWPMessage.timestamp message;
          LWPMessage.nonce := LWPMessage.nonce message;
          LWPMessage.signature := LWPMessage.signature message;
          LWPMessage.payload := LWPMessage.payload message |}
       "rsa-public:01") = true.
Proof.
  cbv zeta.
  apply (validateMessage_ignores_field_boundary (H := Reference.crypto)
           (H0 := Reference.dates)); vm_compute; reflexivity.
Defined.

Section ReplaySequence.
Import LuminaWebProtocol.

Lemma isReplayAttack_each_app (pre post : list string) (usedNonces : JSSet.t) :
  isReplayAttack_each (pre ++ post) usedNonces
  = (fst (isReplayAttack_each pre usedNonces)
       ++ fst (isReplayAttack_each post (snd (isReplayAttack_each pre usedNonces))),
     snd (isReplayAttack_each post (snd (isReplayAttack_each pre usedNonces)))).
Proof.
  revert usedNonces. induction pre as [|n pre IH]; intros usedNonces.
  - cbn. destruct (isReplayAttack_each post usedNonces). reflexivity.
  - cbn [app isReplayAttack_each].
    destruct (isReplayAttack n usedNonces) as [answer used1].
    rewrite IH. destruct (isReplayAttack_each pre used1) as [answers used2].
    cbn. reflexivity.
Qed.

Lemma isReplayAttack_each_set (nonces : list string) (usedNonces : JSSet.t) :
  List.length (fst (isReplayAttack_each nonces usedNonces)) = List.length nonces
  /\ (forall x, x ∈ snd (isReplayAttack_each nonces usedNonces)
                <-> x ∈ usedNonces \/ x ∈ nonces)
  /\ (NoDup usedNonces -> NoDup (snd (isReplayAttack_each nonces usedNonces))).
Proof.
  revert usedNonces. induction nonces as [|n nonces IH]; intros usedNonces.
  - cbn. split; [reflexivity |]. split; [| auto].
    intros x. rewrite elem_of_nil. tauto.
  - cbn [isReplayAttack_each]. unfold isReplayAttack.
    destruct (JSSet.has usedNonces n) eqn:Hhas.
    + specialize (IH usedNonces). destruct (isReplayAttack_each nonces usedNonces)
        as [answers used']. cbn in IH |- *. destruct IH as (Hlen & Hmem & Hnd).
      split; [lia |]. split; [| exact Hnd].
      intros x. rewrite Hmem, elem_of_cons.
      apply bool_decide_eq_true_1 in Hhas. intuition (subst; auto).
    + specialize (IH (JSSet.add usedNonces n)).
      destruct (isReplayAttack_each nonces (JSSet.add usedNonces n)) as [answers used'].
      cbn in IH |- *. destruct IH as (Hlen & Hmem & Hnd).
      split; [lia |]. split.
      * intros x. rewrite Hmem, JSSet_add_elem, elem_of_cons. tauto.
      * intros Hu. apply Hnd, JSSet_add_NoDup, Hu.
Qed.

(** X12.  When nonces are presented one after the other to
    [isReplayAttack] on the same set, a presentation is answered true
    exactly when the nonce was in the set at the start or was presented
    before; at the end the set holds the initial nonces and all presented
    ones, each once. *)
Theorem isReplayAttack_each_detects_repeats
    (pre post : list string) (nonce : string) (usedNonces : JSSet.t) :
  fst (isReplayAttack_each (pre ++ nonce :: post) usedNonces) !! List.length pre
  = Some (bool_decide (nonce ∈ usedNonces \/ nonce ∈ pre))
  /\ (forall x, x ∈ snd (isReplayAttack_each (pre ++ nonce :: post) usedNonces)
                <-> x ∈ usedNonces \/ x ∈ pre ++ nonce :: post)
  /\ (NoDup usedNonces ->
      NoDup (snd (isReplayAttack_each (pre ++ nonce :: post) usedNonces))).
Proof.
  split; [| exact (proj2 (isReplayAttack_each_set _ _))].
  rewrite isReplayAttack_each_app. cbn [fst].
  destruct (isReplayAttack_each_set pre usedNonces) as (Hlen & Hmem & _).
  rewrite lookup_app_r by lia. rewrite Hlen, Nat.sub_diag.
  cbn [isReplayAttack_each]. unfold isReplayAttack, JSSet.has.
  set (used1 := snd (isReplayAttack_each pre usedNonces)) in *.
  case_bool_decide as Hin.
  - destruct (isReplayAttack_each post used1). cbn. f_equal. symmetry.
    apply bool_decide_eq_true_2. apply Hmem. exact Hin.
  - destruct (isReplayAttack_each post (JSSet.add used1 nonce)). cbn. f_equal. symmetry.
    apply bool_decide_eq_false_2. intros Hor. apply Hin, Hmem. exact Hor.
Qed.
End ReplaySequence.

Lemma isReplayAttack_each_detects_repeats_witness :
  fst (LuminaWebProtocol.isReplayAttack_each (["n1"; "n2"] ++ "n1" :: ["n3"]) [])
    !! 2%nat = Some true.
Proof.
  destruct (isReplayAttack_each_detects_repeats ["n1"; "n2"] ["n3"] "n1" [])
    as (Hanswer & _).
  cbn [List.length] in Hanswer. rewrite Hanswer. reflexivity.
Defined.

Section ProtocolJson.
Import SecurityUtils SecureCrypto LuminaWebProtocol CryptoLaws JSON.
Context `{NodeCrypto} `{DateLib} `{JsonLib} `{JsCoercions}.

(** X13.  No envelope made by [createPresenceMessage] passes
    [validateMessage]: its recipient is the text 'broadcast', which is not
    an address, so 'Invalid recipient email' is always among the errors. *)
Theorem createPresenceMessage_never_valid
    (now : Z) (timestamp nonce lastSeen from status privateKey publicKey : string) :
  let message := createPresenceMessage timestamp nonce lastSeen from status privateKey in
  ValidationResult.isValid (validateMessage now message publicKey) = false
  /\ "Invalid recipient email"
       ∈ ValidationResult.errors (validateMessage now message publicKey).
Proof.
  cbv zeta.
  assert (Herr : "Invalid recipient email"
                   ∈ ValidationResult.errors
                       (validateMessage now
                          (createPresenceMessage timestamp nonce lastSeen from status
                             privateKey) publicKey)).
  { apply validateMessage_recipient_error. vm_compute. reflexivity. }
  split; [| exact Herr].
  destruct (ValidationResult.isValid _) eqn:Hvalid; [| reflexivity].
  rewrite (validateMessage_valid_no_errors _ _ _ Hvalid) in Herr.
  cbn in Herr. apply elem_of_nil in Herr. contradiction.
Qed.

(** X14.  An envelope made by [createSecureMessage] under a 32-byte
    shared key has type 'message', and [decryptMessage] under the same key
    gives the message payload back, provided [JSON.parse] reads back what
    [JSON.stringify] wrote for the payload and for the encrypted blob;
    under any other 32-byte key [decryptMessage] fails. *)
Theorem decryptMessage_createSecureMessage `{!SymmetricLaws}
    (timestamp nonce from to privateKey : string) (iv sharedKey : list byte)
    (messagePayload : JSON.t) :
  List.length sharedKey = 32%nat -> List.length iv = 16%nat ->
  reads_back messagePayload ->
  reads_back (of_EncryptedData (sealed (JSON_stringify messagePayload) sharedKey iv)) ->
  exists message,
    createSecureMessage timestamp nonce iv from to messagePayload sharedKey privateKey
      = Ok message
    /\ LWPMessage.type message = "message"
    /\ decryptMessage message sharedKey = Decrypted messagePayload
    /\ forall other, List.length other = 32%nat -> other <> sharedKey ->
         decryptMessage message other = FailedToDecrypt.
Proof.
  intros Hkey Hiv Hpayload Hblob.
  unfold createSecureMessage. rewrite (encrypt_sealed _ _ _ Hkey Hiv). cbn.
  eexists. split; [reflexivity |]. split; [reflexivity |].
  unfold decryptMessage, parsePayload, createMessage. cbn [LWPMessage.payload].
  unfold reads_back in Hblob, Hpayload. rewrite Hblob.
  assert (Hto : to_EncryptedData
                  (of_EncryptedData (sealed (JSON_stringify messagePayload) sharedKey iv))
                = Some (sealed (JSON_stringify messagePayload) sharedKey iv))
    by reflexivity.
  rewrite Hto. split.
  - rewrite (decrypt_sealed_same _ _ _ Hkey Hiv), Hpayload. reflexivity.
  - intros other Hother Hne.
    destruct (decrypt_sealed_other (JSON_stringify messagePayload) sharedKey iv other
                Hkey Hiv Hne) as [Htag _].
    rewrite (Htag Hother). reflexivity.
Qed.
End ProtocolJson.

Example createPresenceMessage_errors :
  ValidationResult.errors
    (LuminaWebProtocol.validateMessage (H := Reference.crypto) (H0 := Reference.dates)
       1704067201000
       (LuminaWebProtocol.createPresenceMessage (H := Reference.crypto)
          (H0 := Reference.json)
          "2024-01-01T00:00:00.000Z" Reference.nonce0 "2024-01-01T00:00:00.000Z"
          "alice@example.com" "online" "rsa-private:01")
       "rsa-public:01")
  = ["Invalid recipient email"].
Proof. vm_compute. reflexivity. Qed.

Lemma decryptMessage_createSecureMessage_witness :
  exists message,
    LuminaWebProtocol.createSecureMessage (H := Reference.crypto) (H0 := Reference.json)
      "2024-01-01T00:00:00.000Z" Reference.nonce0 (repeat x07 16)
      "alice@example.com" "bob@example.com" Reference.mail0 (repeat x2a 32)
      "rsa-private:01" = Ok message
    /\ LuminaWebProtocol.decryptMessage (H := Reference.crypto) (H0 := Reference.json)
         (H1 := Reference.coercions) message (repeat x2a 32)
       = LuminaWebProtocol.Decrypted Reference.mail0.
Proof.
  destruct (decryptMessage_createSecureMessage (H := Reference.crypto)
              (H1 := Reference.json) (H2 := Reference.coercions)
              (H3 := Reference_symmetric_laws)
              "2024-01-01T00:00:00.000Z" Reference.nonce0
              "alice@example.com" "bob@example.com" "rsa-private:01"
              (repeat x07 16) (repeat x2a 32) Reference.mail0)
    as (message & Hmake & _ & Hread & _);
    [reflexivity | reflexivity | vm_compute; reflexivity | vm_compute; reflexivity |].
  exists message. split; assumption.
Defined.

(** ** The session map *)

Section Sessions.
Import SecureStorage AuthService.

(** X15.  [getSession] after [storeSession] gives the stored record with
    [createdAt] set to the time of the call, and other sessions are as
    before; [deleteSession] tells whether the session existed and removes
    it only; deleting again answers false and changes nothing. *)
Theorem session_store_get_delete
    (st : SecureStorage.t) (now : Z) (sessionId other : string)
    (sessionData : AuthSession.t) :
  getSession (storeSession st now sessionId sessionData) sessionId
    = Some {| AuthSession.userId := AuthSession.userId sessionData;
              AuthSession.email := AuthSession.email sessionData;
              AuthSession.publicKey := AuthSession.publicKey sessionData;
              AuthSession.sessionId := AuthSession.sessionId sessionData;
              AuthSession.createdAt := now;
              AuthSession.expiresAt := AuthSession.expiresAt sessionData |}
  /\ (other <> sessionId ->
      getSession (storeSession st now sessionId sessionData) other = getSession st other
      /\ getSession (snd (deleteSession st sessionId)) other = getSession st other)
  /\ fst (deleteSession st sessionId) = bool_decide (is_Some (getSession st sessionId))
  /\ getSession (snd (deleteSession st sessionId)) sessionId = None
  /\ deleteSession (snd (deleteSession st sessionId)) sessionId
     = (false, snd (deleteSession st sessionId)).
Proof.
  split; [| split; [| split; [| split]]].
  - rewrite getSession_storeSession, bool_decide_eq_true_2; reflexivity.
  - intros Hne. split.
    + rewrite getSession_storeSession, bool_decide_eq_false_2; [reflexivity | congruence].
    + unfold getSession, deleteSession. cbn. apply lookup_delete_ne. congruence.
  - reflexivity.
  - apply getSession_deleteSession.
  - unfold deleteSession. cbn [snd sessions with_sessions users usedNonces].
    rewrite lookup_delete_eq, delete_delete_eq.
    rewrite bool_decide_eq_false_2 by (intros [x Hx]; discriminate). reflexivity.
Qed.
End Sessions.

Lemma session_store_get_delete_witness :
  SecureStorage.getSession
    (SecureStorage.storeSession Reference.store0 5 "6a09" Reference.session_6a01) "6a01"
  = SecureStorage.getSession Reference.store0 "6a01".
Proof.
  destruct (session_store_get_delete Reference.store0 5 "6a09" "6a01"
              Reference.session_6a01) as (_ & Hother & _).
  apply Hother. discriminate.
Defined.

(** ** What the nonce set forgets *)

Section NonceEviction.
Import SecureStorage.

Lemma NoDup_lookup_drop (calls : list string) (k i : nat) (nonce : string) :
  NoDup calls -> calls !! i = Some nonce -> (nonce ∈ drop k calls <-> (k <= i)%nat).
Proof.
  intros Hnd Hi. split.
  - intros Hin. apply list_elem_of_lookup in Hin as [j Hj].
    rewrite lookup_drop in Hj.
    pose proof (NoDup_lookup _ _ _ _ Hnd Hi Hj). lia.
  - intros Hle. apply list_elem_of_lookup. exists (i - k)%nat.
    rewrite lookup_drop. replace (k + (i - k))%nat with i by lia. exact Hi.
Qed.

(** X16.  After [NONCE_LIMIT + 1] (10001) pairwise different nonces have
    been added to an empty store, the first 5001 of them are no longer
    reported as used, so they can be replayed, and the last 5000 are. *)
Theorem addUsedNonce_forgets_oldest (calls : list string) (i : nat) (nonce : string) :
  NoDup calls -> Z.of_nat (List.length calls) = NONCE_LIMIT + 1 ->
  calls !! i = Some nonce ->
  isNonceUsed (foldl addUsedNonce SecureStorage.empty calls) nonce
  = bool_decide (NONCE_KEEP < Z.of_nat i).
Proof.
  intros Hnd Hlen Hi.
  assert (Hset : usedNonces (foldl addUsedNonce SecureStorage.empty calls)
                 = drop (Z.to_nat (NONCE_KEEP + 1)) calls).
  { rewrite usedNonces_foldl. cbn [usedNonces SecureStorage.empty].
    destruct calls as [|x calls _] using rev_ind; [discriminate |].
    rewrite length_app in Hlen. cbn [List.length] in Hlen.
    apply NoDup_app in Hnd as (Hnd & Hdisj & _).
    rewrite foldl_snoc, addUsedNonce_distinct_fits by (try assumption; lia).
    unfold addUsedNonce_set. cbv zeta. unfold JSSet.add, JSSet.has.
    rewrite bool_decide_eq_false_2
      by (intros Hin; apply (Hdisj x Hin); left).
    unfold JSSet.size. rewrite length_app. cbn [List.length].
    destruct (Z.ltb_spec NONCE_LIMIT (Z.of_nat (List.length calls + 1))); [| lia].
    unfold JSSet.toArray, JSSet.slice_last. rewrite length_app. cbn [List.length].
    replace (List.length calls + 1 - Z.to_nat NONCE_KEEP)%nat
      with (Z.to_nat (NONCE_KEEP + 1))
      by (unfold NONCE_KEEP, NONCE_LIMIT in *; lia).
    apply JSSet_ofArray_NoDup.
    apply (sublist_NoDup _ (calls ++ [x])); [| apply sublist_drop].
    apply NoDup_app. split; [assumption |]. split; [| apply NoDup_singleton].
    intros y Hy Hy'. apply list_elem_of_singleton in Hy'. subst y.
    apply (Hdisj x Hy). left. }
  unfold isNonceUsed, JSSet.has. rewrite Hset.
  apply bool_decide_ext.
  rewrite (NoDup_lookup_drop calls _ i nonce Hnd Hi).
  unfold NONCE_KEEP. lia.
Qed.
End NonceEviction.

Lemma addUsedNonce_forgets_oldest_witness :
  SecureStorage.isNonceUsed
    (foldl SecureStorage.addUsedNonce SecureStorage.empty
       (pretty <$> seq 0 (Z.to_nat (SecureStorage.NONCE_LIMIT + 1))))
    (pretty 0%nat) = false.
Proof.
  rewrite (addUsedNonce_forgets_oldest
             (pretty <$> seq 0 (Z.to_nat (SecureStorage.NONCE_LIMIT + 1))) 0 (pretty 0%nat)).
  - reflexivity.
  - apply NoDup_fmap_2; [apply _ | apply NoDup_seq].
  - rewrite length_fmap, length_seq. apply Z2Nat.id. unfold SecureStorage.NONCE_LIMIT. lia.
  - replace (Z.to_nat (SecureStorage.NONCE_LIMIT + 1))
      with (S (Z.to_nat SecureStorage.NONCE_LIMIT))
      by (unfold SecureStorage.NONCE_LIMIT; lia).
    reflexivity.
Defined.

(** ** The sweep and the tokens *)

Section SweepAndTokens.
Import SecureStorage AuthService.
Context `{JwtLib}.
Variable JWT_SECRET : string.

(** X17.  Once [cleanup] has run more than an hour after a session was
    stored, every token of that session is rejected by [verifyToken] with
    'Session expired', even if the token still verifies and the session
    has not reached its [expiresAt]. *)
Theorem verifyToken_after_cleanup
    (st : SecureStorage.t) (clk : Clock) (swept : Z) (token : string)
    (decoded : JWTPayload.t) (session : AuthSession.t) :
  jwt_verify token JWT_SECRET (now clk) = Some decoded ->
  getSession st (JWTPayload.jti decoded) = Some session ->
  AuthSession.createdAt session + 3600000 < swept ->
  verifyToken JWT_SECRET (cleanup st swept) clk token
  = {| VerifyResult.valid := false; VerifyResult.payload := None;
       VerifyResult.message := Some "Session expired" |}.
Proof.
  intros Hjwt Hs Hold. unfold verifyToken.
  rewrite Hjwt, getSession_cleanup, Hs.
  destruct (Z.ltb_spec (AuthSession.createdAt session) (swept - ONE_HOUR_MS)) as [_ | Hnew];
    [reflexivity | unfold ONE_HOUR_MS in Hnew; lia].
Qed.
End SweepAndTokens.

Lemma verifyToken_after_cleanup_witness :
  AuthService.verifyToken (H := Reference.jwt) Reference.SECRET
    (SecureStorage.cleanup Reference.store0 3600001)
    (AuthService.mkClock 3600002 "1970-01-01T01:00:00.002Z") Reference.refresh_6a01
  = {| VerifyResult.valid := false; VerifyResult.payload := None;
       VerifyResult.message := Some "Session expired" |}.
Proof.
  apply (verifyToken_after_cleanup (H := Reference.jwt) Reference.SECRET
           Reference.store0 _ 3600001 Reference.refresh_6a01
           Reference.payload_6a01 Reference.session_6a01);
    vm_compute; reflexivity.
Defined.

(** ** Users of the store *)

Section Users.
Import SecureCrypto SecureStorage CryptoLaws.
Context `{NodeCrypto} `{NodeScrypt} `{!SymmetricLaws} `{!ScryptLaws}.

Lemma find_email_set_new (m : JSMap.t StoredUser.t) (k email : string)
    (u : StoredUser.t) :
  List.find (fun user => String.eqb (StoredUser.email user) email) (JSMap.values m) = None ->
  StoredUser.email u = email ->
  List.find (fun user => String.eqb (StoredUser.email user) email)
            (JSMap.values (JSMap.set m k u)) = Some u.
Proof.
  intros Hnone Hu. induction m as [|[k' v'] rest IH]; cbn in *.
  - rewrite Hu, String.eqb_refl. reflexivity.
  - destruct (String.eqb (StoredUser.email v') email) eqn:Hv'; [discriminate |].
    case_bool_decide; cbn.
    + rewrite Hu, String.eqb_refl. reflexivity.
    + rewrite Hv'. apply IH, Hnone.
Qed.

(** The user that [storeUser] files. *)
Lemma storeUser_ok (st : SecureStorage.t) (createdAt lastSeen : string)
    (idBytes salt iv : list byte) (user : NewUser.t) :
  List.length iv = 16%nat ->
  exists blob,
    encryptWithPassword (NewUser.privateKey user) (NewUser.password user) salt iv = Ok blob
    /\ storeUser st createdAt lastSeen idBytes salt iv user
       = Ok (toString_hex idBytes,
             with_users st
               (JSMap.set (users st) (toString_hex idBytes)
                  {| StoredUser.id := toString_hex idBytes;
                     StoredUser.email := NewUser.email user;
                     StoredUser.passwordHash := NewUser.passwordHash user;
                     StoredUser.publicKey := NewUser.publicKey user;
                     StoredUser.encryptedPrivateKey := blob;
                     StoredUser.createdAt := createdAt;
                     StoredUser.lastSeen := lastSeen;
                     StoredUser.isOnline := false;
                     StoredUser.emailVerified := false |})).
Proof.
  intros Hiv. eexists. split; [apply encryptWithPassword_blob; assumption |].
  unfold storeUser. rewrite encryptWithPassword_blob by assumption. reflexivity.
Qed.

(** X18.  For an address that no stored user has, and 16-byte salt and
    vector, [storeUser] succeeds; afterwards the user is found under the
    returned id and under the address, is offline, its private key decrypts
    under the password, and [getUserPublicKey] gives the public key unless
    it is the empty text. *)
Theorem storeUser_then_found (st : SecureStorage.t) (createdAt lastSeen : string)
    (idBytes salt iv : list byte) (user : NewUser.t) :
  List.length salt = 16%nat -> List.length iv = 16%nat ->
  getUserByEmail st (NewUser.email user) = None ->
  exists st' stored,
    storeUser st createdAt lastSeen idBytes salt iv user = Ok (toString_hex idBytes, st')
    /\ getUserById st' (toString_hex idBytes) = Some stored
    /\ getUserByEmail st' (NewUser.email user) = Some stored
    /\ StoredUser.id stored = toString_hex idBytes
    /\ StoredUser.passwordHash stored = NewUser.passwordHash user
    /\ StoredUser.isOnline stored = false
    /\ decryptWithPassword (StoredUser.encryptedPrivateKey stored) (NewUser.password user)
       = Ok (NewUser.privateKey user)
    /\ getUserPublicKey st' (NewUser.email user)
       = (if String.eqb (NewUser.publicKey user) EmptyString then None
          else Some (NewUser.publicKey user))
    /\ sessions st' = sessions st /\ usedNonces st' = usedNonces st.
Proof.
  intros Hsalt Hiv Hnew.
  destruct (storeUser_ok st createdAt lastSeen idBytes salt iv user Hiv)
    as (blob & Hblob & Hstore).
  set (stored := {| StoredUser.id := toString_hex idBytes;
                    StoredUser.email := NewUser.email user;
                    StoredUser.passwordHash := NewUser.passwordHash user;
                    StoredUser.publicKey := NewUser.publicKey user;
                    StoredUser.encryptedPrivateKey := blob;
                    StoredUser.createdAt := createdAt;
                    StoredUser.lastSeen := lastSeen;
                    StoredUser.isOnline := false;
                    StoredUser.emailVerified := false |}) in *.
  exists (with_users st (JSMap.set (users st) (toString_hex idBytes) stored)), stored.
  assert (Hfound : getUserByEmail
            (with_users st (JSMap.set (users st) (toString_hex idBytes) stored))
            (NewUser.email user) = Some stored).
  { unfold getUserByEmail. cbn [users with_users].
    apply find_email_set_new; [exact Hnew | reflexivity]. }
  split_and!; try reflexivity.
  - exact Hstore.
  - unfold getUserById. cbn [users with_users].
    rewrite JSMap_get_set, bool_decide_eq_true_2; reflexivity.
  - exact Hfound.
  - apply (decryptWithPassword_sealed _ _ salt iv); assumption.
  - unfold getUserPublicKey. rewrite Hfound. reflexivity.
Qed.
End Users.

Lemma storeUser_then_found_witness :
  exists st' stored,
    SecureStorage.storeUser (H := Reference.crypto) (H0 := Reference.scrypt)
      SecureStorage.empty "2024-01-01T00:00:00.000Z" "2024-01-01T00:00:00.000Z"
      [x75; x31] (repeat x05 16) (repeat x07 16)
      (NewUser.mk "alice@example.com" "bcrypt(Correct-Horse-42!)" "rsa-public:01"
                  "rsa-private:01" "Correct-Horse-42!")
    = Ok ("7531", st')
    /\ SecureStorage.getUserById st' "7531" = Some stored.
Proof.
  destruct (storeUser_then_found
              (H := Reference.crypto) (H0 := Reference.scrypt)
              (H1 := Reference_symmetric_laws) (H2 := Reference_scrypt_laws)
              SecureStorage.empty "2024-01-01T00:00:00.000Z" "2024-01-01T00:00:00.000Z"
              [x75; x31] (repeat x05 16) (repeat x07 16)
              (NewUser.mk "alice@example.com" "bcrypt(Correct-Horse-42!)" "rsa-public:01"
                          "rsa-private:01" "Correct-Horse-42!"))
    as (st' & stored & Hstore & Hid & _); [reflexivity | reflexivity | reflexivity |].
  exists st', stored. split; assumption.
Defined.

(** ** The message store *)

Section Messages.
Import SecureCrypto SecureStorage CryptoLaws JSON.
Context `{NodeCrypto} `{JsonLib} `{!SymmetricLaws}.

Lemma caught_decrypt_sealed (plaintext : string) (key iv : list byte) :
  List.length key = 32%nat -> List.length iv = 16%nat ->
  caught (decrypt (sealed plaintext key iv) key) = Some plaintext.
Proof. intros Hk Hiv. rewrite decrypt_sealed_same by assumption. reflexivity. Qed.

Lemma caught_decrypt_keylen (blob : EncryptedData.t) (key : list byte) :
  List.length key <> 32%nat -> caught (decrypt blob key) = None.
Proof.
  intros Hkey. unfold decrypt.
  destruct (timingSafeEqual _ _) as [[] | e]; cbn; [| reflexivity | reflexivity].
  destruct (createCipheriv_refuses key (Buffer_from_hex (EncryptedData.iv blob)) Hkey)
    as [e ->].
  reflexivity.
Qed.

(** X19.  Under a 32-byte storage key and 16-byte vectors, and with
    attachments that JSON reads back, [storeMessage] succeeds and
    [getMessage] of the returned id gives the payload back, except that
    attachments which count as false are dropped; every other id reads as
    before. *)
Theorem getMessage_storeMessage (box : mail) (nowIso : string)
    (idBytes ivSubject ivBody ivAttachments : list byte) (from to : string)
    (messagePayload : MessagePayload.t) :
  List.length (storageKey box) = 32%nat ->
  List.length ivSubject = 16%nat -> List.length ivBody = 16%nat ->
  List.length ivAttachments = 16%nat ->
  (forall value, MessagePayload.attachments messagePayload = Some value ->
                 truthy value = true -> reads_back value) ->
  exists box',
    storeMessage box nowIso idBytes ivSubject ivBody ivAttachments from to messagePayload
    = Ok (toString_hex idBytes, box')
    /\ getMessage box' (toString_hex idBytes)
       = Some {| MessagePayload.subject := MessagePayload.subject messagePayload;
                 MessagePayload.body := MessagePayload.body messagePayload;
                 MessagePayload.attachments :=
                   stored_attachments (MessagePayload.attachments messagePayload);
                 MessagePayload.replyTo := MessagePayload.replyTo messagePayload;
                 MessagePayload.threadId := MessagePayload.threadId messagePayload |}
    /\ forall other, other <> toString_hex idBytes ->
         getMessage box' other = getMessage box other.
Proof.
  intros Hkey HivS HivB HivA Hreads. unfold storeMessage.
  rewrite !encrypt_sealed by assumption. cbn [mbind Res_bind bindRes].
  destruct messagePayload as [subject body attachments replyTo threadId].
  cbn [MessagePayload.subject MessagePayload.body MessagePayload.attachments
       MessagePayload.replyTo MessagePayload.threadId] in *.
  assert (Hget : forall m k v, getMessage (with_messages box (JSMap.set m k v)) k
                               = openMessage (storageKey box) v).
  { intros m k v. unfold getMessage. cbn [messages storageKey with_messages].
    rewrite JSMap_get_set, bool_decide_eq_true_2; reflexivity. }
  assert (Hother : forall m k v other, other <> k ->
            getMessage (with_messages box (JSMap.set m k v)) other
            = match JSMap.get m other with
              | Some storedMessage => openMessage (storageKey box) storedMessage
              | None => None
              end).
  { intros m k v other Hne. unfold getMessage. cbn [messages storageKey with_messages].
    rewrite JSMap_get_set, bool_decide_eq_false_2 by congruence. reflexivity. }
  destruct attachments as [value |]; [destruct (truthy value) eqn:Htruthy |].
  - rewrite encrypt_sealed by assumption. cbn [mbind Res_bind bindRes].
    eexists. split; [reflexivity |]. split; [| intros other Hne; apply Hother, Hne].
    rewrite Hget. unfold openMessage.
    cbn [StoredMessage.encryptedSubject StoredMessage.encryptedBody
         StoredMessage.encryptedAttachments StoredMessage.replyTo StoredMessage.threadId].
    rewrite !caught_decrypt_sealed by assumption. cbn [mbind option_bind].
    rewrite (Hreads value eq_refl Htruthy). cbn [mbind option_bind stored_attachments].
    rewrite Htruthy. reflexivity.
  - eexists. split; [reflexivity |]. split; [| intros other Hne; apply Hother, Hne].
    rewrite Hget. unfold openMessage.
    cbn [StoredMessage.encryptedSubject StoredMessage.encryptedBody
         StoredMessage.encryptedAttachments StoredMessage.replyTo StoredMessage.threadId].
    rewrite !caught_decrypt_sealed by assumption.
    cbn [mbind option_bind stored_attachments]. rewrite Htruthy. reflexivity.
  - eexists. split; [reflexivity |]. split; [| intros other Hne; apply Hother, Hne].
    rewrite Hget. unfold openMessage.
    cbn [StoredMessage.encryptedSubject StoredMessage.encryptedBody
         StoredMessage.encryptedAttachments StoredMessage.replyTo StoredMessage.threadId].
    rewrite !caught_decrypt_sealed by assumption. reflexivity.
Qed.

(** X20.  With a storage key that is not 32 bytes long, [getMessage]
    gives nothing for any id, also for a message that is stored, and
    [storeMessage] throws before anything is stored: the key-length error of
    the cipher when the vector drawn for the subject has its 16 bytes (the
    invalid-vector error could only come first for a vector of another
    length). *)
Theorem message_store_needs_32_byte_key (box : mail) (nowIso : string)
    (idBytes ivSubject ivBody ivAttachments : list byte) (from to messageId : string)
    (messagePayload : MessagePayload.t) :
  List.length (storageKey box) <> 32%nat ->
  getMessage box messageId = None
  /\ (exists e,
        storeMessage box nowIso idBytes ivSubject ivBody ivAttachments from to messagePayload
        = Throw e)
  /\ (List.length ivSubject = 16%nat ->
      storeMessage box nowIso idBytes ivSubject ivBody ivAttachments from to messagePayload
      = Throw ERR_CRYPTO_INVALID_KEYLEN)
  /\ (List.length ivSubject <> 16%nat ->
      storeMessage box nowIso idBytes ivSubject ivBody ivAttachments from to messagePayload
      = Throw ERR_CRYPTO_INVALID_IV).
Proof.
  intros Hkey. split_and!.
  - unfold getMessage. destruct (JSMap.get (messages box) messageId) as [stored |];
      [| reflexivity].
    unfold openMessage. rewrite !caught_decrypt_keylen by assumption. reflexivity.
  - destruct (createCipheriv_refuses (storageKey box) ivSubject Hkey) as [e He].
    exists e. unfold storeMessage, encrypt. rewrite He. reflexivity.
  - intros Hiv. unfold storeMessage, encrypt.
    rewrite (createCipheriv_keylen _ ivSubject) by assumption. reflexivity.
  - intros Hiv. unfold storeMessage, encrypt.
    rewrite (createCipheriv_ivlen _ ivSubject) by assumption. reflexivity.
Qed.
End Messages.

Lemma getMessage_storeMessage_witness :
  exists box',
    SecureStorage.storeMessage (H := Reference.crypto) (H0 := Reference.json)
      Reference.mailbox0 "2024-01-01T00:05:00.001Z" [x6d; x34]
      (repeat x02 16) (repeat x03 16) (repeat x04 16)
      "alice@example.com" "bob@example.com"
      (MessagePayload.mk "Hello" "How are you?" (Some (JSON.JBool false)) None None)
    = Ok ("6d34", box')
    /\ SecureStorage.getMessage (H := Reference.crypto) (H0 := Reference.json) box' "6d34"
       = Some (MessagePayload.mk "Hello" "How are you?" None None None).
Proof.
  destruct (getMessage_storeMessage (H := Reference.crypto) (H0 := Reference.json)
              (H1 := Reference_symmetric_laws)
              Reference.mailbox0 "2024-01-01T00:05:00.001Z" [x6d; x34]
              (repeat x02 16) (repeat x03 16) (repeat x04 16)
              "alice@example.com" "bob@example.com"
              (MessagePayload.mk "Hello" "How are you?" (Some (JSON.JBool false)) None None))
    as (box' & Hstore & Hget & _);
    [reflexivity | reflexivity | reflexivity | reflexivity
    | intros value [= <-]; discriminate |].
  exists box'. split; assumption.
Defined.

Lemma message_store_needs_32_byte_key_witness :
  SecureStorage.getMessage (H := Reference.crypto) (H0 := Reference.json)
    (SecureStorage.initialize Reference.mailbox0 "00ff") "m1" = None
  /\ SecureStorage.storeMessage (H := Reference.crypto) (H0 := Reference.json)
       (SecureStorage.initialize Reference.mailbox0 "00ff") "2024-01-01T00:05:00.001Z"
       [x6d; x34] (repeat x02 16) (repeat x03 16) (repeat x04 16)
       "alice@example.com" "bob@example.com"
       (MessagePayload.mk "Hello" "How are you?" None None None)
     = Throw ERR_CRYPTO_INVALID_KEYLEN.
Proof.
  destruct (message_store_needs_32_byte_key (H := Reference.crypto) (H0 := Reference.json)
              (SecureStorage.initialize Reference.mailbox0 "00ff")
              "2024-01-01T00:05:00.001Z" [x6d; x34]
              (repeat x02 16) (repeat x03 16) (repeat x04 16)
              "alice@example.com" "bob@example.com" "m1"
              (MessagePayload.mk "Hello" "How are you?" None None None))
    as (Hget & _ & Hstore & _).
  - vm_compute. discriminate.
  - split; [exact Hget | apply Hstore; reflexivity].
Defined.

(** ** The inbox *)

Section InboxFacts.
Import SecureCrypto SecureStorage CryptoLaws JSON SecurityUtils.
Context `{NodeCrypto} `{JsonLib} `{DateLib} `{ArraySort} `{!SortLaws}.

Lemma slice_to_take {A : Type} (limit : Z) (arr : list A) :
  exists n, slice_to limit arr = take n arr.
Proof. unfold slice_to. destruct (limit <? 0); eexists; reflexivity. Qed.

Lemma slice_to_length {A : Type} (limit : Z) (arr : list A) :
  Z.of_nat (List.length (slice_to limit arr))
  = if limit <? 0 then Z.max (Z.of_nat (List.length arr) + limit) 0
    else Z.min limit (Z.of_nat (List.length arr)).
Proof.
  unfold slice_to. destruct (Z.ltb_spec limit 0); rewrite length_take; lia.
Qed.

Lemma filter_length_le {A : Type} (P Q : A -> bool) (l : list A) :
  (forall x, P x = true -> Q x = true) ->
  (List.length (List.filter P l) <= List.length (List.filter Q l))%nat.
Proof.
  intros HPQ. induction l as [|x l IH]; cbn; [lia |].
  destruct (P x) eqn:HP.
  - rewrite (HPQ x HP). cbn. lia.
  - destruct (Q x); cbn; lia.
Qed.

(** The time of a stored message, 0 when the text is no date. *)
Lemma newest_first_key (arr : list StoredMessage.t) :
  (forall msg, msg ∈ arr -> is_Some (Date_parse (StoredMessage.timestamp msg))) ->
  forall a b, a ∈ arr -> b ∈ arr ->
    newest_first a b
    = Some ((fun msg => - default 0 (Date_parse (StoredMessage.timestamp msg))) a
            - (fun msg => - default 0 (Date_parse (StoredMessage.timestamp msg))) b).
Proof.
  intros Hdates a b Ha Hb. unfold newest_first.
  destruct (Hdates a Ha) as [ta ->], (Hdates b Hb) as [tb ->]. cbn. f_equal. lia.
Qed.

(** X21.  [getInbox] lists only stored messages addressed to the user,
    none of them twice; the number listed is [limit] cut to the number of
    the user's messages, or that number less [-limit] for a negative
    [limit]; unread messages are never more than all; and when every
    timestamp of the user's messages is a date, the list runs from the
    newest to the oldest. *)
Theorem getInbox_lists_own_mail (box : mail) (userEmail : string) (limit : Z) :
  let inbox := getInbox box userEmail limit in
  (forall entry, entry ∈ Inbox.messages inbox ->
     InboxEntry.to entry = userEmail
     /\ exists msg, msg ∈ JSMap.values (messages box)
          /\ StoredMessage.id msg = InboxEntry.id entry
          /\ StoredMessage.from msg = InboxEntry.from entry
          /\ StoredMessage.timestamp msg = InboxEntry.timestamp entry)
  /\ InboxEntry.id <$> Inbox.messages inbox
       ⊆+ StoredMessage.id <$> JSMap.values (messages box)
  /\ Z.of_nat (List.length (Inbox.messages inbox))
     = (if limit <? 0 then Z.max (Z.of_nat (Inbox.totalCount inbox) + limit) 0
        else Z.min limit (Z.of_nat (Inbox.totalCount inbox)))
  /\ (Inbox.unreadCount inbox <= Inbox.totalCount inbox)%nat
  /\ ((forall msg, msg ∈ JSMap.values (messages box) ->
         StoredMessage.to msg = userEmail ->
         is_Some (Date_parse (StoredMessage.timestamp msg))) ->
      StronglySorted
        (fun earlier later =>
           forall t t', Date_parse (InboxEntry.timestamp earlier) = Some t ->
                        Date_parse (InboxEntry.timestamp later) = Some t' -> t' <= t)
        (Inbox.messages inbox)).
Proof.
  cbv zeta. unfold getInbox. cbv zeta.
  cbn [Inbox.messages Inbox.totalCount Inbox.unreadCount].
  set (mine := List.filter (addressed_to userEmail) (JSMap.values (messages box))).
  set (sorted := Array_sort newest_first mine).
  assert (Hperm : sorted ≡ₚ mine) by apply sort_permutation.
  destruct (slice_to_take limit sorted) as [n Hslice].
  assert (Hmine : forall msg, msg ∈ mine ->
            msg ∈ JSMap.values (messages box) /\ StoredMessage.to msg = userEmail).
  { intros msg Hin. unfold mine in Hin.
    apply list_elem_of_In, filter_In in Hin as [Hin Hto].
    split; [apply list_elem_of_In, Hin |]. apply String.eqb_eq, Hto. }
  split_and!.
  - intros entry Hentry. apply list_elem_of_In, in_map_iff in Hentry as (msg & <- & Hin).
    apply list_elem_of_In in Hin. rewrite Hslice in Hin.
    pose proof (elem_of_sublist _ _ _ Hin (sublist_take sorted n)) as Hin'.
    clear Hin. rewrite Hperm in Hin'. destruct (Hmine msg Hin') as [Hstored Hto].
    cbn. split; [exact Hto |]. exists msg. auto.
  - change (List.map ?f ?l) with (f <$> l). rewrite <- list_fmap_compose.
    change (_ ∘ _) with StoredMessage.id. rewrite Hslice.
    apply fmap_submseteq. etrans; [apply sublist_submseteq, sublist_take |].
    rewrite Hperm. apply sublist_submseteq. unfold mine.
    clear. induction (JSMap.values (messages box)) as [|x l IH]; cbn; [constructor |].
    destruct (addressed_to userEmail x); [apply sublist_skip | apply sublist_cons]; exact IH.
  - rewrite length_map, slice_to_length. fold sorted.
    rewrite (Permutation_length Hperm). reflexivity.
  - apply filter_length_le. intros x Hx. apply andb_true_iff in Hx as [Hx _]. exact Hx.
  - intros Hdates. change (List.map ?f ?l) with (f <$> l).
    rewrite Hslice.
    apply (StronglySorted_fmap _
             (fun a b => - default 0 (Date_parse (StoredMessage.timestamp a))
                         <= - default 0 (Date_parse (StoredMessage.timestamp b)))).
    + intros a b Hab t t' Ht Ht'. cbn in Ht, Ht'. rewrite Ht, Ht' in Hab. cbn in Hab. lia.
    + apply (StronglySorted_app_1_l _ _ (drop n sorted)). rewrite take_drop.
      apply (sort_sorted _ newest_first
               (fun msg => - default 0 (Date_parse (StoredMessage.timestamp msg)))).
      apply newest_first_key. intros msg Hin.
      destruct (Hmine msg Hin) as [Hstored Hto]. apply Hdates; assumption.
Qed.

Lemma count_set (P : StoredMessage.t -> bool) (m : JSMap.t StoredMessage.t)
    (k : string) (v v' : StoredMessage.t) :
  JSMap.get m k = Some v ->
  (List.length (List.filter P (JSMap.values (JSMap.set m k v'))) + (if P v then 1 else 0)
   = List.length (List.filter P (JSMap.values m)) + (if P v' then 1 else 0))%nat.
Proof.
  induction m as [|[k0 v0] rest IH]; [discriminate |].
  cbn. case_bool_decide as Hk; cbn.
  - intros [= ->]. destruct (P v), (P v'); cbn; lia.
  - intros Hget. specialize (IH Hget). unfold JSMap.values in IH.
    destruct (P v0); cbn; lia.
Qed.

Lemma count_delete (P : StoredMessage.t -> bool) (m : JSMap.t StoredMessage.t)
    (k : string) (v : StoredMessage.t) :
  JSMap.get m k = Some v ->
  (List.length (List.filter P (JSMap.values (JSMap.delete m k))) + (if P v then 1 else 0)
   = List.length (List.filter P (JSMap.values m)))%nat.
Proof.
  induction m as [|[k0 v0] rest IH]; [discriminate |].
  cbn. case_bool_decide as Hk; cbn.
  - intros [= ->]. destruct (P v); cbn; lia.
  - intros Hget. specialize (IH Hget). unfold JSMap.values in IH.
    destruct (P v0); cbn; lia.
Qed.

Lemma JSMap_get_delete_ne (m : JSMap.t StoredMessage.t) (k other : string) :
  other <> k -> JSMap.get (JSMap.delete m k) other = JSMap.get m other.
Proof.
  intros Hne. induction m as [|[k0 v0] rest IH]; [reflexivity |].
  cbn. case_bool_decide as Hk; cbn.
  - subst k0. rewrite bool_decide_eq_false_2 by congruence. reflexivity.
  - rewrite IH. reflexivity.
Qed.

(** X22.  For a stored message, [markAsRead] and [deleteMessage] answer
    true; marking leaves the number of the addressee's messages and takes
    one from the unread ones if the message was unread; deleting takes one
    from the number of the addressee's messages; the inboxes of other
    users keep their counts, and every other message reads as before. *)
Theorem markAsRead_deleteMessage_counts (box : mail) (messageId userEmail : string)
    (limit : Z) (msg : StoredMessage.t) :
  JSMap.get (messages box) messageId = Some msg ->
  let read := snd (markAsRead box messageId) in
  let gone := snd (deleteMessage box messageId) in
  let mine := if addressed_to userEmail msg then 1%nat else 0%nat in
  let unread := if addressed_to userEmail msg && negb (StoredMessage.isRead msg)
                then 1%nat else 0%nat in
  fst (markAsRead box messageId) = true
  /\ fst (deleteMessage box messageId) = true
  /\ Inbox.totalCount (getInbox read userEmail limit)
     = Inbox.totalCount (getInbox box userEmail limit)
  /\ (Inbox.unreadCount (getInbox read userEmail limit) + unread)%nat
     = Inbox.unreadCount (getInbox box userEmail limit)
  /\ (Inbox.totalCount (getInbox gone userEmail limit) + mine)%nat
     = Inbox.totalCount (getInbox box userEmail limit)
  /\ (Inbox.unreadCount (getInbox gone userEmail limit) + unread)%nat
     = Inbox.unreadCount (getInbox box userEmail limit)
  /\ (forall other, getMessage read other = getMessage box other)
  /\ (forall other, other <> messageId -> getMessage gone other = getMessage box other).
Proof.
  intros Hget. cbv zeta. unfold markAsRead, deleteMessage. rewrite Hget.
  cbn [fst snd]. unfold getInbox. cbv zeta.
  cbn [Inbox.totalCount Inbox.unreadCount messages with_messages].
  split_and!.
  - reflexivity.
  - apply bool_decide_eq_true_2. eexists; reflexivity.
  - pose proof (count_set (addressed_to userEmail) _ _ _
                  (StoredMessage.set_isRead msg true) Hget) as Hcount.
    change (addressed_to userEmail (StoredMessage.set_isRead msg true))
      with (addressed_to userEmail msg) in Hcount. lia.
  - pose proof (count_set
                  (fun m => addressed_to userEmail m && negb (StoredMessage.isRead m))
                  _ _ _ (StoredMessage.set_isRead msg true) Hget) as Hcount.
    cbn beta in Hcount.
    change (StoredMessage.isRead (StoredMessage.set_isRead msg true)) with true in Hcount.
    rewrite andb_false_r in Hcount. lia.
  - apply (count_delete (addressed_to userEmail) _ _ _ Hget).
  - apply (count_delete
             (fun m => addressed_to userEmail m && negb (StoredMessage.isRead m))
             _ _ _ Hget).
  - intros other. unfold getMessage. cbn [messages storageKey with_messages].
    rewrite JSMap_get_set. case_bool_decide as Hk; [| reflexivity].
    subst other. rewrite Hget. reflexivity.
  - intros other Hne. unfold getMessage. cbn [messages storageKey with_messages].
    rewrite JSMap_get_delete_ne by assumption. reflexivity.
Qed.
End InboxFacts.

Lemma insert_sorted_Permutation {A : Type} (compare : A -> A -> option Z) (x : A)
    (arr : list A) :
  Reference.insert_sorted compare x arr ≡ₚ x :: arr.
Proof.
  induction arr as [|y rest IH]; cbn; [reflexivity |].
  destruct (compare x y) as [d |]; [| reflexivity].
  destruct (0 <? d); [| reflexivity].
  rewrite IH. apply Permutation_swap.
Qed.

Lemma insert_sorted_StronglySorted {A : Type} (compare : A -> A -> option Z)
    (key : A -> Z) (x : A) (arr : list A) :
  (forall y, y ∈ arr -> compare x y = Some (key x - key y)) ->
  StronglySorted (fun a b => key a <= key b) arr ->
  StronglySorted (fun a b => key a <= key b) (Reference.insert_sorted compare x arr).
Proof.
  intros Hcmp Hsorted. induction arr as [|y rest IH]; cbn.
  - repeat constructor.
  - apply StronglySorted_cons in Hsorted as [Hy Hrest].
    rewrite (Hcmp y) by left.
    destruct (Z.ltb_spec 0 (key x - key y)) as [Hlt | Hle].
    + apply StronglySorted_cons. split.
      * rewrite insert_sorted_Permutation. constructor; [lia | exact Hy].
      * apply IH; [| exact Hrest]. intros z Hz. apply Hcmp. right. exact Hz.
    + apply StronglySorted_cons. split.
      * constructor; [lia |]. eapply Forall_impl; [exact Hy |]. cbn. intros z Hz. lia.
      * apply StronglySorted_cons. split; assumption.
Qed.

Lemma Reference_sort_laws : CryptoLaws.SortLaws (H := Reference.sort).
Proof.
  split.
  - intros A compare arr. cbn. induction arr as [|x arr IH]; cbn; [reflexivity |].
    rewrite insert_sorted_Permutation, IH. reflexivity.
  - intros A compare key arr Hcmp. cbn.
    induction arr as [|x arr IH]; cbn; [constructor |].
    apply insert_sorted_StronglySorted.
    + intros y Hy. apply Hcmp; [left |].
      right. clear -Hy. revert Hy.
      assert (Hperm : foldr (Reference.insert_sorted compare) [] arr ≡ₚ arr).
      { induction arr as [|z arr IH]; cbn; [reflexivity |].
        rewrite insert_sorted_Permutation, IH. reflexivity. }
      rewrite Hperm. auto.
    + apply IH. intros a b Ha Hb. apply Hcmp; right; assumption.
Qed.

Lemma getInbox_lists_own_mail_witness :
  StronglySorted
    (fun earlier later =>
       forall t t',
         SecurityUtils.Date_parse (DateLib := Reference.dates)
           (InboxEntry.timestamp earlier) = Some t ->
         SecurityUtils.Date_parse (DateLib := Reference.dates)
           (InboxEntry.timestamp later) = Some t' -> t' <= t)
    (Inbox.messages
       (SecureStorage.getInbox (H := Reference.crypto) (H0 := Reference.json)
          (H1 := Reference.dates) (H2 := Reference.sort)
          Reference.mailbox0 "bob@example.com" 50)).
Proof.
  destruct (getInbox_lists_own_mail (H := Reference.crypto) (H0 := Reference.json)
              (H1 := Reference.dates) (H2 := Reference.sort) (H3 := Reference_sort_laws)
              Reference.mailbox0 "bob@example.com" 50) as (_ & _ & _ & _ & Hsorted).
  apply Hsorted. intros msg Hin _.
  repeat (apply elem_of_cons in Hin as [-> | Hin]; [eexists; vm_compute; reflexivity |]).
  inversion Hin.
Defined.

Lemma markAsRead_deleteMessage_counts_witness :
  Inbox.unreadCount
    (SecureStorage.getInbox (H := Reference.crypto) (H0 := Reference.json)
       (H1 := Reference.dates) (H2 := Reference.sort)
       (snd (SecureStorage.markAsRead Reference.mailbox0 "m3")) "bob@example.com" 50)
  = 0%nat.
Proof.
  destruct (markAsRead_deleteMessage_counts (H := Reference.crypto) (H0 := Reference.json)
              (H1 := Reference.dates) (H2 := Reference.sort)
              Reference.mailbox0 "m3" "bob@example.com" 50
              (snd (Reference.letter "m3" "carol@example.com" "bob@example.com" "third"
                      "2024-01-01T00:05:00.001Z" false)) eq_refl)
    as (_ & _ & _ & Hunread & _).
  vm_compute in Hunread. vm_compute. lia.
Defined.

Example getInbox_newest_first :
  let inbox :=
    SecureStorage.getInbox (H := Reference.crypto) (H0 := Reference.json)
      (H1 := Reference.dates) (H2 := Reference.sort)
      Reference.mailbox0 "bob@example.com" 50 in
  (fun entry => (InboxEntry.id entry, InboxEntry.subject entry)) <$> Inbox.messages inbox
    = [("m3", "third"); ("m1", "first")]
  /\ Inbox.totalCount inbox = 2%nat /\ Inbox.unreadCount inbox = 1%nat.
Proof. vm_compute. repeat split. Qed.

(** ** The reference tokens *)

Section ReferenceTokens.
Import SecureCrypto SecurityUtils.

Lemma toString_hex_no_dot (buf : list byte) :
  forall_chars (fun c => negb (Ascii.eqb c ".")) (toString_hex buf) = true.
Proof.
  induction buf as [|b rest IH]; [reflexivity |].
  cbn [toString_hex forall_chars]. rewrite IH. destruct b; reflexivity.
Qed.

Lemma split_on_no_sep (sep : ascii) (piece : string) :
  forall_chars (fun c => negb (Ascii.eqb c sep)) piece = true ->
  split_on sep piece = [piece].
Proof.
  induction piece as [|c piece IH]; [reflexivity |].
  cbn. intros Hc. apply andb_true_iff in Hc as [Hc Hpiece].
  apply negb_true_iff in Hc. rewrite Hc, (IH Hpiece). reflexivity.
Qed.

Lemma split_on_piece (sep : ascii) (piece rest : string) :
  forall_chars (fun c => negb (Ascii.eqb c sep)) piece = true ->
  split_on sep (piece +:+ String sep rest) = piece :: split_on sep rest.
Proof.
  induction piece as [|c piece IH]; intros Hc.
  - change (EmptyString +:+ String sep rest) with (String sep rest).
    cbn. rewrite Ascii.eqb_refl. reflexivity.
  - rewrite string_app_cons. cbn in Hc |- *.
    apply andb_true_iff in Hc as [Hc Hpiece].
    apply negb_true_iff in Hc. rewrite Hc, (IH Hpiece). reflexivity.
Qed.

Lemma split_on_join_dots (parts : list string) :
  parts <> [] ->
  Forall (fun part => forall_chars (fun c => negb (Ascii.eqb c ".")) part = true) parts ->
  split_on "." (Reference.join_dots parts) = parts.
Proof.
  intros Hne Hparts. induction Hparts as [|part rest Hpart Hrest IH]; [congruence |].
  destruct rest as [|next rest].
  - cbn. apply split_on_no_sep, Hpart.
  - change (Reference.join_dots (part :: next :: rest))
      with (part +:+ String "." (Reference.join_dots (next :: rest))).
    rewrite (split_on_piece _ _ _ Hpart), IH by discriminate. reflexivity.
Qed.

Lemma text_of_hex_of_text (text : string) :
  Reference.text_of_hex (Reference.hex_of_text text) = text.
Proof.
  unfold Reference.text_of_hex, Reference.hex_of_text.
  rewrite Buffer_from_hex_toString_hex. apply string_of_list_byte_of_string.
Qed.

Lemma of_decimal_decimal (z : Z) : Reference.of_decimal (Reference.decimal z) = Some z.
Proof.
  unfold Reference.of_decimal, Reference.decimal.
  rewrite NilEmpty.isi. cbn. rewrite DecimalZ.of_to. reflexivity.
Qed.
End ReferenceTokens.

(** The reference tokens meet the contract of [jwt.verify]. *)
Lemma Reference_jwt_laws : CryptoLaws.JwtLaws (H := Reference.jwt).
Proof.
  split. intros userId email jti secret expiresIn seconds now now' Hlife Hfresh.
  assert (Hseconds : Reference.lifetime expiresIn = seconds)
    by (destruct Hlife as [[-> ->] | [-> ->]]; reflexivity).
  cbv [AuthService.jwt_verify AuthService.jwt_sign Reference.jwt]. cbv zeta.
  rewrite split_on_join_dots;
    [| discriminate
     | repeat constructor; unfold Reference.hex_of_text; apply toString_hex_no_dot].
  rewrite !text_of_hex_of_text, String.eqb_refl, !of_decimal_decimal, Hseconds.
  destruct (Z.ltb_spec (now' / 1000) (now / 1000 + seconds)); [reflexivity | lia].
Qed.

(** ** Registration *)

Section Registration.
Import SecureCrypto SecureStorage AuthService CryptoLaws SecurityUtils.
Context `{NodeCrypto} `{NodeScrypt} `{JwtLib} `{BcryptLib}.
Context `{!SymmetricLaws} `{!ScryptLaws} `{!BcryptLaws}.
Variable JWT_SECRET : string.

(** The user record that a successful [register] files. *)
Lemma register_ok (st : SecureStorage.t) (clk : Clock) (rnd : RegisterRandom.t)
    (email password : string) :
  validateEmail email = true -> fst (validatePassword password) = true ->
  getUserByEmail st email = None ->
  List.length (RegisterRandom.keyIv rnd) = 16%nat ->
  let keyPair := generateKeyPair (RegisterRandom.keyEntropy rnd) in
  let userId := toString_hex (RegisterRandom.userIdBytes rnd) in
  let jti := toString_hex (RegisterRandom.jtiBytes rnd) in
  exists blob,
    encryptWithPassword (KeyPair.privateKey keyPair) password
      (RegisterRandom.keySalt rnd) (RegisterRandom.keyIv rnd) = Ok blob
    /\ register JWT_SECRET st clk rnd email password
       = ({| RegisterResult.success := true;
             RegisterResult.message := "User registered successfully";
             RegisterResult.user :=
               Some {| RegisteredUser.id := userId;
                       RegisteredUser.email := email;
                       RegisteredUser.publicKey := KeyPair.publicKey keyPair |};
             RegisterResult.tokens :=
               Some (fst (generateTokens JWT_SECRET clk (RegisterRandom.jtiBytes rnd)
                            userId email)) |},
          storeSession
            (with_users st
               (JSMap.set (users st) userId
                  {| StoredUser.id := userId;
                     StoredUser.email := email;
                     StoredUser.passwordHash :=
                       hashPassword password (RegisterRandom.bcryptSalt rnd);
                     StoredUser.publicKey := KeyPair.publicKey keyPair;
                     StoredUser.encryptedPrivateKey := blob;
                     StoredUser.createdAt := nowIso clk;
                     StoredUser.lastSeen := nowIso clk;
                     StoredUser.isOnline := false;
                     StoredUser.emailVerified := false |}))
            (now clk) jti
            {| AuthSession.userId := userId;
               AuthSession.email := email;
               AuthSession.publicKey := KeyPair.publicKey keyPair;
               AuthSession.sessionId := jti;
               AuthSession.createdAt := now clk;
               AuthSession.expiresAt := now clk + SEVEN_DAYS_MS |}).
Proof.
  intros Hemail Hpassword Hnew Hiv. cbv zeta.
  destruct (storeUser_ok st (nowIso clk) (nowIso clk) (RegisterRandom.userIdBytes rnd)
              (RegisterRandom.keySalt rnd) (RegisterRandom.keyIv rnd)
              {| NewUser.email := email;
                 NewUser.passwordHash :=
                   hashPassword password (RegisterRandom.bcryptSalt rnd);
                 NewUser.publicKey :=
                   KeyPair.publicKey (generateKeyPair (RegisterRandom.keyEntropy rnd));
                 NewUser.privateKey :=
                   KeyPair.privateKey (generateKeyPair (RegisterRandom.keyEntropy rnd));
                 NewUser.password := password |} Hiv) as (blob & Hblob & Hstore).
  exists blob. split; [exact Hblob |].
  unfold register. rewrite Hemail, Hpassword, Hnew. cbn [negb].
  rewrite Hstore. reflexivity.
Qed.

(** What [success] says about the arguments of [register]. *)
Lemma register_success_inv (st : SecureStorage.t) (clk : Clock) (rnd : RegisterRandom.t)
    (email password : string) :
  RegisterResult.success (fst (register JWT_SECRET st clk rnd email password)) = true ->
  validateEmail email = true /\ fst (validatePassword password) = true
  /\ getUserByEmail st email = None.
Proof.
  unfold register.
  destruct (validateEmail email); [| discriminate].
  destruct (fst (validatePassword password)); [| discriminate].
  destruct (getUserByEmail st email); [discriminate |]. auto.
Qed.

(** X23.  With a 16-byte vector for the private key, [register] succeeds
    exactly when the address is well formed, the password passes
    [validatePassword] and no stored user has the address; when it fails
    it returns no tokens and leaves users, sessions and nonces as they
    were. *)
Theorem register_succeeds_iff (st : SecureStorage.t) (clk : Clock)
    (rnd : RegisterRandom.t) (email password : string) :
  List.length (RegisterRandom.keyIv rnd) = 16%nat ->
  let answer := register JWT_SECRET st clk rnd email password in
  RegisterResult.success (fst answer)
  = validateEmail email && fst (validatePassword password)
    && match getUserByEmail st email with Some _ => false | None => true end
  /\ (RegisterResult.success (fst answer) = false ->
      snd answer = st /\ RegisterResult.tokens (fst answer) = None
      /\ RegisterResult.user (fst answer) = None).
Proof.
  intros Hiv. cbv zeta.
  destruct (validateEmail email) eqn:Hemail;
    [| unfold register; rewrite Hemail; cbn; auto].
  destruct (fst (validatePassword password)) eqn:Hpassword;
    [| unfold register; rewrite Hemail, Hpassword; cbn; auto].
  destruct (getUserByEmail st email) as [existing |] eqn:Hnew;
    [unfold register; rewrite Hemail, Hpassword, Hnew; cbn; auto |].
  destruct (register_ok st clk rnd email password Hemail Hpassword Hnew Hiv)
    as (blob & _ & ->).
  cbn. split; [reflexivity | discriminate].
Qed.

(** X24.  After a successful [register] (16-byte salt and vector), [login]
    with the same address and password succeeds for the registered user
    id, and the encrypted private key it hands out decrypts under the
    password to the private key of the generated pair. *)
Theorem register_then_login (st : SecureStorage.t) (clk clk' : Clock)
    (rnd : RegisterRandom.t) (rnd' : list byte) (email password : string)
    (stringify : EncryptedData.t -> string) :
  List.length (RegisterRandom.keySalt rnd) = 16%nat ->
  List.length (RegisterRandom.keyIv rnd) = 16%nat ->
  RegisterResult.success (fst (register JWT_SECRET st clk rnd email password)) = true ->
  let keyPair := generateKeyPair (RegisterRandom.keyEntropy rnd) in
  let userId := toString_hex (RegisterRandom.userIdBytes rnd) in
  exists blob,
    decryptWithPassword blob password = Ok (KeyPair.privateKey keyPair)
    /\ fst (login JWT_SECRET stringify
              (snd (register JWT_SECRET st clk rnd email password))
              clk' rnd' email password)
       = {| LoginResult.success := true;
            LoginResult.message := "Login successful";
            LoginResult.user :=
              Some {| PublicUser.id := userId;
                      PublicUser.email := email;
                      PublicUser.publicKey := KeyPair.publicKey keyPair;
                      PublicUser.lastSeen := nowIso clk' |};
            LoginResult.tokens :=
              Some (fst (generateTokens JWT_SECRET clk' rnd' userId email));
            LoginResult.encryptedPrivateKey := Some (stringify blob) |}.
Proof.
  intros Hsalt Hiv Hok. cbv zeta.
  destruct (register_success_inv _ _ _ _ _ Hok) as (Hemail & Hpassword & Hnew).
  destruct (register_ok st clk rnd email password Hemail Hpassword Hnew Hiv)
    as (blob & Hblob & ->).
  exists blob. split; [apply (decryptWithPassword_sealed _ _ _ _ _ Hsalt Hiv Hblob) |].
  cbn [snd]. unfold login.
  set (stored := {| StoredUser.id := toString_hex (RegisterRandom.userIdBytes rnd);
                    StoredUser.email := email;
                    StoredUser.passwordHash :=
                      hashPassword password (RegisterRandom.bcryptSalt rnd);
                    StoredUser.publicKey :=
                      KeyPair.publicKey (generateKeyPair (RegisterRandom.keyEntropy rnd));
                    StoredUser.encryptedPrivateKey := blob;
                    StoredUser.createdAt := nowIso clk;
                    StoredUser.lastSeen := nowIso clk;
                    StoredUser.isOnline := false;
                    StoredUser.emailVerified := false |}).
  assert (Hfound : forall t jti session,
            getUserByEmail
              (storeSession
                 (with_users st
                    (JSMap.set (users st) (toString_hex (RegisterRandom.userIdBytes rnd))
                               stored)) t jti session) email = Some stored).
  { intros t jti session. unfold getUserByEmail.
    cbn [users with_users storeSession with_sessions].
    apply find_email_set_new; [exact Hnew | reflexivity]. }
  rewrite Hfound.
  change (StoredUser.passwordHash stored)
    with (bcrypt_hash password SALT_ROUNDS (RegisterRandom.bcryptSalt rnd)).
  rewrite compare_hash. cbn [negb].
  unfold updateUserPresence. cbn [users with_users storeSession with_sessions].
  change (StoredUser.id stored) with (toString_hex (RegisterRandom.userIdBytes rnd)).
  rewrite JSMap_get_set, bool_decide_eq_true_2 by reflexivity.
  reflexivity.
Qed.

(** X25.  The session that a successful [login] or [register] (the
    latter with a 16-byte vector for the private key) stores admits a
    token that verifies and carries the drawn [jti] for seven days from
    the call and not a millisecond longer. *)
Theorem issued_session_lasts_seven_days
    (clk clk' : Clock) (token : string) (decoded : JWTPayload.t) :
  jwt_verify token JWT_SECRET (now clk') = Some decoded ->
  (forall stringify st rnd email password,
     LoginResult.success (fst (login JWT_SECRET stringify st clk rnd email password)) = true ->
     JWTPayload.jti decoded = toString_hex rnd ->
     VerifyResult.valid
       (verifyToken JWT_SECRET (snd (login JWT_SECRET stringify st clk rnd email password))
                    clk' token)
     = bool_decide (now clk' <= now clk + SEVEN_DAYS_MS))
  /\ (forall st rnd email password,
        List.length (RegisterRandom.keyIv rnd) = 16%nat ->
        RegisterResult.success (fst (register JWT_SECRET st clk rnd email password)) = true ->
        JWTPayload.jti decoded = toString_hex (RegisterRandom.jtiBytes rnd) ->
        VerifyResult.valid
          (verifyToken JWT_SECRET (snd (register JWT_SECRET st clk rnd email password))
                       clk' token)
        = bool_decide (now clk' <= now clk + SEVEN_DAYS_MS)).
Proof.
  intros Hjwt.
  assert (Hstored : forall st0 jti session,
            JWTPayload.jti decoded = jti ->
            AuthSession.expiresAt session = now clk + SEVEN_DAYS_MS ->
            VerifyResult.valid
              (verifyToken JWT_SECRET (storeSession st0 (now clk) jti session) clk' token)
            = bool_decide (now clk' <= now clk + SEVEN_DAYS_MS)).
  { intros st0 jti session Hjti Hexp. unfold verifyToken.
    rewrite Hjwt, Hjti, getSession_storeSession, bool_decide_eq_true_2 by reflexivity.
    cbn [AuthSession.expiresAt]. rewrite Hexp.
    destruct (Z.ltb_spec (now clk + SEVEN_DAYS_MS) (now clk')); cbn;
      symmetry; [apply bool_decide_eq_false_2 | apply bool_decide_eq_true_2]; lia. }
  split.
  - intros stringify st rnd email password Hok Hjti. revert Hok. unfold login.
    destruct (getUserByEmail st email) as [user |]; [| discriminate].
    destruct (bcrypt_compare password (StoredUser.passwordHash user)); [| discriminate].
    cbn [negb]. destruct (updateUserPresence st (nowIso clk) (StoredUser.id user) true)
      as [found st1].
    intros _. cbn [snd generateTokens]. apply Hstored; [exact Hjti | reflexivity].
  - intros st rnd email password Hiv Hok Hjti.
    destruct (register_success_inv _ _ _ _ _ Hok) as (Hemail & Hpassword & Hnew).
    destruct (register_ok st clk rnd email password Hemail Hpassword Hnew Hiv)
      as (blob & _ & ->).
    cbn [snd]. apply Hstored; [exact Hjti | reflexivity].
Qed.

(** X26.  [validateSession] returns a session exactly when [verifyToken]
    accepts a token that verifies and names it; a session it finds expired
    is gone afterwards, and no other session is touched. *)
Theorem validateSession_agrees_with_verifyToken (st : SecureStorage.t) (clk : Clock)
    (sessionId token : string) (decoded : JWTPayload.t) :
  jwt_verify token JWT_SECRET (now clk) = Some decoded ->
  JWTPayload.jti decoded = sessionId ->
  let answer := validateSession st clk sessionId in
  (is_Some (fst answer)
   <-> VerifyResult.valid (verifyToken JWT_SECRET st clk token) = true)
  /\ (fst answer = None -> getSession (snd answer) sessionId = None)
  /\ (forall session, fst answer = Some session ->
        getSession st sessionId = Some session /\ snd answer = st)
  /\ (forall other, other <> sessionId ->
        getSession (snd answer) other = getSession st other).
Proof.
  intros Hjwt Hjti. cbv zeta. unfold validateSession, verifyToken.
  rewrite Hjwt, Hjti.
  destruct (getSession st sessionId) as [session |] eqn:Hs; cbn [fst snd].
  - destruct (AuthSession.expiresAt session <? now clk)%Z; cbn [fst snd VerifyResult.valid].
    + split_and!.
      * split; [intros [x Hx]; discriminate | discriminate].
      * intros _. apply getSession_deleteSession.
      * discriminate.
      * intros other Hne. unfold getSession, deleteSession. cbn.
        apply lookup_delete_ne. congruence.
    + split_and!.
      * split; [reflexivity | eauto].
      * discriminate.
      * intros s [= <-]. auto.
      * reflexivity.
  - split_and!.
    + split; [intros [x Hx]; discriminate | discriminate].
    + intros _. exact Hs.
    + discriminate.
    + reflexivity.
Qed.

(** X27.  A [changePassword] with the right old password and an
    acceptable new one succeeds and stores a hash that matches the new
    password; the private key stays encrypted as it was, under the old
    password, and every session and every answer of [verifyToken] is as
    before. *)
Theorem changePassword_keeps_sessions_and_key (st : SecureStorage.t) (salt : list byte)
    (userId oldPassword newPassword : string) (user : StoredUser.t) :
  getUserById st userId = Some user ->
  bcrypt_compare oldPassword (StoredUser.passwordHash user) = true ->
  fst (validatePassword newPassword) = true ->
  let answer := changePassword st salt userId oldPassword newPassword in
  fst answer = (true, "Password changed successfully")
  /\ (exists user',
        getUserById (snd answer) userId = Some user'
        /\ bcrypt_compare newPassword (StoredUser.passwordHash user') = true
        /\ StoredUser.encryptedPrivateKey user' = StoredUser.encryptedPrivateKey user
        /\ StoredUser.email user' = StoredUser.email user
        /\ StoredUser.id user' = StoredUser.id user)
  /\ (forall sessionId, getSession (snd answer) sessionId = getSession st sessionId)
  /\ (forall clk token,
        verifyToken JWT_SECRET (snd answer) clk token = verifyToken JWT_SECRET st clk token).
Proof.
  intros Huser Hold Hnew. cbv zeta. unfold changePassword, verifyPassword.
  rewrite Huser, Hold, Hnew. cbn [negb fst snd].
  split_and!; try reflexivity.
  eexists. split.
  - unfold getUserById. cbn [users with_users].
    rewrite JSMap_get_set, bool_decide_eq_true_2 by reflexivity. reflexivity.
  - cbn. split_and!; try reflexivity. apply compare_hash.
Qed.

(** X28.  [refreshToken] does not tell an access token from a refresh
    token.  It succeeds for exactly the tokens that [verifyToken] accepts
    at that moment, and a refused refresh returns no tokens and leaves the
    store as it was.  So the 15-minute access token that a successful
    [login] issued, presented to [refreshToken] before it expires, is
    accepted: the call returns a new pair and stores a new session that
    lasts seven days. *)
Theorem refreshToken_accepts_what_verifyToken_accepts `{!JwtLaws}
    (st : SecureStorage.t) (clk : Clock) (rnd : list byte) (token : string) :
  RefreshResult.success (fst (refreshToken JWT_SECRET st clk rnd token))
  = VerifyResult.valid (verifyToken JWT_SECRET st clk token)
  /\ (VerifyResult.valid (verifyToken JWT_SECRET st clk token) = false ->
      snd (refreshToken JWT_SECRET st clk rnd token) = st
      /\ RefreshResult.tokens (fst (refreshToken JWT_SECRET st clk rnd token)) = None)
  /\ (forall stringify clk0 rnd0 email password issued,
        LoginResult.tokens (fst (login JWT_SECRET stringify st clk0 rnd0 email password))
        = Some issued ->
        now clk / 1000 < now clk0 / 1000 + 900 ->
        let st1 := snd (login JWT_SECRET stringify st clk0 rnd0 email password) in
        let refreshed := refreshToken JWT_SECRET st1 clk rnd (Tokens.accessToken issued) in
        RefreshResult.success (fst refreshed) = true
        /\ is_Some (RefreshResult.tokens (fst refreshed))
        /\ (AuthSession.expiresAt <$> getSession (snd refreshed) (toString_hex rnd))
           = Some (now clk + SEVEN_DAYS_MS)).
Proof.
  split; [| split].
  - unfold refreshToken, verifyToken.
    destruct (jwt_verify token JWT_SECRET (now clk)) as [decoded |]; [| reflexivity].
    destruct (getSession st (JWTPayload.jti decoded)) as [session |]; [| reflexivity].
    destruct (AuthSession.expiresAt session <? now clk)%Z; reflexivity.
  - unfold refreshToken, verifyToken.
    destruct (jwt_verify token JWT_SECRET (now clk)) as [decoded |]; [| cbn; auto].
    destruct (getSession st (JWTPayload.jti decoded)) as [session |]; [| cbn; auto].
    destruct (AuthSession.expiresAt session <? now clk)%Z; cbn; [auto | discriminate].
  - intros stringify clk0 rnd0 email password issued Hissued Hfresh. cbv zeta.
    revert Hissued. unfold login.
    destruct (getUserByEmail st email) as [user |]; [| discriminate].
    destruct (bcrypt_compare password (StoredUser.passwordHash user)); [| discriminate].
    cbn [negb].
    destruct (updateUserPresence st (nowIso clk0) (StoredUser.id user) true)
      as [found st1].
    cbn [fst snd generateTokens LoginResult.tokens]. intros [= <-].
    cbn [Tokens.accessToken].
    set (userId := StoredUser.id (if found then _ else user)).
    set (stored := storeSession st1 _ _ _).
    assert (Hjwt : jwt_verify
                     (jwt_sign userId email (toString_hex rnd0) JWT_SECRET
                        ACCESS_TOKEN_EXPIRY (now clk0)) JWT_SECRET (now clk)
                   = Some {| JWTPayload.userId := userId; JWTPayload.email := email;
                             JWTPayload.iat := now clk0 / 1000;
                             JWTPayload.exp := now clk0 / 1000 + 900;
                             JWTPayload.jti := toString_hex rnd0 |})
      by (apply verify_issued; [left; split; reflexivity | exact Hfresh]).
    assert (Hs : exists session,
               getSession stored (toString_hex rnd0) = Some session
               /\ AuthSession.expiresAt session = now clk0 + SEVEN_DAYS_MS).
    { unfold stored. rewrite getSession_storeSession, bool_decide_eq_true_2 by reflexivity.
      eexists. split; reflexivity. }
    destruct Hs as (session & Hs & Hexp).
    assert (Hlive : now clk <= AuthSession.expiresAt session).
    { rewrite Hexp. unfold SEVEN_DAYS_MS.
      pose proof (Z.mul_div_le (now clk0) 1000 ltac:(lia)).
      pose proof (Z.mul_succ_div_gt (now clk) 1000 ltac:(lia)). lia. }
    rewrite (refreshToken_outcome JWT_SECRET stored clk rnd _ _ session Hjwt Hs Hlive).
    cbn [fst snd RefreshResult.success RefreshResult.tokens].
    split; [reflexivity |]. split; [eauto |].
    rewrite getSession_storeSession, bool_decide_eq_true_2 by reflexivity. reflexivity.
Qed.
End Registration.

Lemma Reference_bcrypt_laws : CryptoLaws.BcryptLaws (H := Reference.bcrypt).
Proof. split. intros password rounds salt. cbn. apply String.eqb_refl. Qed.

Lemma register_succeeds_iff_witness :
  snd (AuthService.register (H := Reference.crypto) (H0 := Reference.scrypt)
         (H1 := Reference.jwt) (H2 := Reference.bcrypt) Reference.SECRET
         Reference.store0 (AuthService.mkClock 1000 "1970-01-01T00:00:01.000Z")
         (RegisterRandom.mk [x01] [] [x75; x32] (repeat x05 16) (repeat x07 16) [x6a; x02])
         "alice@example.com" "Correct-Horse-42!")
  = Reference.store0.
Proof.
  destruct (register_succeeds_iff (H := Reference.crypto) (H0 := Reference.scrypt)
              (H1 := Reference.jwt) (H2 := Reference.bcrypt)
              (H4 := Reference_scrypt_laws) Reference.SECRET
              Reference.store0 (AuthService.mkClock 1000 "1970-01-01T00:00:01.000Z")
              (RegisterRandom.mk [x01] [] [x75; x32] (repeat x05 16) (repeat x07 16)
                                 [x6a; x02])
              "alice@example.com" "Correct-Horse-42!" eq_refl) as [_ Hfail].
  apply Hfail. vm_compute. reflexivity.
Defined.

Lemma register_then_login_witness :
  LoginResult.success
    (fst (AuthService.login (H := Reference.jwt) (H0 := Reference.bcrypt) Reference.SECRET
            (fun _ => "{}")
            (snd (AuthService.register (H := Reference.crypto) (H0 := Reference.scrypt)
                    (H1 := Reference.jwt) (H2 := Reference.bcrypt) Reference.SECRET
                    SecureStorage.empty
                    (AuthService.mkClock 1000 "1970-01-01T00:00:01.000Z")
                    (RegisterRandom.mk [x01] [] [x75; x32] (repeat x05 16)
                                       (repeat x07 16) [x6a; x02])
                    "bob@example.com" "Correct-Horse-42!"))
            (AuthService.mkClock 2000 "1970-01-01T00:00:02.000Z") [x6a; x03]
            "bob@example.com" "Correct-Horse-42!"))
  = true.
Proof.
  destruct (register_then_login (H := Reference.crypto) (H0 := Reference.scrypt)
              (H1 := Reference.jwt) (H2 := Reference.bcrypt)
              (H3 := Reference_symmetric_laws) (H4 := Reference_scrypt_laws)
              (H5 := Reference_bcrypt_laws) Reference.SECRET
              SecureStorage.empty
              (AuthService.mkClock 1000 "1970-01-01T00:00:01.000Z")
              (AuthService.mkClock 2000 "1970-01-01T00:00:02.000Z")
              (RegisterRandom.mk [x01] [] [x75; x32] (repeat x05 16) (repeat x07 16)
                                 [x6a; x02])
              [x6a; x03] "bob@example.com" "Correct-Horse-42!" (fun _ => "{}")
              eq_refl eq_refl) as (blob & _ & Hlogin); [vm_compute; reflexivity |].
  rewrite Hlogin. reflexivity.
Defined.

Lemma issued_session_lasts_seven_days_witness :
  VerifyResult.valid
    (AuthService.verifyToken (H := Reference.jwt) Reference.SECRET
       (snd (AuthService.login (H := Reference.jwt) (H0 := Reference.bcrypt)
               Reference.SECRET (fun _ => "{}")
               (SecureStorage.with_users SecureStorage.empty [("u1", Reference.alice)])
               (AuthService.mkClock 0 "1970-01-01T00:00:00.000Z") [x6a; x01]
               "alice@example.com" "Correct-Horse-42!"))
       (AuthService.mkClock 1000 "1970-01-01T00:00:01.000Z") Reference.refresh_6a01)
  = true.
Proof.
  destruct (issued_session_lasts_seven_days (H := Reference.crypto)
              (H0 := Reference.scrypt) (H1 := Reference.jwt) (H2 := Reference.bcrypt)
              (H4 := Reference_scrypt_laws) Reference.SECRET
              (AuthService.mkClock 0 "1970-01-01T00:00:00.000Z")
              (AuthService.mkClock 1000 "1970-01-01T00:00:01.000Z")
              Reference.refresh_6a01 Reference.payload_6a01 eq_refl) as [Hlogin _].
  rewrite Hlogin; [reflexivity | vm_compute; reflexivity | reflexivity].
Defined.

Lemma validateSession_agrees_with_verifyToken_witness :
  is_Some
    (fst (AuthService.validateSession Reference.store0
            (AuthService.mkClock 1000 "1970-01-01T00:00:01.000Z") "6a01")).
Proof.
  destruct (validateSession_agrees_with_verifyToken (H1 := Reference.jwt) Reference.SECRET
              Reference.store0 (AuthService.mkClock 1000 "1970-01-01T00:00:01.000Z")
              "6a01" Reference.refresh_6a01 Reference.payload_6a01 eq_refl eq_refl)
    as [Hiff _].
  apply Hiff. vm_compute. reflexivity.
Defined.

Lemma changePassword_keeps_sessions_and_key_witness :
  SecureStorage.getSession
    (snd (AuthService.changePassword (H2 := Reference.bcrypt) Reference.store0 []
            "u1" "Correct-Horse-42!" "Battery-Staple-43?")) "6a01"
  = SecureStorage.getSession Reference.store0 "6a01".
Proof.
  destruct (changePassword_keeps_sessions_and_key (H1 := Reference.jwt)
              (H2 := Reference.bcrypt) (H5 := Reference_bcrypt_laws) Reference.SECRET
              Reference.store0 [] "u1" "Correct-Horse-42!" "Battery-Staple-43?"
              (SecureStorage.touch Reference.alice "1970-01-01T00:00:00.000Z" true)
              eq_refl eq_refl eq_refl) as (_ & _ & Hsessions & _).
  apply Hsessions.
Defined.

(** Alice logs in at time 0 and, one second later, presents the access
    token of that login to [refreshToken]: it is accepted. *)
Lemma refreshToken_accepts_what_verifyToken_accepts_witness :
  let entry :=
    AuthService.login (H := Reference.jwt) (H0 := Reference.bcrypt) Reference.SECRET
      (fun _ => "{}")
      (SecureStorage.with_users SecureStorage.empty [("u1", Reference.alice)])
      (AuthService.mkClock 0 "1970-01-01T00:00:00.000Z") [x6a; x01]
      "alice@example.com" "Correct-Horse-42!" in
  let accessToken :=
    AuthService.jwt_sign (JwtLib := Reference.jwt) "u1" "alice@example.com" "6a01"
      Reference.SECRET AuthService.ACCESS_TOKEN_EXPIRY 0 in
  (Tokens.accessToken <$> LoginResult.tokens (fst entry)) = Some accessToken
  /\ RefreshResult.success
       (fst (AuthService.refreshToken (H := Reference.jwt) Reference.SECRET (snd entry)
               (AuthService.mkClock 1000 "1970-01-01T00:00:01.000Z") [x6a; x02]
               accessToken))
     = true.
Proof.
  cbv zeta. split; [vm_compute; reflexivity |].
  destruct (refreshToken_accepts_what_verifyToken_accepts (H1 := Reference.jwt)
              (H2 := Reference.bcrypt) (H6 := Reference_jwt_laws) Reference.SECRET
              (SecureStorage.with_users SecureStorage.empty [("u1", Reference.alice)])
              (AuthService.mkClock 1000 "1970-01-01T00:00:01.000Z") [x6a; x02]
              EmptyString) as (_ & _ & Haccess).
  destruct (Haccess (fun _ => "{}") (AuthService.mkClock 0 "1970-01-01T00:00:00.000Z")
              [x6a; x01] "alice@example.com" "Correct-Horse-42!"
              {| Tokens.accessToken :=
                   AuthService.jwt_sign (JwtLib := Reference.jwt) "u1" "alice@example.com"
                     "6a01" Reference.SECRET AuthService.ACCESS_TOKEN_EXPIRY 0;
                 Tokens.refreshToken := Reference.refresh_6a01 |})
    as (Hok & _); [vm_compute; reflexivity | vm_compute; reflexivity |].
  exact Hok.
Defined.

(** ** A connection that answers *)

Section ResponsiveConnection.
Import ExtendedWebSocket WebSocketManager.

Lemma heartbeat_terminate (clients : JSMap.t ExtendedWebSocket.t) (k : string) :
  Terminate k ∈ snd (heartbeat clients) ->
  exists ws, (k, ws) ∈ clients /\ isAlive ws = false.
Proof.
  induction clients as [|[k0 ws0] rest IH]; cbn; [intros Hin; inversion Hin |].
  destruct (heartbeat rest) as [rest' acts]. cbn in IH.
  destruct (isAlive ws0) eqn:Halive; cbn; intros Hin;
    apply elem_of_cons in Hin as [Heq | Hin].
  - discriminate.
  - destruct (IH Hin) as (ws & Hws & Hdead). exists ws. split; [right |]; assumption.
  - injection Heq as ->. exists ws0. split; [left | assumption].
  - destruct (IH Hin) as (ws & Hws & Hdead). exists ws. split; [right |]; assumption.
Qed.

Lemma notifyNewMessage_sends_only (clients : JSMap.t ExtendedWebSocket.t)
    (nowIso recipientEmail messageData k : string) :
  Terminate k ∉ notifyNewMessage clients nowIso recipientEmail messageData.
Proof.
  unfold notifyNewMessage, sendMessage.
  destruct (List.find _ clients) as [[userId recipient] |]; [| apply not_elem_of_nil].
  case_bool_decide; [| apply not_elem_of_nil].
  intros Hin. apply list_elem_of_singleton in Hin. discriminate.
Qed.

(** Events without a sweep keep the keys, terminate nothing, and leave
    the socket under [k] as it was or, after a pong of [k], alive. *)
Lemma run_no_sweep (evs : list Event) (st : WebSocketManager.t) (k : string)
    (ws : ExtendedWebSocket.t) :
  EvHeartbeat ∉ evs ->
  JSMap.get (clients st) k = Some ws ->
  JSMap.keys (clients (run st evs)) = JSMap.keys (clients st)
  /\ (exists b : bool,
        JSMap.get (clients (run st evs)) k = Some (if b then set_isAlive ws true else ws)
        /\ (EvPong k ∈ evs -> b = true))
  /\ exists acts, performed (run st evs) = performed st ++ acts
                  /\ forall k', Terminate k' ∉ acts.
Proof.
  revert st ws. induction evs as [|ev evs IH]; intros st ws Hsweep Hget.
  - cbn. split; [reflexivity |]. split.
    + exists false. split; [exact Hget |]. intros Hin. inversion Hin.
    + exists []. rewrite app_nil_r. split; [reflexivity |]. intros k'. apply not_elem_of_nil.
  - apply not_elem_of_cons in Hsweep as [Hev Hsweep].
    change (run st (ev :: evs)) with (run (step st ev) evs).
    destruct ev as [| k' | nowIso em data]; [congruence | |].
    + assert (Hget' : JSMap.get (clients (step st (EvPong k'))) k
                      = Some (if bool_decide (k' = k) then set_isAlive ws true else ws)).
      { cbn [step clients]. rewrite pong_get, Hget. case_bool_decide; reflexivity. }
      destruct (IH _ _ Hsweep Hget') as (Hkeys & (b & Hfinal & Hb) & acts & Hacts & Hterm).
      split; [rewrite Hkeys; cbn [step clients]; apply pong_keys |]. split.
      * case_bool_decide as Hk.
        -- exists true. split; [| reflexivity]. rewrite Hfinal. destruct b; reflexivity.
        -- exists b. split; [exact Hfinal |]. intros Hin.
           apply elem_of_cons in Hin as [Heq | Hin]; [congruence | auto].
      * exists acts. split; [exact Hacts | exact Hterm].
    + assert (Hget' : JSMap.get (clients (step st (EvNotify nowIso em data))) k = Some ws)
        by exact Hget.
      destruct (IH _ _ Hsweep Hget') as (Hkeys & (b & Hfinal & Hb) & acts & Hacts & Hterm).
      split; [exact Hkeys |]. split.
      * exists b. split; [exact Hfinal |]. intros Hin.
        apply elem_of_cons in Hin as [Heq | Hin]; [discriminate | auto].
      * exists (notifyNewMessage (clients st) nowIso em data ++ acts).
        split; [rewrite Hacts; cbn [step performed]; rewrite <- app_assoc; reflexivity |].
        intros k'' Hin. apply elem_of_app in Hin as [Hin | Hin].
        -- exact (notifyNewMessage_sends_only _ _ _ _ _ Hin).
        -- exact (Hterm _ Hin).
Qed.

(** X29.  As long as no socket connects or closes, that is in a run of
    heartbeat sweeps, pongs and new-message notifications only, a
    registered socket that is alive and whose pong arrives after every
    sweep, before the next one, is never terminated and stays registered,
    however many sweeps run and whichever other pongs and notifications
    come in between. *)
Theorem responsive_connection_survives (st : WebSocketManager.t) (k : string)
    (ws : ExtendedWebSocket.t) (rounds : list (list Event)) :
  NoDup (JSMap.keys (clients st)) ->
  JSMap.get (clients st) k = Some ws -> isAlive ws = true ->
  Forall (fun round => EvPong k ∈ round /\ EvHeartbeat ∉ round) rounds ->
  let st' := run st (mjoin ((fun round => EvHeartbeat :: round) <$> rounds)) in
  JSMap.get (clients st') k = Some ws
  /\ exists acts, performed st' = performed st ++ acts /\ Terminate k ∉ acts.
Proof.
  intros Hnd Hget Halive Hrounds. cbv zeta. revert st Hnd Hget.
  induction Hrounds as [|round rounds [Hpong Hsweep] _ IH]; intros st Hnd Hget.
  - cbn. split; [exact Hget |]. exists []. rewrite app_nil_r.
    split; [reflexivity | apply not_elem_of_nil].
  - cbn [fmap list_fmap mjoin list_join].
    change (run st ((EvHeartbeat :: round) ++ ?rest))
      with (run (step st EvHeartbeat) (round ++ rest)).
    unfold run. rewrite foldl_app. fold (run (step st EvHeartbeat) round).
    set (st1 := step st EvHeartbeat).
    assert (Hget1 : JSMap.get (clients st1) k = Some (set_isAlive ws false)).
    { unfold st1. rewrite step_heartbeat. cbn [clients].
      rewrite heartbeat_get, Hget, Halive by assumption. reflexivity. }
    assert (Hnd1 : NoDup (JSMap.keys (clients st1))).
    { unfold st1. rewrite step_heartbeat. apply heartbeat_NoDup, Hnd. }
    destruct (run_no_sweep round st1 k _ Hsweep Hget1)
      as (Hkeys & (b & Hget2 & Hb) & acts2 & Hacts2 & Hterm2).
    rewrite (Hb Hpong) in Hget2.
    assert (Hback : set_isAlive (set_isAlive ws false) true = ws).
    { destruct ws as [u e a r]. cbn in Halive. subst a. reflexivity. }
    rewrite Hback in Hget2.
    set (st2 := run st1 round) in *.
    destruct (IH st2) as (Hfinal & acts & Hacts & Hterm);
      [rewrite Hkeys; exact Hnd1 | exact Hget2 |].
    unfold run in Hfinal, Hacts.
    split; [exact Hfinal |].
    exists (snd (heartbeat (clients st)) ++ acts2 ++ acts).
    split.
    + etrans; [exact Hacts |]. rewrite Hacts2. unfold st1. rewrite step_heartbeat. cbn [performed].
      rewrite <- !app_assoc. reflexivity.
    + intros Hin. apply elem_of_app in Hin as [Hin | Hin];
        [| apply elem_of_app in Hin as [Hin | Hin]].
      * destruct (heartbeat_terminate _ _ Hin) as (ws0 & Hws0 & Hdead).
        rewrite (JSMap_elem_get _ _ _ Hnd Hws0) in Hget. congruence.
      * exact (Hterm2 _ Hin).
      * exact (Hterm Hin).
Qed.
End ResponsiveConnection.

Lemma responsive_connection_survives_witness :
  JSMap.get
    (WebSocketManager.clients
       (WebSocketManager.run Reference.registry0
          (mjoin ((fun round => WebSocketManager.EvHeartbeat :: round)
                    <$> [[WebSocketManager.EvPong "u2"];
                         [WebSocketManager.EvPong "u1"; WebSocketManager.EvPong "u2"]]))))
    "u2"
  = Some (ExtendedWebSocket.mk (Some "u2") (Some "bob@example.com") true
            ExtendedWebSocket.OPEN).
Proof.
  apply (responsive_connection_survives Reference.registry0 "u2").
  - apply (bool_decide_unpack _). vm_compute. exact I.
  - reflexivity.
  - reflexivity.
  - repeat constructor; try (intros Hin; repeat (apply elem_of_cons in Hin as [Heq | Hin];
      [discriminate |]); inversion Hin).
Defined.

(** ** Two connections of one user *)

Section JSMapMore.
Context {V : Type}.

Lemma JSMap_keys_set_elem (m : JSMap.t V) (k x : string) (v : V) :
  x ∈ JSMap.keys (JSMap.set m k v) -> x = k \/ x ∈ JSMap.keys m.
Proof.
  induction m as [|[k0 v0] rest IH]; cbn.
  - intros Hin. apply list_elem_of_singleton in Hin. auto.
  - case_bool_decide as Hk; cbn; intros Hin; apply elem_of_cons in Hin as [-> | Hin].
    + auto.
    + right. right. exact Hin.
    + right. left.
    + destruct (IH Hin) as [-> | Hrest]; [auto | right; right; exact Hrest].
Qed.

Lemma JSMap_set_NoDup (m : JSMap.t V) (k : string) (v : V) :
  NoDup (JSMap.keys m) -> NoDup (JSMap.keys (JSMap.set m k v)).
Proof.
  induction m as [|[k0 v0] rest IH]; cbn; intros Hnd.
  - apply NoDup_singleton.
  - apply NoDup_cons in Hnd as [Hfresh Hnd]. case_bool_decide as Hk; cbn.
    + subst k0. apply NoDup_cons. split; assumption.
    + apply NoDup_cons. split; [| apply IH, Hnd].
      intros Hin. destruct (JSMap_keys_set_elem _ _ _ _ Hin) as [-> | Hrest]; auto.
Qed.

Lemma JSMap_get_delete (m : JSMap.t V) (k : string) :
  NoDup (JSMap.keys m) -> JSMap.get (JSMap.delete m k) k = None.
Proof.
  induction m as [|[k0 v0] rest IH]; cbn; intros Hnd; [reflexivity |].
  apply NoDup_cons in Hnd as [Hfresh Hnd]. case_bool_decide as Hk; cbn.
  - subst k0. apply JSMap_get_not_key, Hfresh.
  - rewrite bool_decide_eq_false_2 by assumption. apply IH, Hnd.
Qed.

Lemma JSMap_elem_delete (m : JSMap.t V) (k k' : string) (v : V) :
  NoDup (JSMap.keys m) -> (k', v) ∈ JSMap.delete m k -> k' <> k /\ (k', v) ∈ m.
Proof.
  induction m as [|[k0 v0] rest IH]; cbn; intros Hnd Hin; [inversion Hin |].
  apply NoDup_cons in Hnd as [Hfresh Hnd]. revert Hin. case_bool_decide as Hk; intros Hin.
  - subst k0. split; [| right; exact Hin].
    intros ->. apply Hfresh. apply list_elem_of_fmap. exists (k, v). auto.
  - apply elem_of_cons in Hin as [[= -> ->] | Hin].
    + split; [assumption | left].
    + destruct (IH Hnd Hin) as [Hne Hrest]. split; [assumption | right; exact Hrest].
Qed.

Lemma JSMap_elem_set (m : JSMap.t V) (k k' : string) (v v' : V) :
  (k', v') ∈ JSMap.set m k v -> (k', v') = (k, v) \/ (k', v') ∈ m.
Proof.
  induction m as [|[k0 v0] rest IH]; cbn; intros Hin.
  - apply list_elem_of_singleton in Hin. auto.
  - revert Hin. case_bool_decide as Hk; intros Hin;
      apply elem_of_cons in Hin as [Heq | Hin].
    + auto.
    + right. right. exact Hin.
    + right. rewrite Heq. left.
    + destruct (IH Hin) as [Heq | Hrest]; [auto | right; right; exact Hrest].
Qed.
End JSMapMore.

Section Reconnect.
Import ExtendedWebSocket WebSocketConnections AuthService.
Context `{JwtLib}.
Variable JWT_SECRET : string.

Lemma verifyToken_updateUserPresence (st : SecureStorage.t) (nowIso user : string)
    (online : bool) (clk : Clock) (token : string) :
  verifyToken JWT_SECRET (snd (SecureStorage.updateUserPresence st nowIso user online))
              clk token
  = verifyToken JWT_SECRET st clk token.
Proof.
  unfold SecureStorage.updateUserPresence.
  destruct (JSMap.get (SecureStorage.users st) user); reflexivity.
Qed.

Lemma getUserById_updateUserPresence (st : SecureStorage.t) (nowIso user : string)
    (online : bool) :
  SecureStorage.getUserById
    (snd (SecureStorage.updateUserPresence st nowIso user online)) user
  = (fun u => SecureStorage.touch u nowIso online) <$> SecureStorage.getUserById st user.
Proof.
  unfold SecureStorage.updateUserPresence, SecureStorage.getUserById.
  destruct (JSMap.get (SecureStorage.users st) user) as [u |] eqn:Hget; cbn.
  - rewrite JSMap_get_set, bool_decide_eq_true_2 by reflexivity. reflexivity.
  - exact Hget.
Qed.

(** The registry after a connection with an accepted token. *)
Lemma handleConnection_accepted (st : WebSocketConnections.t) (clk : Clock) (ws : nat)
    (token : string) (payload : JWTPayload.t) :
  token <> EmptyString ->
  VerifyResult.valid (verifyToken JWT_SECRET (storage st) clk token) = true ->
  VerifyResult.payload (verifyToken JWT_SECRET (storage st) clk token) = Some payload ->
  let st' := handleConnection JWT_SECRET st clk ws (Some token) in
  sockets st'
  = <[ws := {| userId := Some (JWTPayload.userId payload);
               email := Some (JWTPayload.email payload);
               isAlive := true;
               readyState := readyState (socket st ws) |}]> (sockets st)
  /\ clients st' = JSMap.set (clients st) (JWTPayload.userId payload) ws
  /\ storage st'
     = snd (SecureStorage.updateUserPresence (storage st) (nowIso clk)
              (JWTPayload.userId payload) true).
Proof.
  intros Htoken Hvalid Hpayload. cbv zeta. unfold handleConnection.
  destruct (String.eqb_spec token EmptyString) as [| _]; [contradiction |].
  rewrite Hvalid, Hpayload. cbn. auto.
Qed.

(** X30.  When a user connects on a socket, connects again on a second
    one while the first is still registered, and the first socket then
    closes, [handleDisconnection] removes the entry of the second socket:
    the user is no longer registered and is marked offline although the
    second socket is open, and [notifyNewMessage] to the user's address
    sends nothing (no socket of another user carrying that address). *)
Theorem second_connection_lost_on_first_close
    (st : WebSocketConnections.t) (clk1 clk2 : Clock) (nowIso3 : string)
    (first second : nat) (token1 token2 user address : string)
    (payload1 payload2 : JWTPayload.t) :
  first <> second -> user <> EmptyString -> address <> EmptyString ->
  token1 <> EmptyString -> token2 <> EmptyString ->
  NoDup (JSMap.keys (clients st)) ->
  readyState (socket st second) = OPEN ->
  VerifyResult.valid (verifyToken JWT_SECRET (storage st) clk1 token1) = true ->
  VerifyResult.payload (verifyToken JWT_SECRET (storage st) clk1 token1) = Some payload1 ->
  VerifyResult.valid (verifyToken JWT_SECRET (storage st) clk2 token2) = true ->
  VerifyResult.payload (verifyToken JWT_SECRET (storage st) clk2 token2) = Some payload2 ->
  JWTPayload.userId payload1 = user -> JWTPayload.userId payload2 = user ->
  JWTPayload.email payload1 = address -> JWTPayload.email payload2 = address ->
  (forall k ws, (k, ws) ∈ clients st -> k <> user ->
     ws <> first /\ ws <> second /\ email (socket st ws) <> Some address) ->
  let st1 := handleConnection JWT_SECRET st clk1 first (Some token1) in
  let st2 := handleConnection JWT_SECRET st1 clk2 second (Some token2) in
  let st3 := handleDisconnection st2 nowIso3 first in
  JSMap.get (clients st2) user = Some second
  /\ JSMap.get (clients st3) user = None
  /\ socket st3 second
     = {| userId := Some user; email := Some address; isAlive := true;
          readyState := OPEN |}
  /\ StoredUser.isOnline <$> SecureStorage.getUserById (storage st3) user
     = (fun _ => false) <$> SecureStorage.getUserById (storage st) user
  /\ forall nowIso messageData, notifyNewMessage st3 nowIso address messageData = [].
Proof.
  intros Hne Huser Haddress Ht1 Ht2 Hnd Hopen Hv1 Hp1 Hv2 Hp2 Hu1 Hu2 He1 He2 Hothers.
  cbv zeta.
  destruct (handleConnection_accepted st clk1 first token1 payload1 Ht1 Hv1 Hp1)
    as (Hs1 & Hc1 & Hst1).
  set (st1 := handleConnection JWT_SECRET st clk1 first (Some token1)) in *.
  assert (Hv2' : VerifyResult.valid (verifyToken JWT_SECRET (storage st1) clk2 token2) = true)
    by (rewrite Hst1, verifyToken_updateUserPresence; exact Hv2).
  assert (Hp2' : VerifyResult.payload (verifyToken JWT_SECRET (storage st1) clk2 token2)
                 = Some payload2)
    by (rewrite Hst1, verifyToken_updateUserPresence; exact Hp2).
  destruct (handleConnection_accepted st1 clk2 second token2 payload2 Ht2 Hv2' Hp2')
    as (Hs2 & Hc2 & Hst2).
  set (st2 := handleConnection JWT_SECRET st1 clk2 second (Some token2)) in *.
  rewrite Hu1, He1 in *. rewrite Hu2, He2 in *.
  assert (Hsock1 : socket st1 second = socket st second).
  { unfold socket. rewrite Hs1, lookup_insert_ne by assumption. reflexivity. }
  assert (Hfirst2 : socket st2 first
                    = {| userId := Some user; email := Some address; isAlive := true;
                         readyState := readyState (socket st first) |}).
  { unfold socket at 1. rewrite Hs2, lookup_insert_ne by congruence.
    rewrite Hs1, lookup_insert_eq. reflexivity. }
  assert (Hnd2 : NoDup (JSMap.keys (clients st2))).
  { rewrite Hc2, Hc1. apply JSMap_set_NoDup, JSMap_set_NoDup, Hnd. }
  unfold handleDisconnection. cbv zeta. rewrite Hfirst2.
  cbn [userId email isAlive nonempty].
  destruct (String.eqb_spec user EmptyString) as [| _]; [contradiction |].
  destruct (String.eqb_spec address EmptyString) as [| _]; [contradiction |].
  unfold with_effects. cbn [clients sockets storage].
  split_and!.
  - rewrite Hc2, JSMap_get_set, bool_decide_eq_true_2 by reflexivity. reflexivity.
  - apply JSMap_get_delete, Hnd2.
  - unfold socket. cbn [sockets].
    rewrite lookup_insert_ne by assumption.
    rewrite Hs2, lookup_insert_eq. change (default ?d (Some ?x)) with x.
    rewrite Hsock1, Hopen. reflexivity.
  - rewrite Hst2, Hst1, !getUserById_updateUserPresence.
    destruct (SecureStorage.getUserById (storage st) user); reflexivity.
  - intros nowIso messageData. unfold notifyNewMessage. cbn [clients].
    match goal with
    | |- context [List.find ?f ?l] => destruct (List.find f l) as [[k ws] |] eqn:Hfind
    end; [| reflexivity].
    exfalso. apply find_some in Hfind as [Hin Hmatch].
    apply list_elem_of_In in Hin. cbn [snd] in Hmatch.
    apply bool_decide_eq_true_1 in Hmatch.
    apply (JSMap_elem_delete _ _ _ _ Hnd2) in Hin as [Hk Hin].
    rewrite Hc2 in Hin. apply JSMap_elem_set in Hin as [[= -> ->] | Hin]; [congruence |].
    rewrite Hc1 in Hin. apply JSMap_elem_set in Hin as [[= -> ->] | Hin]; [congruence |].
    destruct (Hothers k ws Hin Hk) as (Hws1 & Hws2 & Hemail).
    apply Hemail. rewrite <- Hmatch. unfold socket. cbn [sockets].
    rewrite lookup_insert_ne by congruence.
    rewrite Hs2, lookup_insert_ne by congruence.
    rewrite Hs1, lookup_insert_ne by congruence. reflexivity.
Qed.
End Reconnect.

Lemma second_connection_lost_on_first_close_witness :
  let st0 :=
    {| WebSocketConnections.sockets := ∅; WebSocketConnections.clients := [];
       WebSocketConnections.storage := Reference.store0;
       WebSocketConnections.effects := [] |} in
  let clk := AuthService.mkClock 1000 "1970-01-01T00:00:01.000Z" in
  let st3 :=
    WebSocketConnections.handleDisconnection
      (WebSocketConnections.handleConnection (H := Reference.jwt) Reference.SECRET
         (WebSocketConnections.handleConnection (H := Reference.jwt) Reference.SECRET
            st0 clk 1%nat (Some Reference.refresh_6a01))
         clk 2%nat (Some Reference.refresh_6a01))
      "1970-01-01T00:00:02.000Z" 1%nat in
  JSMap.get (WebSocketConnections.clients st3) "u1" = None
  /\ ExtendedWebSocket.readyState (WebSocketConnections.socket st3 2%nat)
     = ExtendedWebSocket.OPEN.
Proof.
  cbv zeta.
  destruct (second_connection_lost_on_first_close (H := Reference.jwt) Reference.SECRET
              {| WebSocketConnections.sockets := ∅; WebSocketConnections.clients := [];
                 WebSocketConnections.storage := Reference.store0;
                 WebSocketConnections.effects := [] |}
              (AuthService.mkClock 1000 "1970-01-01T00:00:01.000Z")
              (AuthService.mkClock 1000 "1970-01-01T00:00:01.000Z")
              "1970-01-01T00:00:02.000Z" 1%nat 2%nat
              Reference.refresh_6a01 Reference.refresh_6a01 "u1" "alice@example.com"
              Reference.payload_6a01 Reference.payload_6a01)
    as (_ & Hgone & Hsecond & _);
    try discriminate; try reflexivity.
  - constructor.
  - intros k ws Hin. inversion Hin.
  - split; [exact Hgone |]. rewrite Hsecond. reflexivity.
Defined.

Lemma validateMessage_reports_each_failure_witness :
  "Invalid recipient email"
    ∈ ValidationResult.errors
        (LuminaWebProtocol.validateMessage (H := Reference.crypto) (H0 := Reference.dates)
           1704067201000
           (LuminaWebProtocol.createMessage (H := Reference.crypto)
              "2024-01-01T00:00:00.000Z" Reference.nonce0 "presence"
              "alice@example.com" "broadcast" "{}" "rsa-private:01")
           "rsa-public:01").
Proof.
  apply (validateMessage_reports_each_failure (H := Reference.crypto)
           (H0 := Reference.dates)).
  vm_compute. reflexivity.
Defined.

(** A payload that is valid JSON and no encrypted blob, here a mail in
    the clear, fails to decrypt. *)
Example decryptMessage_not_a_blob :
  LuminaWebProtocol.decryptMessage (H := Reference.crypto) (H0 := Reference.json)
    (H1 := Reference.coercions)
    (LuminaWebProtocol.createMessage (H := Reference.crypto)
       "2024-01-01T00:00:00.000Z" Reference.nonce0 "message"
       "alice@example.com" "bob@example.com"
       (Reference.print_json Reference.mail0) "rsa-private:01")
    (repeat x2a 32)
  = LuminaWebProtocol.FailedToDecrypt.
Proof. vm_compute. reflexivity. Qed.
